(** * numba/inline_closurecall.py: closure inlining and loop-to-array rewrite

    A shallow embedding of the pass [InlineClosureCallPass] and of the
    helpers it is built from.  Python objects that are mutated in place
    (blocks of the function IR, the definitions table, the scope, the label
    counter of [ir_utils]) live in an explicit [State]; a Python exception is
    a [Raise] outcome. *)

From Stdlib Require Import ZArith List String Ascii Bool Lia Arith.
From Stdlib Require Import DecimalString.
From Stdlib Require Import Permutation Sorted.
Import ListNotations.

Set Implicit Arguments.

(** ** Exceptions and outcomes *)

Inductive exn : Type :=
| GuardException
| KeyError
| IndexError
| AssertionError
| ValueError
| TypeError
| UnboundLocalError
| NotImplementedError
| RedefinedError
| AttributeError
| Hang        (* the source does not return: an endless [while True] *)
| OutOfFuel.  (* the fuel given to a driver loop of the model ran out *)

Inductive outcome (A : Type) : Type :=
| Ok (a : A)
| Raise (e : exn).

Arguments Ok {A} a.
Arguments Raise {A} e.

Definition exn_eq_dec (a b : exn) : {a = b} + {a <> b}.
Proof. decide equality. Defined.

Definition bind {A B} (m : outcome A) (k : A -> outcome B) : outcome B :=
  match m with
  | Ok a => k a
  | Raise e => Raise e
  end.

Declare Scope py_scope.
Delimit Scope py_scope with py.
Notation "x <- m ;; k" := (bind m (fun x => k))
  (at level 61, m at next level, right associativity) : py_scope.
Notation "' p <- m ;; k" := (bind m (fun x => match x with p => k end))
  (at level 61, p pattern, m at next level, right associativity) : py_scope.
Notation "m ;;; k" := (bind m (fun _ => k))
  (at level 61, right associativity) : py_scope.

(** ** The guarded-matching utility (lines 307-336) *)

(** [require(cond)]: raise [GuardException] if the condition is false. *)
Definition require (cond : bool) : outcome unit :=
  if negb cond then Raise GuardException else Ok tt.

(** [guard(func, *args)]: run [func], turn a [GuardException] into [None]. *)
Definition guard {A B} (func : A -> outcome B) (args : A) : outcome (option B) :=
  match func args with
  | Ok b => Ok (Some b)
  | Raise GuardException => Ok None
  | Raise e => Raise e
  end.

(** ** The IR data model (numba.ir) *)

Module ir.

(** Python constants held by [ir.Const]. *)
Inductive pyscalar : Type :=
| PInt (z : Z)
| PStr (s : string)
| PBool (b : bool)
| PNone.

Inductive pyval : Type :=
| Scalar (c : pyscalar)
| Tuple (items : list pyscalar).

(** The resolved value of an [ir.Global]: the objects the pass compares
    against, or any other object. *)
Inductive pyobj : Type :=
| np
| range
| prange
| unsafe_empty_inferred
| range_iter_len
| np_empty
| other_object (qualname : string).

(** A code object, as far as the pass reads it. *)
Record Code : Type := mkCode {
  co_name : string;
  co_argcount : nat;
  co_freevars : list string
}.

(** IR values that are not [ir.Expr]: they are what the fields of an
    expression hold. *)
Inductive Operand : Type :=
| Var (name : string)
| Const (value : pyval)
| Global (name : string) (value : pyobj)
| Arg (index : nat) (name : string)
| FreeVar (index : nat) (name : string).

(** The [defaults] field of a [make_function] expression: a Python tuple,
    a variable (or its name), or any other object. *)
Inductive Defaults : Type :=
| defaults_tuple (items : list Operand)
| defaults_name (name : string)
| defaults_other (c : pyscalar).

(** [ir.Expr], by its [op]. *)
Inductive Expr : Type :=
| call (func : string) (args : list Operand) (kws : list (string * Operand))
| getattr (value : Operand) (attr : string)
| build_tuple (items : list Operand)
| build_list (items : list Operand)
| make_function (code : Code) (closure : option string) (defaults : Defaults)
| binop (fn : string) (lhs rhs : Operand)
| getiter (value : Operand)
| iternext (value : Operand)
| pair_first (value : Operand)
| pair_second (value : Operand)
| cast (value : Operand)
| getitem (value index : Operand).

(** The right-hand side of an assignment and the entries of the
    definitions table. *)
Inductive Value : Type :=
| atom (o : Operand)
| expr (e : Expr).

(** Statements.  A variable in target position is given by its name. *)
Inductive Stmt : Type :=
| Assign (value : Value) (target : string)
| Jump (target : Z)
| Branch (cond : string) (truebr falsebr : Z)
| Return (value : string)
| Del (value : string)
| SetItem (target : string) (index : string) (value : Operand).

(** A block: the scope object it points to (by identity) and its body. *)
Record Block : Type := mkBlock {
  scope : nat;
  body : list Stmt
}.

(** [func_ir.blocks] and [func_ir._definitions]: dicts, in insertion order. *)
Record FunctionIR : Type := mkFunctionIR {
  blocks : list (Z * Block);
  _definitions : list (string * list Value)
}.

End ir.

Import ir.
Coercion atom : Operand >-> Value.
Coercion expr : Expr >-> Value.

(** Structural equality of IR values and statements.  The classes of
    numba.ir define no [__eq__], so [==] on two IR objects is Python's
    identity test: structure alone does not decide it.  Where the source
    compares objects it has found through the definitions table, the model
    compares the places that hold them ([same_object] and [holds_object]
    below); structural equality serves to find, among the statements of a
    block, the statement that was taken from that block. *)
Definition pyscalar_eq_dec (a b : pyscalar) : {a = b} + {a <> b}.
Proof. decide equality; auto using Z.eq_dec, string_dec, bool_dec. Defined.

Definition pyval_eq_dec (a b : pyval) : {a = b} + {a <> b}.
Proof. decide equality; auto using pyscalar_eq_dec, list_eq_dec. Defined.

Definition pyobj_eq_dec (a b : pyobj) : {a = b} + {a <> b}.
Proof. decide equality; auto using string_dec. Defined.

Definition Operand_eq_dec (a b : Operand) : {a = b} + {a <> b}.
Proof.
  decide equality;
    auto using string_dec, pyval_eq_dec, pyobj_eq_dec, Nat.eq_dec.
Defined.

Definition Code_eq_dec (a b : Code) : {a = b} + {a <> b}.
Proof. decide equality; auto using string_dec, Nat.eq_dec, list_eq_dec. Defined.

Definition Defaults_eq_dec (a b : Defaults) : {a = b} + {a <> b}.
Proof.
  decide equality;
    auto using string_dec, pyscalar_eq_dec, list_eq_dec, Operand_eq_dec.
Defined.

Definition kw_eq_dec (a b : string * Operand) : {a = b} + {a <> b}.
Proof. decide equality; auto using string_dec, Operand_eq_dec. Defined.

Definition Expr_eq_dec (a b : Expr) : {a = b} + {a <> b}.
Proof.
  decide equality;
    auto using string_dec, list_eq_dec, Operand_eq_dec, kw_eq_dec,
               Code_eq_dec, Defaults_eq_dec.
  decide equality; auto using string_dec.
Defined.

Definition Value_eq_dec (a b : Value) : {a = b} + {a <> b}.
Proof. decide equality; auto using Operand_eq_dec, Expr_eq_dec. Defined.

Definition Stmt_eq_dec (a b : Stmt) : {a = b} + {a <> b}.
Proof.
  decide equality;
    auto using string_dec, Z.eq_dec, Value_eq_dec, Operand_eq_dec.
Defined.

Definition Value_eqb (a b : Value) : bool :=
  if Value_eq_dec a b then true else false.

Definition Stmt_eqb (a b : Stmt) : bool :=
  if Stmt_eq_dec a b then true else false.

(** ** Python dicts and sets *)

Section Dict.
Context {K V : Type} (eq_dec : forall a b : K, {a = b} + {a <> b}).

(** [d[k]], [None] standing for the missing key. *)
Fixpoint dict_get (d : list (K * V)) (k : K) : option V :=
  match d with
  | [] => None
  | (k', v) :: d' => if eq_dec k k' then Some v else dict_get d' k
  end.

(** [d[k] = v]: the entry is overwritten in place, or added at the end. *)
Fixpoint dict_set (d : list (K * V)) (k : K) (v : V) : list (K * V) :=
  match d with
  | [] => [(k, v)]
  | (k', v') :: d' =>
      if eq_dec k k' then (k, v) :: d' else (k', v') :: dict_set d' k v
  end.

Definition dict_keys (d : list (K * V)) : list K := map fst d.

Definition dict_mem (d : list (K * V)) (k : K) : bool :=
  if in_dec eq_dec k (dict_keys d) then true else false.
End Dict.

(** A Python set of labels is a list read up to order and repetition. *)
Definition set_elems (s : list Z) : list Z := nodup Z.eq_dec s.

Definition set_len (s : list Z) : nat := List.length (set_elems s).

Definition set_mem (x : Z) (s : list Z) : bool :=
  if in_dec Z.eq_dec x s then true else false.

Definition set_eqb (s t : list Z) : bool :=
  forallb (fun x => set_mem x t) s && forallb (fun x => set_mem x s) t.

(** ** Blocks and definitions *)

Definition mem_string (x : string) (l : list string) : bool :=
  if in_dec string_dec x l then true else false.

(** [block.find_insts(ir.Assign)] *)
Definition is_Assign (stmt : Stmt) : bool :=
  match stmt with Assign _ _ => true | _ => false end.

Definition find_insts_Assign (block : Block) : list Stmt :=
  filter is_Assign (body block).

(** [block.terminator], that is [block.body[-1]]. *)
Definition terminator (block : Block) : outcome Stmt :=
  match rev (body block) with
  | [] => Raise IndexError
  | t :: _ => Ok t
  end.

(** [func_ir.blocks[label]] *)
Definition get_block (func_ir : FunctionIR) (label : Z) : outcome Block :=
  match dict_get Z.eq_dec (blocks func_ir) label with
  | Some b => Ok b
  | None => Raise KeyError
  end.

(** Modelled from the spec: [FunctionIR.get_definition] of numba.ir is not in
    the source given.  The definitions table maps a variable name to the list
    of its right-hand sides; the single-definition lookup follows copies
    [x = y] from variable to variable and raises [KeyError] on a name with no
    or with several definitions.  A chain of copies that comes back to a name
    it has left never ends: more steps than the table has entries mean such a
    chain, and the outcome is [Hang]. *)
Fixpoint get_definition_loop (fuel : nat) (defs : list (string * list Value))
         (value : Operand) : outcome Value :=
  match value with
  | Var name =>
      match fuel with
      | O => Raise Hang
      | S fuel' =>
          match dict_get string_dec defs name with
          | Some [atom o] => get_definition_loop fuel' defs o
          | Some [d] => Ok d
          | _ => Raise KeyError
          end
      end
  | _ => Ok (atom value)
  end.

Definition get_definition (func_ir : FunctionIR) (value : Operand)
  : outcome Value :=
  get_definition_loop (S (List.length (_definitions func_ir)))
                      (_definitions func_ir) value.

(** The same lookup with [lhs_only=True]: the last variable of the chain of
    copies is returned instead of its definition. *)
Fixpoint get_definition_lhs_loop (fuel : nat)
         (defs : list (string * list Value)) (value : Operand)
  : outcome Operand :=
  match value with
  | Var name =>
      match fuel with
      | O => Raise Hang
      | S fuel' =>
          match dict_get string_dec defs name with
          | Some [atom (Var name')] =>
              get_definition_lhs_loop fuel' defs (Var name')
          | Some [_] => Ok (Var name)
          | _ => Raise KeyError
          end
      end
  | _ => Ok value
  end.

Definition get_definition_lhs_only (func_ir : FunctionIR) (value : Operand)
  : outcome Operand :=
  get_definition_lhs_loop (S (List.length (_definitions func_ir)))
                          (_definitions func_ir) value.

(** [_get_definition] (lines 328-336): [KeyError] becomes [GuardException]. *)
Definition KeyError_to_GuardException {A} (r : outcome A) : outcome A :=
  match r with
  | Raise KeyError => Raise GuardException
  | _ => r
  end.

Definition _get_definition (func_ir : FunctionIR) (name : Operand)
  : outcome Value :=
  KeyError_to_GuardException (get_definition func_ir name).

Definition _get_definition_lhs_only (func_ir : FunctionIR) (name : Operand)
  : outcome Operand :=
  KeyError_to_GuardException (get_definition_lhs_only func_ir name).

(** ** Objects and their identity *)

(** An object that a lookup in the definitions table returns is the
    right-hand side of the assignment that defines the last variable of the
    chain of copies: the table and the statement share it.  That variable,
    the holder, names the object, and two lookups return the same object
    exactly when they end at the same holder.  An operand that is no
    variable is returned by the lookup as it is; the expression it stands in
    holds it, no assignment does.  (The pass gives an object a second
    holder in one place, line 592, where the module of a [dtype] keyword is
    assigned to a new variable; no list display is stored that way by a
    well-formed call, and the model keeps one holder per object.) *)
Record Object : Type := mkObject {
  obj_holder : option string;
  obj_value : Value
}.

Definition holder_of (func_ir : FunctionIR) (name : Operand)
  : option string :=
  match get_definition_lhs_only func_ir name with
  | Ok (Var h) => Some h
  | _ => None
  end.

(** [_get_definition(func_ir, name)]: the value found, as the object it
    is. *)
Definition _get_definition_object (func_ir : FunctionIR) (name : Operand)
  : outcome Object :=
  (value <- _get_definition func_ir name ;;
   Ok (mkObject (holder_of func_ir name) value))%py.

(** [a == b] for two objects returned by lookups, of which one at least was
    found in the table. *)
Definition same_object (a b : Object) : bool :=
  match obj_holder a, obj_holder b with
  | Some h, Some h' => if string_dec h h' then true else false
  | _, _ => false
  end.

(** [stmt.value == o] for the assignment [target = value]: the statement
    holds the object [o] when it is the assignment that defines the holder
    of [o]. *)
Definition holds_object (value : Value) (target : string) (o : Object)
  : bool :=
  match obj_holder o with
  | Some h =>
      (if string_dec target h then true else false)
      && Value_eqb value (obj_value o)
  | None => false
  end.

(** ** Pattern matchers of the loop-to-array rewrite *)

Open Scope py_scope.

Definition is_Var (o : Operand) : bool :=
  match o with Var _ => true | _ => false end.

(** [_find_numpy_call] (lines 387-399) *)
Definition _find_numpy_call (func_ir : FunctionIR) (e : Value)
  : outcome string :=
  match e with
  | expr (call callee _ _) =>
      callee_def <- _get_definition func_ir (Var callee) ;;
      match callee_def with
      | expr (getattr module attr) =>
          module_def <- _get_definition func_ir module ;;
          require (match module_def with
                   | atom (Global _ value) =>
                       if pyobj_eq_dec value np then true else false
                   | _ => false
                   end) ;;;
          Ok attr
      | _ => Raise GuardException
      end
  | _ => Raise GuardException
  end.

(** [_find_unsafe_empty_inferred] (lines 666-673) *)
Definition _find_unsafe_empty_inferred (func_ir : FunctionIR) (e : Value)
  : outcome bool :=
  match e with
  | expr (call callee _ _) =>
      callee_def <- _get_definition func_ir (Var callee) ;;
      match callee_def with
      | atom (Global _ value) =>
          Ok (if pyobj_eq_dec value unsafe_empty_inferred then true else false)
      | _ => Raise GuardException
      end
  | _ => Raise GuardException
  end.

(** What the scan of [_find_arraycall] has found so far: the Python
    variables [list_var], [array_var], [array_stmt_index] and [array_kws],
    which are always assigned together. *)
Record arraycall_found : Type := mkFound {
  list_var : string;
  array_var : string;
  array_stmt_index : nat;
  array_kws : list (string * Operand)
}.

(** The [while] loop of [_find_arraycall] (lines 349-381) from statement [i]
    on; the boolean is [list_var_dead_after_array_call]. *)
Fixpoint _find_arraycall_scan (func_ir : FunctionIR) (rest : list Stmt)
         (i : nat) (found : option arraycall_found)
  : outcome (option arraycall_found * bool) :=
  match rest with
  | [] => Ok (found, false)
  | instr :: rest' =>
      match instr with
      | Del value =>
          match found with
          | Some f =>
              if string_dec value (list_var f) then Ok (found, true)
              else _find_arraycall_scan func_ir rest' (S i) found
          | None => _find_arraycall_scan func_ir rest' (S i) found
          end
      | Assign e lhs =>
          name <- guard (_find_numpy_call func_ir) e ;;
          match name, e with
          | Some attr, expr (call _ args kws) =>
              if string_dec attr "array" then
                match args with
                | [] => Raise IndexError
                | Var y :: _ =>
                    _find_arraycall_scan func_ir rest' (S i)
                      (Some (mkFound y lhs i kws))
                | _ :: _ => _find_arraycall_scan func_ir rest' (S i) found
                end
              else _find_arraycall_scan func_ir rest' (S i) found
          | _, _ => _find_arraycall_scan func_ir rest' (S i) found
          end
      | SetItem target index value =>
          match value, found with
          | Var y, None =>
              array_def <- _get_definition func_ir (Var target) ;;
              inferred <- guard (_find_unsafe_empty_inferred func_ir)
                                array_def ;;
              require (match inferred with Some b => b | None => false end) ;;;
              _find_arraycall_scan func_ir rest' (S i)
                (Some (mkFound y target i []))
          | _, _ => Ok (found, false)
          end
      | _ => Ok (found, false)
      end
  end.

(** [_find_arraycall] (lines 338-385) *)
Definition _find_arraycall (func_ir : FunctionIR) (block : Block)
  : outcome (string * nat * list (string * Operand)) :=
  '(found, list_var_dead_after_array_call) <-
     _find_arraycall_scan func_ir (body block) 0 None ;;
  match found with
  | Some f =>
      require list_var_dead_after_array_call ;;;
      Ok (list_var f, array_stmt_index f, array_kws f)
  | None => Raise GuardException
  end.

Inductive range_start : Type :=
| literal_0
| start_var (v : Operand).

(** [_find_iter_range] (lines 401-426).  The start of the range is the
    Python integer [0] for [range(n)] and a variable for [range(m, n)]; the
    variable that names the [range] global is returned with its definition,
    as the place where the object of that definition is held. *)
Definition _find_iter_range (func_ir : FunctionIR) (range_iter_var : Operand)
  : outcome (range_start * Operand * (string * Value)) :=
  range_iter_def <- _get_definition func_ir range_iter_var ;;
  match range_iter_def with
  | expr (getiter range_var) =>
      range_def <- _get_definition func_ir range_var ;;
      match range_def with
      | expr (call func_var args _) =>
          func_def <- _get_definition func_ir (Var func_var) ;;
          require (match func_def with
                   | atom (Global _ value) =>
                       if pyobj_eq_dec value range then true else false
                   | _ => false
                   end) ;;;
          match args with
          | [a0] =>
              stop <- _get_definition_lhs_only func_ir a0 ;;
              Ok (literal_0, a0, (func_var, func_def))
          | [a0; a1] =>
              start <- _get_definition_lhs_only func_ir a0 ;;
              stop <- _get_definition_lhs_only func_ir a1 ;;
              Ok (start_var start, stop, (func_var, func_def))
          | _ => Raise GuardException
          end
      | _ => Raise GuardException
      end
  | _ => Raise GuardException
  end.

(** ** Control-flow graph (numba.analysis, consumed read-only) *)

Module analysis.

Record Loop : Type := mkLoop {
  entries : list Z;
  exits : list Z;
  header : Z;
  body : list Z
}.

(** [cfg.predecessors(label)] (labels only), [cfg.in_loops(label)] and
    [cfg.loops()], a dict from header to loop. *)
Record CFGraph : Type := mkCFGraph {
  predecessors : Z -> list Z;
  in_loops : Z -> list Loop;
  loops : list (Z * Loop)
}.

End analysis.

(** ** The mutable state of a pass *)

Record State : Type := mkState {
  self_func_ir : FunctionIR;               (* [self.func_ir], mutated in place *)
  localvars : list (nat * list string);    (* the scope objects, by identity *)
  _max_label : Z;                          (* [ir_utils._max_label] *)
  _unique_var_count : nat                  (* [ir_utils._unique_var_count] *)
}.

Definition M (A : Type) : Type := State -> outcome A * State.

Definition ret {A} (a : A) : M A := fun s => (Ok a, s).

Definition bindM {A B} (m : M A) (k : A -> M B) : M B :=
  fun s =>
    match m s with
    | (Ok a, s') => k a s'
    | (Raise e, s') => (Raise e, s')
    end.

Definition lift {A} (r : outcome A) : M A := fun s => (r, s).

Definition gets {A} (f : State -> A) : M A := fun s => (Ok (f s), s).

Definition modify (f : State -> State) : M unit := fun s => (Ok tt, f s).

Declare Scope M_scope.
Delimit Scope M_scope with M.
Bind Scope M_scope with M.
Notation "x <- m ;; k" := (bindM m (fun x => k))
  (at level 61, m at next level, right associativity) : M_scope.
Notation "' p <- m ;; k" := (bindM m (fun x => match x with p => k end))
  (at level 61, p pattern, m at next level, right associativity) : M_scope.
Notation "m ;;; k" := (bindM m (fun _ => k))
  (at level 61, right associativity) : M_scope.

(** [guard] around a function that mutates: what it has done before the
    guard signal stays done. *)
Definition guardM {A} (m : M A) : M (option A) :=
  fun s =>
    match m s with
    | (Ok a, s') => (Ok (Some a), s')
    | (Raise GuardException, s') => (Ok None, s')
    | (Raise e, s') => (Raise e, s')
    end.

Definition set_func_ir (f : FunctionIR -> FunctionIR) : M unit :=
  modify (fun s => mkState (f (self_func_ir s)) (localvars s)
                           (_max_label s) (_unique_var_count s)).

(** [func_ir._definitions[name] = defs] *)
Definition set_definitions (name : string) (defs : list Value) : M unit :=
  set_func_ir (fun f =>
    mkFunctionIR (blocks f) (dict_set string_dec (_definitions f) name defs)).

(** [func_ir.blocks[label] = block] *)
Definition set_block (label : Z) (block : Block) : M unit :=
  set_func_ir (fun f =>
    mkFunctionIR (dict_set Z.eq_dec (blocks f) label block) (_definitions f)).

(** [block.body = stmts] for the block object held at [label]. *)
Definition set_body (label : Z) (stmts : list Stmt) : M unit :=
  (f <- gets self_func_ir ;;
   block <- lift (get_block f label) ;;
   set_block label (mkBlock (scope block) stmts))%M.

Definition decimal (n : nat) : string :=
  NilEmpty.string_of_uint (Nat.to_uint n).

Definition scope_vars (s : State) (sc : nat) : list string :=
  match dict_get Nat.eq_dec (localvars s) sc with
  | Some vars => vars
  | None => []
  end.

(** Modelled from the spec: [Scope.define] of numba.ir is not in the source
    given.  A scope is a set of uniquely-named variables: defining a name it
    already holds is a fatal redefinition error. *)
Definition define (sc : nat) (name : string) : M string :=
  fun s =>
    if mem_string name (scope_vars s sc) then (Raise RedefinedError, s)
    else (Ok name,
          mkState (self_func_ir s)
                  (dict_set Nat.eq_dec (localvars s) sc
                            (scope_vars s sc ++ [name]))
                  (_max_label s) (_unique_var_count s)).

(** Modelled from the spec: [Scope.make_temp] of numba.ir is not in the
    source given.  It defines a fresh temporary, named after the number of
    variables the scope holds. *)
Definition make_temp (sc : nat) : M string :=
  fun s => define sc ("$" ++ decimal (List.length (scope_vars s sc))) s.

(** [_new_definition] (lines 754-756) *)
Definition _new_definition (var : string) (value : Value) : M Stmt :=
  (set_definitions var [value] ;;;
   ret (Assign value var))%M.

(** ** The loop-to-array rewrite: matching (lines 440-543) *)

Fixpoint foldM {S X} (f : S -> X -> outcome S) (l : list X) (s : S)
  : outcome S :=
  match l with
  | [] => Ok s
  | x :: l' => s' <- f s x ;; foldM f l' s'
  end.

(** [array_kws['dtype']] for [array_kws = dict(expr.kws)]: of several
    entries with one key the last is kept. *)
Definition kws_get (kws : list (string * Operand)) (k : string)
  : option Operand :=
  dict_get string_dec (rev kws) k.

(** The inner loop of lines 475-486 on one assignment of a body block:
    [acc] holds [list_append_stmts] and the Python variable [list_def],
    which keeps the value of its last assignment.  Line 484 compares the
    two objects [list_def] and [list_var_def] by identity. *)
Definition check_append (func_ir : FunctionIR) (list_var_def : Object)
           (label : Z) (acc : list (Z * Stmt) * option Object) (stmt : Stmt)
  : outcome (list (Z * Stmt) * option Object) :=
  match stmt with
  | Assign (expr (call func _ _)) lhs =>
      func_def <- _get_definition func_ir (Var func) ;;
      match func_def with
      | expr (getattr value attr) =>
          if string_dec attr "append" then
            list_def <- _get_definition_object func_ir value ;;
            if same_object list_def list_var_def
            then Ok (fst acc ++ [(label, stmt)], Some list_def)
            else Ok (fst acc, Some list_def)
          else Ok acc
      | _ => Ok acc
      end
  | _ => Ok acc
  end.

(** The loop of lines 467-486 on one label of [loop.body]. *)
Definition check_body_block (func_ir : FunctionIR) (cfg : analysis.CFGraph)
           (visited : list Z) (list_var_def : Object)
           (acc : list (Z * Stmt) * option Object) (label : Z)
  : outcome (list (Z * Stmt) * option Object) :=
  if negb (forallb (fun l => set_mem (analysis.header l) visited)
                   (analysis.in_loops cfg label))
  then Ok acc
  else
    block <- get_block func_ir label ;;
    foldM (check_append func_ir list_var_def label)
          (find_insts_Assign block) acc.

(** The loop of lines 505-513 on one assignment of the loop header. *)
Definition check_header_stmt (func_ir : FunctionIR)
           (acc : list Operand * list string) (stmt : Stmt)
  : outcome (list Operand * list string) :=
  match stmt with
  | Assign (expr (iternext value)) _ =>
      iter_def <- _get_definition func_ir value ;;
      Ok (fst acc ++ [value], snd acc)
  | Assign (expr (pair_first _)) target =>
      Ok (fst acc, snd acc ++ [target])
  | _ => Ok acc
  end.

(** [is_removed] (lines 530-535) *)
Definition is_removed (val : Value) (removed : list string) : bool :=
  match val with
  | atom (Var name) => mem_string name removed
  | _ => false
  end.

(** The loop of lines 537-542 on one statement of the loop entry: [acc]
    holds [stmts] and [removed].  Line 539 compares [stmt.value] with the
    object [list_def] by identity. *)
Definition split_entry_stmt (list_def : option Object)
           (acc : list Stmt * list string) (stmt : Stmt)
  : outcome (list Stmt * list string) :=
  match stmt with
  | Assign value target =>
      match list_def with
      | None => Raise UnboundLocalError
      | Some d =>
          if holds_object value target d || is_removed value (snd acc)
          then Ok (fst acc, snd acc ++ [target])
          else Ok (fst acc ++ [stmt], snd acc)
      end
  | _ => Ok (fst acc ++ [stmt], snd acc)
  end.

(** What the matching part of [_inline_arraycall] hands to the rewriting
    part: its local variables. *)
Record arraycall_match : Type := mkMatch {
  m_exit_block : Z;
  m_array_call_index : nat;
  m_dtype : option (string * Value);  (* [dtype_def.attr], [dtype_mod_def] *)
  m_append_block_label : Z;
  m_append_stmt : Stmt;
  m_iter_var : Operand;
  m_iter_first_var : string;
  m_loop_entry : Z;
  m_terminator : Stmt;
  m_scope : nat;
  m_stmts : list Stmt;
  m_removed : list string
}.

(** Lines 446-455: the [dtype] keyword of the array call. *)
Definition find_dtype (func_ir : FunctionIR)
           (array_kws : list (string * Operand))
  : outcome (option (string * Value)) :=
  match kws_get array_kws "dtype" with
  | None => Ok None
  | Some dtype =>
      require (is_Var dtype) ;;;
      dtype_def <- _get_definition func_ir dtype ;;
      match dtype_def with
      | expr (getattr value attr) =>
          dtype_mod_def <- _get_definition func_ir value ;;
          Ok (Some (attr, dtype_mod_def))
      | _ => Raise GuardException
      end
  end.

(** [_inline_arraycall], lines 440-543: every condition of the rewrite. *)
Definition _inline_arraycall_match (func_ir : FunctionIR)
           (cfg : analysis.CFGraph) (visited : list Z) (loop : analysis.Loop)
  : outcome arraycall_match :=
  require (set_len (analysis.exits loop) =? 1)%nat ;;;
  let exit_block := hd 0%Z (set_elems (analysis.exits loop)) in
  exit_blk <- get_block func_ir exit_block ;;
  '(list_var, array_call_index, array_kws) <-
     _find_arraycall func_ir exit_blk ;;
  dtype <- find_dtype func_ir array_kws ;;
  list_var_def <- _get_definition_object func_ir (Var list_var) ;;
  list_var_def <- match obj_value list_var_def with
                  | expr (cast value) => _get_definition_object func_ir value
                  | _ => Ok list_var_def
                  end ;;
  require (match obj_value list_var_def with
           | expr (build_list _) => true
           | _ => false
           end) ;;;
  '(list_append_stmts, list_def) <-
     foldM (check_body_block func_ir cfg visited list_var_def)
           (set_elems (analysis.body loop)) ([], None) ;;
  match list_append_stmts with
  | [(append_block_label, append_stmt)] =>
      require (set_eqb (analysis.predecessors cfg (analysis.header loop))
                       (analysis.entries loop ++ [append_block_label])) ;;;
      loop_header <- get_block func_ir (analysis.header loop) ;;
      '(iter_vars, iter_first_vars) <-
         foldM (check_header_stmt func_ir)
               (find_insts_Assign loop_header) ([], []) ;;
      match iter_vars, iter_first_vars with
      | [iter_var], [iter_first_var] =>
          require (set_len (analysis.entries loop) =? 1)%nat ;;;
          let entry := hd 0%Z (set_elems (analysis.entries loop)) in
          loop_entry <- get_block func_ir entry ;;
          term <- terminator loop_entry ;;
          '(stmts, removed) <-
             foldM (split_entry_stmt list_def)
                   (removelast (ir.body loop_entry)) ([], []) ;;
          Ok (mkMatch exit_block array_call_index dtype
                      append_block_label append_stmt iter_var iter_first_var
                      entry term (scope loop_entry) stmts removed)
      | _, _ => Raise GuardException
      end
  | _ => Raise GuardException
  end.

(** ** The loop-to-array rewrite: rewriting (lines 545-663) *)

(** [body[i] = stmt] *)
Fixpoint list_set {A} (l : list A) (i : nat) (x : A) : list A :=
  match l, i with
  | [], _ => []
  | _ :: l', O => x :: l'
  | y :: l', S i' => y :: list_set l' i' x
  end.

(** An object of the IR that is updated in place is the one held by the
    assignment that defines [holder]: the statement and the entry of the
    definitions table share it. *)
Definition retarget_stmt (holder : string) (old new : Value) (stmt : Stmt)
  : Stmt :=
  match stmt with
  | Assign v t =>
      if string_dec t holder then
        if Value_eqb v old then Assign new t else stmt
      else stmt
  | _ => stmt
  end.

Definition retarget_object (holder : string) (old new : Value)
           (f : FunctionIR) : FunctionIR :=
  mkFunctionIR
    (map (fun lb => (fst lb,
                     mkBlock (scope (snd lb))
                             (map (retarget_stmt holder old new)
                                  (ir.body (snd lb)))))
         (blocks f))
    (dict_set string_dec (_definitions f) holder [new]).

(** Lines 568-570: [range_func_def.name = 'prange'] and
    [range_func_def.value = prange], on the object that [func_var] resolves
    to.  The statements of the loop entry already copied to the local list
    [stmts] are the same objects, and change with it. *)
Definition mark_prange (func_var : string) (range_func_def : Value)
           (stmts : list Stmt) : M (list Stmt) :=
  (f <- gets self_func_ir ;;
   match range_func_def, get_definition_lhs_only f (Var func_var) with
   | atom (Global _ _), Ok (Var holder) =>
       let upd := retarget_object holder range_func_def
                                  (Global "prange" prange) in
       set_func_ir upd ;;;
       ret (map (retarget_stmt holder range_func_def
                               (Global "prange" prange)) stmts)
   | _, _ => ret stmts
   end)%M.

(** Lines 609-610: [for var in removed: stmts.append(...)] *)
Fixpoint rebind_removed (removed : list string) (array_var : string)
         (stmts : list Stmt) : M (list Stmt) :=
  match removed with
  | [] => ret stmts
  | var :: removed' =>
      (st <- _new_definition var (Var array_var) ;;
       rebind_removed removed' array_var (stmts ++ [st]))%M
  end.

(** Lines 650-654: the append call becomes an indexed store. *)
Fixpoint replace_append (append_stmt : Stmt) (array_var index_var : string)
         (stmts : list Stmt) : outcome (list Stmt) :=
  match stmts with
  | [] => Ok []
  | stmt :: stmts' =>
      if Stmt_eqb stmt append_stmt then
        match append_stmt with
        | Assign (expr (call _ (arg0 :: _) _)) _ =>
            rest <- replace_append append_stmt array_var index_var stmts' ;;
            Ok (SetItem array_var index_var arg0 :: rest)
        | _ => Raise IndexError
        end
      else
        rest <- replace_append append_stmt array_var index_var stmts' ;;
        Ok (stmt :: rest)
  end.

(** Lines 545-556: the variable that indexes the array. *)
Definition choose_index_var
           (range_def : option (range_start * Operand * (string * Value)))
           (iter_first_var : string) (sc : nat) (stmts : list Stmt)
  : M (string * list Stmt) :=
  (index_var <- make_temp sc ;;
   match range_def with
   | Some (literal_0, _, _) => ret (iter_first_var, stmts)
   | _ =>
       st <- _new_definition index_var (Const (Scalar (PInt (-1)))) ;;
       ret (index_var, stmts ++ [st])
   end)%M.

(** Lines 558-578: the size of the loop iterator. *)
Definition choose_size
           (range_def : option (range_start * Operand * (string * Value)))
           (iter_var : Operand) (enable_prange : bool) (sc : nat)
           (stmts : list Stmt) : M (string * list Stmt) :=
  (size_var <- make_temp sc ;;
   '(size_val, stmts) <-
      match range_def with
      | Some (start, stop, (func_var, range_func_def)) =>
          let size_val : Value :=
            match start with
            | literal_0 => atom stop
            | start_var v => expr (binop "-" stop v)
            end in
          stmts <- (if enable_prange
                    then mark_prange func_var range_func_def stmts
                    else ret stmts) ;;
          ret (size_val, stmts)
      | None =>
          len_func_var <- make_temp sc ;;
          st <- _new_definition len_func_var
                  (Global "range_iter_len" range_iter_len) ;;
          ret (expr (call len_func_var [iter_var] []), stmts ++ [st])
      end ;;
   st <- _new_definition size_var size_val ;;
   ret (size_var, stmts ++ [st]))%M.

(** Lines 580-606: the allocation of the array. *)
Definition allocate_array (dtype : option (string * Value))
           (size_var : string) (sc : nat) (stmts : list Stmt)
  : M (string * list Stmt) :=
  (size_tuple_var <- make_temp sc ;;
   st_tuple <- _new_definition size_tuple_var (build_tuple [Var size_var]) ;;
   let stmts := stmts ++ [st_tuple] in
   array_var <- make_temp sc ;;
   array_var <- make_temp sc ;;
   empty_func <- make_temp sc ;;
   '(array_kws, stmts) <-
      match dtype with
      | Some (attr, dtype_mod_def) =>
          dtype_mod_var <- make_temp sc ;;
          dtype_var <- make_temp sc ;;
          st1 <- _new_definition dtype_mod_var dtype_mod_def ;;
          st2 <- _new_definition dtype_var (getattr (Var dtype_mod_var) attr) ;;
          st3 <- _new_definition empty_func (Global "empty" np_empty) ;;
          ret ([("dtype"%string, Var dtype_var)], stmts ++ [st1; st2; st3])
      | None =>
          st <- _new_definition empty_func
                  (Global "unsafe_empty_inferred" unsafe_empty_inferred) ;;
          ret ([], stmts ++ [st])
      end ;;
   st <- _new_definition array_var
           (call empty_func [Var size_tuple_var] array_kws) ;;
   ret (array_var, stmts ++ [st]))%M.

(** Lines 617-647: the index inside the loop. *)
Definition update_index
           (range_def : option (range_start * Operand * (string * Value)))
           (loop : analysis.Loop) (iter_first_var index_var : string)
           (sc : nat) : M unit :=
  (match range_def with
   | Some (literal_0, _, _) => ret tt
   | Some (start_var start, _, _) =>
       f <- gets self_func_ir ;;
       loop_header <- lift (get_block f (analysis.header loop)) ;;
       term <- lift (terminator loop_header) ;;
       match term with
       | Branch _ block_id _ =>
           blk <- lift (get_block f block_id) ;;
           st <- _new_definition index_var
                   (binop "-" (Var iter_first_var) start) ;;
           set_body block_id (st :: ir.body blk)
       | _ => lift (Raise AssertionError)
       end
   | None =>
       f <- gets self_func_ir ;;
       loop_header <- lift (get_block f (analysis.header loop)) ;;
       term <- lift (terminator loop_header) ;;
       let stmts := removelast (ir.body loop_header) in
       next_index_var <- make_temp sc ;;
       one <- make_temp sc ;;
       st1 <- _new_definition one (Const (Scalar (PInt 1))) ;;
       st2 <- _new_definition next_index_var
                (binop "+" (Var index_var) (Var one)) ;;
       st3 <- _new_definition index_var (Var next_index_var) ;;
       set_body (analysis.header loop) (stmts ++ [st1; st2; st3; term])
   end)%M.

(** Lines 656-661: the array call [a = array(b)] becomes [a = b]. *)
Definition replace_array_call (exit_block : Z) (array_call_index : nat)
           (array_var : string) : M unit :=
  (f <- gets self_func_ir ;;
   exit_blk <- lift (get_block f exit_block) ;;
   match nth_error (ir.body exit_blk) array_call_index with
   | None => lift (Raise IndexError)
   | Some (Assign (expr _) target) =>
       set_body exit_block
                (list_set (ir.body exit_blk) array_call_index
                          (Assign (Var array_var) target)) ;;;
       set_definitions target [atom (Var array_var)]
   | Some _ => ret tt
   end)%M.

(** [_inline_arraycall], lines 545-663: the rewrite itself. *)
Definition _inline_arraycall_rewrite (loop : analysis.Loop)
           (m : arraycall_match) (enable_prange : bool) : M bool :=
  (let sc := m_scope m in
   func_ir <- gets self_func_ir ;;
   range_def <- lift (guard (_find_iter_range func_ir) (m_iter_var m)) ;;
   '(index_var, stmts) <-
      choose_index_var range_def (m_iter_first_var m) sc (m_stmts m) ;;
   '(size_var, stmts) <-
      choose_size range_def (m_iter_var m) enable_prange sc stmts ;;
   '(array_var, stmts) <- allocate_array (m_dtype m) size_var sc stmts ;;
   stmts <- rebind_removed (m_removed m) array_var stmts ;;
   set_body (m_loop_entry m) (stmts ++ [m_terminator m]) ;;;
   update_index range_def loop (m_iter_first_var m) index_var sc ;;;
   f <- gets self_func_ir ;;
   append_block <- lift (get_block f (m_append_block_label m)) ;;
   new_body <- lift (replace_append (m_append_stmt m) array_var index_var
                                    (ir.body append_block)) ;;
   set_body (m_append_block_label m) new_body ;;;
   replace_array_call (m_exit_block m) (m_array_call_index m) array_var ;;;
   ret true)%M.

(** [_inline_arraycall] (lines 428-663) *)
Definition _inline_arraycall (cfg : analysis.CFGraph) (visited : list Z)
           (loop : analysis.Loop) (enable_prange : bool) : M bool :=
  (func_ir <- gets self_func_ir ;;
   m <- lift (_inline_arraycall_match func_ir cfg visited loop) ;;
   _inline_arraycall_rewrite loop m enable_prange)%M.

(** ** Helpers of the closure inlining (lines 243-305) *)

(** [mapM f l]: [f] on every element, up to the first exception. *)
Fixpoint mapM {X Y} (f : X -> outcome Y) (l : list X) : outcome (list Y) :=
  match l with
  | [] => Ok []
  | x :: l' => y <- f x ;; ys <- mapM f l' ;; Ok (y :: ys)
  end.

(** [for label, block in blocks.items()]: one update of the body of each
    block, in the order of the dict. *)
Definition for_each_block (f : list Stmt -> outcome (list Stmt))
           (blks : list (Z * Block)) : outcome (list (Z * Block)) :=
  mapM (fun lb : Z * Block =>
          stmts <- f (ir.body (snd lb)) ;;
          Ok (fst lb, mkBlock (scope (snd lb)) stmts))
       blks.

(** [_get_all_scopes] (lines 243-250) *)
Definition _get_all_scopes (blks : list (Z * Block)) : list nat :=
  fold_left (fun all_scopes lb =>
               if in_dec Nat.eq_dec (scope (snd lb)) all_scopes
               then all_scopes
               else all_scopes ++ [scope (snd lb)])
            blks [].

(** The body of the loop of [_replace_args_with] (lines 259-263). *)
Definition replace_arg (args : list Operand) (stmt : Stmt) : outcome Stmt :=
  match stmt with
  | Assign (atom (Arg idx _)) target =>
      match nth_error args idx with
      | Some a => Ok (Assign (atom a) target)
      | None => Raise AssertionError
      end
  | _ => Ok stmt
  end.

(** [_replace_args_with] (lines 253-263) *)
Definition _replace_args_with (blks : list (Z * Block)) (args : list Operand)
  : outcome (list (Z * Block)) :=
  for_each_block (mapM (replace_arg args)) blks.

Definition replace_freevar (args : list Operand) (stmt : Stmt)
  : outcome Stmt :=
  match stmt with
  | Assign (atom (FreeVar idx _)) target =>
      match nth_error args idx with
      | Some a => Ok (Assign (atom a) target)
      | None => Raise AssertionError
      end
  | _ => Ok stmt
  end.

(** [_replace_freevars] (lines 266-276) *)
Definition _replace_freevars (blks : list (Z * Block)) (args : list Operand)
  : outcome (list (Z * Block)) :=
  for_each_block (mapM (replace_freevar args)) blks.

(** Lines 292-294: [cast.value = cast.value.value] on a cast collected in
    [casts] whose target is the returned variable. *)
Definition collapse_cast (returned : string) (stmt : Stmt) : Stmt :=
  match stmt with
  | Assign (expr (cast value)) target =>
      if string_dec target returned then Assign (atom value) target else stmt
  | _ => stmt
  end.

(** The loop of lines 285-296 on one block: [seen] holds, last first, the
    statements already passed. *)
Fixpoint replace_returns_in (target : string) (return_label : Z)
         (seen rest : list Stmt) : outcome (list Stmt) :=
  match rest with
  | [] => Ok (rev seen)
  | Return value :: rest' =>
      match rest' with
      | [] =>
          Ok (map (collapse_cast value) (rev seen)
                ++ [Assign (atom (Var value)) target; Jump return_label])
      | _ :: _ => Raise AssertionError
      end
  | stmt :: rest' => replace_returns_in target return_label (stmt :: seen) rest'
  end.

(** [_replace_returns] (lines 279-296) *)
Definition _replace_returns (blks : list (Z * Block)) (target : string)
           (return_label : Z) : outcome (list (Z * Block)) :=
  for_each_block (replace_returns_in target return_label []) blks.

(** [definitions[name].append(value)] on a [defaultdict(list)] *)
Definition definitions_append (defs : list (string * list Value))
           (name : string) (value : Value) : list (string * list Value) :=
  match dict_get string_dec defs name with
  | Some l => dict_set string_dec defs name (l ++ [value])
  | None => dict_set string_dec defs name [value]
  end.

(** [_add_definitions] (lines 298-305) *)
Definition _add_definitions (block : Block) : M unit :=
  set_func_ir (fun f =>
    mkFunctionIR (blocks f)
      (fold_left (fun defs stmt =>
                    match stmt with
                    | Assign value target => definitions_append defs target value
                    | _ => defs
                    end)
                 (find_insts_Assign block) (_definitions f))).

(** ** Helpers of numba.ir_utils *)

Module ir_utils.

(** Modelled from the spec: [next_label] is not in the source given.  The
    process-wide label counter is advanced and returned. *)
Definition next_label : M Z :=
  fun s =>
    (Ok (_max_label s + 1)%Z,
     mkState (self_func_ir s) (localvars s) (_max_label s + 1)%Z
             (_unique_var_count s)).

Definition set_max_label (label : Z) : M unit :=
  modify (fun s => mkState (self_func_ir s) (localvars s) label
                           (_unique_var_count s)).

(** Modelled from the spec: [add_offset_to_labels] is not in the source
    given.  Every block is relabelled by adding the offset, and so are the
    targets of its jumps and branches. *)
Definition offset_stmt (offset : Z) (stmt : Stmt) : Stmt :=
  match stmt with
  | Jump target => Jump (target + offset)
  | Branch cond truebr falsebr =>
      Branch cond (truebr + offset) (falsebr + offset)
  | _ => stmt
  end.

Definition add_offset_to_labels (blks : list (Z * Block)) (offset : Z)
  : list (Z * Block) :=
  map (fun lb => ((fst lb + offset)%Z,
                  mkBlock (scope (snd lb))
                          (map (offset_stmt offset) (ir.body (snd lb)))))
      blks.

(** Modelled from the spec: [mk_unique_var] is not in the source given.  A
    fresh name is made from the prefix and a process-wide counter. *)
Definition mk_unique_var (prefix : string) : M string :=
  fun s =>
    (Ok (prefix ++ "." ++ decimal (_unique_var_count s))%string,
     mkState (self_func_ir s) (localvars s) (_max_label s)
             (S (_unique_var_count s))).

(** Modelled from the spec: [replace_vars] is not in the source given.  The
    variables named in [var_dict] are renamed throughout the blocks. *)
Definition rename (var_dict : list (string * string)) (name : string)
  : string :=
  match dict_get string_dec var_dict name with
  | Some name' => name'
  | None => name
  end.

Definition rename_operand (var_dict : list (string * string)) (o : Operand)
  : Operand :=
  match o with
  | Var name => Var (rename var_dict name)
  | _ => o
  end.

Definition rename_defaults (var_dict : list (string * string)) (d : Defaults)
  : Defaults :=
  match d with
  | defaults_tuple items => defaults_tuple (map (rename_operand var_dict) items)
  | defaults_name name => defaults_name (rename var_dict name)
  | defaults_other c => defaults_other c
  end.

Definition rename_expr (var_dict : list (string * string)) (e : Expr)
  : Expr :=
  let r := rename_operand var_dict in
  match e with
  | call func args kws =>
      call (rename var_dict func) (map r args)
           (map (fun kw => (fst kw, r (snd kw))) kws)
  | getattr value attr => getattr (r value) attr
  | build_tuple items => build_tuple (map r items)
  | build_list items => build_list (map r items)
  | make_function code closure defaults =>
      make_function code (option_map (rename var_dict) closure)
                    (rename_defaults var_dict defaults)
  | binop fn lhs rhs => binop fn (r lhs) (r rhs)
  | getiter value => getiter (r value)
  | iternext value => iternext (r value)
  | pair_first value => pair_first (r value)
  | pair_second value => pair_second (r value)
  | cast value => cast (r value)
  | getitem value index => getitem (r value) (r index)
  end.

Definition rename_value (var_dict : list (string * string)) (v : Value)
  : Value :=
  match v with
  | atom o => atom (rename_operand var_dict o)
  | expr e => expr (rename_expr var_dict e)
  end.

Definition rename_stmt (var_dict : list (string * string)) (stmt : Stmt)
  : Stmt :=
  let n := rename var_dict in
  match stmt with
  | Assign value target => Assign (rename_value var_dict value) (n target)
  | Jump target => Jump target
  | Branch cond truebr falsebr => Branch (n cond) truebr falsebr
  | Return value => Return (n value)
  | Del value => Del (n value)
  | SetItem target index value =>
      SetItem (n target) (n index) (rename_operand var_dict value)
  end.

Definition replace_vars (blks : list (Z * Block))
           (var_dict : list (string * string)) : list (Z * Block) :=
  map (fun lb => (fst lb,
                  mkBlock (scope (snd lb))
                          (map (rename_stmt var_dict) (ir.body (snd lb)))))
      blks.

End ir_utils.

(** ** The pass (lines 26-230) *)

(** [max(d.keys())] and [min(d.keys())] *)
Definition python_max (l : list Z) : outcome Z :=
  match l with
  | [] => Raise ValueError
  | x :: l' => Ok (fold_left Z.max l' x)
  end.

Definition python_min (l : list Z) : outcome Z :=
  match l with
  | [] => Raise ValueError
  | x :: l' => Ok (fold_left Z.min l' x)
  end.

(** Truth value of [callee.defaults]; [defaults_other] holds an object that
    is no tuple, variable or name. *)
Definition py_truthy (c : pyscalar) : bool :=
  match c with
  | PInt z => negb (z =? 0)%Z
  | PStr s => negb (String.eqb s "")
  | PBool b => b
  | PNone => false
  end.

Definition defaults_truthy (d : Defaults) : bool :=
  match d with
  | defaults_tuple [] => false
  | defaults_tuple (_ :: _) => true
  | defaults_name _ => true
  | defaults_other c => py_truthy c
  end.

(** [for v in defaults.value] *)
Definition iterate_const (v : pyval) : outcome (list pyscalar) :=
  match v with
  | Tuple items => Ok items
  | Scalar (PStr s) =>
      Ok (map (fun c => PStr (String c EmptyString)) (list_ascii_of_string s))
  | Scalar _ => Raise TypeError
  end.

(** Lines 131-144: the actual arguments, defaults appended.  On the last
    branch the message of the [NotImplementedError] formats the local
    [defaults], which that path never assigns: what is raised is an
    [UnboundLocalError]. *)
Definition callee_args (func_ir : FunctionIR) (call_args : list Operand)
           (defaults : Defaults) : outcome (list Operand) :=
  if defaults_truthy defaults then
    match defaults with
    | defaults_tuple items => Ok (call_args ++ items)
    | defaults_name name =>
        d <- get_definition func_ir (Var name) ;;
        match d with
        | atom (Const value) =>
            vs <- iterate_const value ;;
            Ok (call_args ++ map (fun v => Const (Scalar v)) vs)
        | _ => Raise AssertionError
        end
    | defaults_other _ => Raise UnboundLocalError
    end
  else Ok call_args.

(** Lines 120-124: a new variable of the caller for every local variable of
    the callee that is no free variable. *)
Fixpoint make_var_dict (sc : nat) (co_freevars : list string)
         (names : list string) (var_dict : list (string * string))
  : M (list (string * string)) :=
  match names with
  | [] => ret var_dict
  | name :: names' =>
      if mem_string name co_freevars
      then make_var_dict sc co_freevars names' var_dict
      else
        (unique <- ir_utils.mk_unique_var name ;;
         new_var <- define sc unique ;;
         make_var_dict sc co_freevars names'
                       (dict_set string_dec var_dict name new_var))%M
  end.

(** Lines 149-158: free variables replaced by the variables of the closure. *)
Definition replace_closure (func_ir : FunctionIR) (code : Code)
           (closure : option string) (callee_blocks : list (Z * Block))
  : outcome (list (Z * Block)) :=
  match closure with
  | None => Ok callee_blocks
  | Some c =>
      closure_def <- get_definition func_ir (Var c) ;;
      match closure_def with
      | expr (build_tuple items) =>
          if (List.length (co_freevars code) =? List.length items)%nat
          then _replace_freevars callee_blocks items
          else Raise AssertionError
      | _ => Raise AssertionError
      end
  end.

(** Lines 178-184: the callee blocks enter the caller's table. *)
Fixpoint merge_blocks (sc : nat) (callee_blocks : list (Z * Block))
         (topo_order : list Z) : M unit :=
  match topo_order with
  | [] => ret tt
  | label :: rest =>
      match dict_get Z.eq_dec callee_blocks label with
      | None => lift (Raise KeyError)
      | Some block =>
          let block := mkBlock sc (ir.body block) in
          (_add_definitions block ;;;
           set_block label block ;;;
           merge_blocks sc callee_blocks rest)%M
      end
  end.

Section Pass.

(** What the pass is given and what it calls outside this file. *)
Variable run_frontend : Code -> FunctionIR * list (nat * list string).
Variable find_topo_order : list (Z * Block) -> list Z.
Variable merge_adjacent_blocks : FunctionIR -> FunctionIR.
Variable compute_cfg_from_blocks : list (Z * Block) -> analysis.CFGraph.
Variable remove_dels : list (Z * Block) -> list (Z * Block).
Variable remove_dead : list (Z * Block) -> bool * list (Z * Block).
Variable rename_labels : list (Z * Block) -> list (Z * Block).
(** [_fix_nested_array] (lines 676-752) is taken as it is called: the pass
    driver only decides whether it runs. *)
Variable _fix_nested_array : M unit.
(** [self.flags.auto_parallel] and the module's [enable_inline_arraycall]. *)
Variable auto_parallel : bool.
Variable enable_inline_arraycall : bool.

(** [get_ir_of_code] (lines 190-230): the IR of the callee, with the scope
    objects its blocks point to. *)
Definition get_ir_of_code (fcode : Code)
  : FunctionIR * list (nat * list string) :=
  run_frontend fcode.

(** [inline_closure_call] (lines 90-188); the block is given by its label,
    and the new blocks are returned by their labels. *)
Definition inline_closure_call (label : Z) (i : nat) (callee : Expr)
  : M (list Z) :=
  (func_ir <- gets self_func_ir ;;
   block <- lift (get_block func_ir label) ;;
   let sc := scope block in
   match nth_error (ir.body block) i, callee with
   | None, _ => lift (Raise IndexError)
   | Some (Assign (expr (call _ call_args _)) target),
     make_function code closure defaults =>
       let callee_ir := get_ir_of_code code in
       (* 1. relabel callee_ir by adding an offset *)
       max_label <- lift (python_max (dict_keys (blocks func_ir))) ;;
       let callee_blocks :=
         ir_utils.add_offset_to_labels (blocks (fst callee_ir))
                                       (max_label + 1) in
       min_label <- lift (python_min (dict_keys callee_blocks)) ;;
       max_label <- lift (python_max (dict_keys callee_blocks)) ;;
       ir_utils.set_max_label max_label ;;;
       (* 2. rename all local variables in callee_ir *)
       match _get_all_scopes callee_blocks with
       | [callee_scope] =>
           let callee_vars :=
             match dict_get Nat.eq_dec (snd callee_ir) callee_scope with
             | Some vars => vars
             | None => []
             end in
           var_dict <- make_var_dict sc (co_freevars code) callee_vars [] ;;
           let callee_blocks := ir_utils.replace_vars callee_blocks var_dict in
           (* 3. replace formal parameters with actual arguments *)
           args <- lift (callee_args func_ir call_args defaults) ;;
           callee_blocks <- lift (_replace_args_with callee_blocks args) ;;
           (* 4. replace freevar with actual closure var *)
           callee_blocks <-
             lift (replace_closure func_ir code closure callee_blocks) ;;
           (* 5. split caller blocks into two *)
           new_label <- ir_utils.next_label ;;
           set_block new_label (mkBlock sc (skipn (S i) (ir.body block))) ;;;
           set_body label (firstn i (ir.body block) ++ [Jump min_label]) ;;;
           (* 6. replace Return with assignment to LHS *)
           let topo_order := find_topo_order callee_blocks in
           callee_blocks <-
             lift (_replace_returns callee_blocks target new_label) ;;
           defs <- gets (fun s => _definitions (self_func_ir s)) ;;
           (if dict_mem string_dec defs target
            then set_definitions target []
            else ret tt) ;;;
           (* 7. insert all new blocks, and add back definitions *)
           merge_blocks sc callee_blocks topo_order ;;;
           ret (new_label :: topo_order)
       | _ => lift (Raise AssertionError)
       end
   | Some _, _ => lift (Raise AttributeError)
   end)%M.

(** The [for] loop of lines 45-59 over the body of one block, from
    statement [i] on: the labels of the new blocks if a call was inlined. *)
Fixpoint scan_block (label : Z) (stmts : list Stmt) (i : nat)
  : M (option (list Z)) :=
  match stmts with
  | [] => ret None
  | instr :: rest =>
      match instr with
      | Assign (expr (call func _ _)) lhs =>
          (func_ir <- gets self_func_ir ;;
           func_def <- lift (guard (_get_definition func_ir) (Var func)) ;;
           match func_def with
           | Some (expr (make_function code closure defaults)) =>
               new_blocks <-
                 inline_closure_call label i
                                     (make_function code closure defaults) ;;
               ret (Some new_blocks)
           | _ => scan_block label rest (S i)
           end)%M
      | _ => scan_block label rest (S i)
      end
  end.

(** The [while work_list] loop of lines 43-59; the blocks of the work list
    are given by their labels.  Returns [modified] and the number of calls
    inlined. *)
Fixpoint inline_all (fuel : nat) (work_list : list Z) (inlined : nat)
  : M nat :=
  match rev work_list with
  | [] => ret inlined
  | label :: rest_rev =>
      match fuel with
      | O => lift (Raise OutOfFuel)
      | S fuel' =>
          (func_ir <- gets self_func_ir ;;
           block <- lift (get_block func_ir label) ;;
           r <- scan_block label (ir.body block) 0 ;;
           match r with
           | Some new_blocks =>
               inline_all fuel' (rev rest_rev ++ new_blocks) (S inlined)
           | None => inline_all fuel' (rev rest_rev) inlined
           end)%M
      end
  end.

(** [sorted(sized_loops, key=lambda tup: tup[1], reverse=True)]: by size,
    bigger first, loops of one size in the order of the dict. *)
Fixpoint insert_by_size (x : Z * nat) (l : list (Z * nat)) : list (Z * nat) :=
  match l with
  | [] => [x]
  | y :: l' =>
      if (snd y <? snd x)%nat then x :: y :: l'
      else y :: insert_by_size x l'
  end.

Definition sorted_by_size (l : list (Z * nat)) : list (Z * nat) :=
  fold_left (fun acc x => insert_by_size x acc) l [].

(** The [for] loop of lines 73-77; returns the headers of the loops that
    were rewritten. *)
Fixpoint inline_arraycalls (cfg : analysis.CFGraph) (todo : list (Z * nat))
         (visited : list Z) (rewritten : list Z) : M (list Z) :=
  match todo with
  | [] => ret rewritten
  | (k, _) :: todo' =>
      let visited := visited ++ [k] in
      match dict_get Z.eq_dec (analysis.loops cfg) k with
      | None => lift (Raise KeyError)
      | Some loop =>
          (r <- guardM (_inline_arraycall cfg visited loop auto_parallel) ;;
           match r with
           | Some true => inline_arraycalls cfg todo' visited (rewritten ++ [k])
           | _ => inline_arraycalls cfg todo' visited rewritten
           end)%M
      end
  end.

(** The [while remove_dead(...)] loop of lines 85-86. *)
Fixpoint remove_dead_loop (fuel : nat) : M unit :=
  match fuel with
  | O => lift (Raise OutOfFuel)
  | S fuel' =>
      (f <- gets self_func_ir ;;
       let r := remove_dead (blocks f) in
       set_func_ir (fun f => mkFunctionIR (snd r) (_definitions f)) ;;;
       if fst r then remove_dead_loop fuel' else ret tt)%M
  end.

(** Lines 82-87: the final cleanup. *)
Definition final_cleanup (fuel : nat) : M unit :=
  (set_func_ir (fun f => mkFunctionIR (remove_dels (blocks f))
                                      (_definitions f)) ;;;
   remove_dead_loop fuel ;;;
   set_func_ir (fun f => mkFunctionIR (rename_labels (blocks f))
                                      (_definitions f)))%M.

(** What a run of the pass did. *)
Record run_report : Type := mkReport {
  inlined_calls : nat;          (* closure calls inlined *)
  rewritten_loops : list Z      (* headers of the loops rewritten *)
}.

(** [InlineClosureCallPass.run] (lines 36-88) *)
Definition run (fuel : nat) : M run_report :=
  (func_ir <- gets self_func_ir ;;
   inlined <- inline_all fuel (dict_keys (blocks func_ir)) 0 ;;
   let modified := negb (inlined =? 0)%nat in
   '(modified, rewritten) <-
      (if enable_inline_arraycall then
         (if modified then set_func_ir merge_adjacent_blocks else ret tt) ;;;
         func_ir <- gets self_func_ir ;;
         let cfg := compute_cfg_from_blocks (blocks func_ir) in
         let loops := analysis.loops cfg in
         let sized_loops :=
           map (fun kl => (fst kl, set_len (analysis.body (snd kl)))) loops in
         rewritten <-
           inline_arraycalls cfg (sorted_by_size sized_loops) [] [] ;;
         let modified :=
           modified || negb (List.length rewritten =? 0)%nat in
         (if modified then _fix_nested_array else ret tt) ;;;
         ret (modified, rewritten)
       else ret (modified, [])) ;;
   (if modified then final_cleanup fuel else ret tt) ;;;
   ret (mkReport inlined rewritten))%M.

End Pass.

(** ** The nested-array fixup (lines 676-752) *)

(** [find_array_def] (lines 690-702): the allocation an array comes from,
    through any number of [b[...]].  The lookup is [func_ir.get_definition]
    itself, whose [KeyError] is not turned into the guard signal.  [fuel]
    bounds the depth of the recursion. *)
Fixpoint find_array_def (fuel : nat) (func_ir : FunctionIR) (arr : Operand)
  : outcome Value :=
  match fuel with
  | O => Raise OutOfFuel
  | S fuel' =>
      arr_def <- get_definition func_ir arr ;;
      match arr_def with
      | expr e =>
          inferred <- guard (_find_unsafe_empty_inferred func_ir) arr_def ;;
          match inferred with
          | Some true => Ok arr_def
          | _ =>
              match e with
              | getitem value _ => find_array_def fuel' func_ir value
              | _ => Raise GuardException
              end
          end
      | atom _ => Raise GuardException
      end
  end.

Definition is_Expr (v : Value) : bool :=
  match v with expr _ => true | atom _ => false end.

(** [e.args[0]]; an expression that is no call has no [args] among its
    fields. *)
Definition first_arg (e : Value) : outcome Operand :=
  match e with
  | expr (call _ (a :: _) _) => Ok a
  | expr (call _ [] _) => Raise IndexError
  | expr _ => Raise KeyError
  | atom _ => Raise AttributeError
  end.

(** An expression object that [_get_definition(func_ir, name)] has returned
    is updated in place: it is the object held by the assignment that
    defines the last variable of the chain of copies from [name]. *)
Definition update_object (name : Operand) (old new : Value) : M unit :=
  (f <- gets self_func_ir ;;
   match get_definition_lhs_only f name with
   | Ok (Var holder) => set_func_ir (retarget_object holder old new)
   | _ => ret tt
   end)%M.

(** [fix_array_assign] (lines 704-746) *)
Definition fix_array_assign (fuel : nat) (stmt : Stmt) : M bool :=
  match stmt with
  | SetItem lhs index (Var value) =>
      (f <- gets self_func_ir ;;
       (* Find the source array creation of lhs *)
       lhs_def <- lift (find_array_def fuel f (Var lhs)) ;;
       rhs_def <- lift (_get_definition f (Var value)) ;;
       lift (require (is_Expr rhs_def)) ;;;
       '(rhs_name, rhs_def) <-
          lift (match rhs_def with
                | expr (cast v) =>
                    d <- _get_definition f v ;;
                    require (is_Expr d) ;;;
                    Ok (v, d)
                | _ => Ok (Var value, rhs_def)
                end)%py ;;
       inferred <- lift (_find_unsafe_empty_inferred f rhs_def) ;;
       lift (require inferred) ;;;
       (* Find the array dimension of rhs *)
       rhs_arg <- lift (first_arg rhs_def) ;;
       dim_def <- lift (_get_definition f rhs_arg) ;;
       match dim_def with
       | expr (build_tuple dims) =>
           extra_dims <- lift (mapM (_get_definition_lhs_only f) dims) ;;
           (* Expand size tuple when creating lhs_def with extra_dims *)
           lhs_arg <- lift (first_arg lhs_def) ;;
           size_tuple_def <- lift (_get_definition f lhs_arg) ;;
           match size_tuple_def with
           | expr (build_tuple items) =>
               update_object lhs_arg size_tuple_def
                             (build_tuple (items ++ extra_dims)) ;;;
               (* In-place modify rhs_def to be getitem *)
               f <- gets self_func_ir ;;
               lhs_var <- lift (_get_definition_lhs_only f (Var lhs)) ;;
               update_object rhs_name rhs_def (getitem lhs_var (Var index)) ;;;
               ret true
           | _ => lift (Raise GuardException)
           end
       | _ => lift (Raise GuardException)
       end)%M
  | _ => lift (Raise GuardException)
  end.

(** [list.remove(x)]: the first item that [==] finds equal to [x] leaves the
    list; without such an item a [ValueError] is raised. *)
Fixpoint list_remove (x : Stmt) (l : list Stmt) : outcome (list Stmt) :=
  match l with
  | [] => Raise ValueError
  | y :: l' =>
      if Stmt_eqb y x then Ok l'
      else (r <- list_remove x l' ;; Ok (y :: r))
  end.

(** The loop [for stmt in block.body] of lines 750-752, from position [i]
    of the iterator on.  The body is the list as it is when the iterator
    reads it: after a removal the statements behind have moved up by one and
    the iterator goes on at [i + 1].  [n] bounds the number of steps; the
    body does not grow, so its length plus one is enough. *)
Fixpoint fix_block_from (fuel n : nat) (label : Z) (i : nat) : M unit :=
  match n with
  | O => lift (Raise OutOfFuel)
  | S n' =>
      (f <- gets self_func_ir ;;
       block <- lift (get_block f label) ;;
       match nth_error (ir.body block) i with
       | None => ret tt
       | Some stmt =>
           r <- guardM (fix_array_assign fuel stmt) ;;
           (match r with
            | Some true =>
                f <- gets self_func_ir ;;
                block <- lift (get_block f label) ;;
                stmts <- lift (list_remove stmt (ir.body block)) ;;
                set_body label stmts
            | _ => ret tt
            end) ;;;
           fix_block_from fuel n' label (S i)
       end)%M
  end.

(** The loop [for label in find_topo_order(func_ir.blocks)] of lines
    748-752. *)
Fixpoint fix_blocks (fuel : nat) (labels : list Z) : M unit :=
  match labels with
  | [] => ret tt
  | label :: rest =>
      (f <- gets self_func_ir ;;
       block <- lift (get_block f label) ;;
       fix_block_from fuel (S (List.length (ir.body block))) label 0 ;;;
       fix_blocks fuel rest)%M
  end.

(** [_fix_nested_array] (lines 676-752) *)
Definition _fix_nested_array (find_topo_order : list (Z * Block) -> list Z)
           (fuel : nat) : M unit :=
  (f <- gets self_func_ir ;;
   fix_blocks fuel (find_topo_order (blocks f)))%M.

(** ** Example programs *)

Module Examples.

Open Scope string_scope.
Open Scope Z_scope.
Open Scope list_scope.

(** The definitions table the frontend builds: one entry per assignment. *)
Definition definitions_of (blks : list (Z * Block))
  : list (string * list Value) :=
  fold_left (fun defs lb =>
               fold_left (fun defs stmt =>
                            match stmt with
                            | Assign value target =>
                                definitions_append defs target value
                            | _ => defs
                            end)
                         (ir.body (snd lb)) defs)
            blks [].

Definition state_of (blks : list (Z * Block)) : State :=
  mkState (mkFunctionIR blks (definitions_of blks))
          [(0%nat, dict_keys (definitions_of blks))]
          (fold_left Z.max (dict_keys blks) 0) 0.

(** [r = []; for i in range(5): r.append(i * 2); a = np.array(r)] *)
Definition header_block : Block :=
  mkBlock 0 [ Assign (iternext (Var "$phi")) "$10.2";
              Assign (pair_first (Var "$10.2")) "$10.3";
              Assign (pair_second (Var "$10.2")) "$10.4";
              Branch "$10.4" 12 30 ].

Definition append_block : Block :=
  mkBlock 0 [ Assign (Var "$10.3") "i";
              Assign (getattr (Var "r") "append") "$12.2";
              Assign (Const (Scalar (PInt 2))) "$const2";
              Assign (binop "*" (Var "i") (Var "$const2")) "$12.5";
              Assign (call "$12.2" [Var "$12.5"] []) "$12.6";
              Jump 10 ].

Definition exit_block : Block :=
  mkBlock 0 [ Assign (Global "np" np) "$30.1";
              Assign (getattr (Var "$30.1") "array") "$30.2";
              Assign (call "$30.2" [Var "r"] []) "$30.4";
              Del "r";
              Assign (Var "$30.4") "a";
              Assign (cast (Var "a")) "$ret";
              Return "$ret" ].

Definition range_stop_blocks : list (Z * Block) :=
  [ (0, mkBlock 0 [ Assign (build_list []) "$0.1";
                    Assign (Var "$0.1") "r";
                    Assign (Global "range" range) "$0.2";
                    Assign (Const (Scalar (PInt 5))) "$const5";
                    Assign (call "$0.2" [Var "$const5"] []) "$0.4";
                    Assign (getiter (Var "$0.4")) "$0.5";
                    Assign (Var "$0.5") "$phi";
                    Jump 10 ]);
    (10, header_block); (12, append_block); (30, exit_block) ].

(** The same loop over [range(2, 7)]. *)
Definition range_start_blocks : list (Z * Block) :=
  [ (0, mkBlock 0 [ Assign (build_list []) "$0.1";
                    Assign (Var "$0.1") "r";
                    Assign (Global "range" range) "$0.2";
                    Assign (Const (Scalar (PInt 2))) "$const2a";
                    Assign (Const (Scalar (PInt 7))) "$const7";
                    Assign (call "$0.2" [Var "$const2a"; Var "$const7"] [])
                           "$0.4";
                    Assign (getiter (Var "$0.4")) "$0.5";
                    Assign (Var "$0.5") "$phi";
                    Jump 10 ]);
    (10, header_block); (12, append_block); (30, exit_block) ].

(** The same loop over [range(0, 7)]. *)
Definition range_zero_blocks : list (Z * Block) :=
  [ (0, mkBlock 0 [ Assign (build_list []) "$0.1";
                    Assign (Var "$0.1") "r";
                    Assign (Global "range" range) "$0.2";
                    Assign (Const (Scalar (PInt 0))) "$const0";
                    Assign (Const (Scalar (PInt 7))) "$const7";
                    Assign (call "$0.2" [Var "$const0"; Var "$const7"] [])
                           "$0.4";
                    Assign (getiter (Var "$0.4")) "$0.5";
                    Assign (Var "$0.5") "$phi";
                    Jump 10 ]);
    (10, header_block); (12, append_block); (30, exit_block) ].

(** The same loop over an argument [xs] of the function. *)
Definition other_iter_blocks : list (Z * Block) :=
  [ (0, mkBlock 0 [ Assign (Arg 0 "xs") "xs";
                    Assign (build_list []) "$0.1";
                    Assign (Var "$0.1") "r";
                    Assign (getiter (Var "xs")) "$0.5";
                    Assign (Var "$0.5") "$phi";
                    Jump 10 ]);
    (10, header_block); (12, append_block); (30, exit_block) ].

Definition the_loop : analysis.Loop := analysis.mkLoop [0] [30] 10 [10; 12].

Definition the_cfg : analysis.CFGraph :=
  analysis.mkCFGraph
    (fun l => if l =? 10 then [0; 12] else [])
    (fun l => if (l =? 10) || (l =? 12) then [the_loop] else [])
    [(10, the_loop)].

(** The loop of [range_stop_blocks] with an append that is given no
    argument: [r.append()]. *)
Definition bare_append_blocks : list (Z * Block) :=
  [ (0, mkBlock 0 [ Assign (build_list []) "$0.1";
                    Assign (Var "$0.1") "r";
                    Assign (Global "range" range) "$0.2";
                    Assign (Const (Scalar (PInt 5))) "$const5";
                    Assign (call "$0.2" [Var "$const5"] []) "$0.4";
                    Assign (getiter (Var "$0.4")) "$0.5";
                    Assign (Var "$0.5") "$phi";
                    Jump 10 ]);
    (10, header_block);
    (12, mkBlock 0 [ Assign (Var "$10.3") "i";
                     Assign (getattr (Var "r") "append") "$12.2";
                     Assign (call "$12.2" [] []) "$12.6";
                     Jump 10 ]);
    (30, exit_block) ].

(** Two lists built by equal expressions,
    [r = []; s = []; for i in range(5): ...; a = np.array(r)], with a loop
    body that appends to [s] alone, or to [r] and then to [s]. *)
Definition two_lists_blocks (body : list Stmt) : list (Z * Block) :=
  [ (0, mkBlock 0 [ Assign (build_list []) "$0.1";
                    Assign (Var "$0.1") "r";
                    Assign (build_list []) "$0.3";
                    Assign (Var "$0.3") "s";
                    Assign (Global "range" range) "$0.2";
                    Assign (Const (Scalar (PInt 5))) "$const5";
                    Assign (call "$0.2" [Var "$const5"] []) "$0.4";
                    Assign (getiter (Var "$0.4")) "$0.5";
                    Assign (Var "$0.5") "$phi";
                    Jump 10 ]);
    (10, header_block); (12, mkBlock 0 body); (30, exit_block) ].

Definition append_to_s : list Stmt :=
  [ Assign (Var "$10.3") "i";
    Assign (getattr (Var "s") "append") "$12.2";
    Assign (call "$12.2" [Var "i"] []) "$12.3";
    Jump 10 ].

Definition append_to_r_and_s : list Stmt :=
  [ Assign (Var "$10.3") "i";
    Assign (getattr (Var "r") "append") "$12.2";
    Assign (call "$12.2" [Var "i"] []) "$12.3";
    Assign (getattr (Var "s") "append") "$12.4";
    Assign (call "$12.4" [Var "i"] []) "$12.5";
    Jump 10 ].

(** A control-flow graph in which the header has one more predecessor: the
    append no longer is on every path back to the header. *)
Definition branching_cfg : analysis.CFGraph :=
  analysis.mkCFGraph
    (fun l => if l =? 10 then [0; 12; 14] else [])
    (fun l => if (l =? 10) || (l =? 12) then [the_loop] else [])
    [(10, the_loop)].

(** An exit block in which an assignment stands between the array call and
    the deletion of the list. *)
Definition loose_exit_block : Block :=
  mkBlock 0 [ Assign (call "$30.2" [Var "r"] []) "$30.4";
              Assign (Const (Scalar (PInt 1))) "t";
              Del "r";
              Return "$30.4" ].

Definition loose_exit_ir : FunctionIR :=
  mkFunctionIR [(30, loose_exit_block)]
               [ ("$30.1", [atom (Global "np" np)]);
                 ("$30.2", [expr (getattr (Var "$30.1") "array")]) ].

(** The nested case: the list of the loop is stored into an array that was
    allocated by [unsafe_empty_inferred]. *)
Definition nested_blocks : list (Z * Block) :=
  [ (0, mkBlock 0 [ Assign (Global "unsafe_empty_inferred"
                                   unsafe_empty_inferred) "$e";
                    Assign (Const (Scalar (PInt 4))) "$const4";
                    Assign (build_tuple [Var "$const4"]) "$shape";
                    Assign (call "$e" [Var "$shape"] []) "outer";
                    Assign (Const (Scalar (PInt 0))) "j";
                    Assign (build_list []) "$0.1";
                    Assign (Var "$0.1") "r";
                    Assign (Global "range" range) "$0.2";
                    Assign (Const (Scalar (PInt 5))) "$const5";
                    Assign (call "$0.2" [Var "$const5"] []) "$0.4";
                    Assign (getiter (Var "$0.4")) "$0.5";
                    Assign (Var "$0.5") "$phi";
                    Jump 10 ]);
    (10, header_block); (12, append_block);
    (30, mkBlock 0 [ SetItem "outer" "j" (Var "r");
                     Del "r";
                     Return "outer" ]) ].

(** [def f(x): return (lambda y: x + y)(5)], and the IR of the lambda. *)
Definition lambda_code : Code := mkCode "<lambda>" 1 ["x"].

Definition caller_blocks : list (Z * Block) :=
  [ (0, mkBlock 0 [ Assign (Arg 0 "x") "x";
                    Assign (build_tuple [Var "x"]) "$0.1";
                    Assign (make_function lambda_code (Some "$0.1")
                                          (defaults_other PNone)) "$0.2";
                    Assign (Const (Scalar (PInt 5))) "$const5";
                    Assign (call "$0.2" [Var "$const5"] []) "$0.4";
                    Assign (cast (Var "$0.4")) "$0.5";
                    Return "$0.5" ]) ].

Definition lambda_blocks : list (Z * Block) :=
  [ (0, mkBlock 1 [ Assign (Arg 0 "y") "y";
                    Assign (FreeVar 0 "x") "$0.1";
                    Assign (binop "+" (Var "$0.1") (Var "y")) "$0.2";
                    Assign (cast (Var "$0.2")) "$0.3";
                    Return "$0.3" ]) ].

(** [lambda y, z=7: y + z], called with one argument. *)
Definition lambda_default_code : Code := mkCode "<lambda>" 2 [].

Definition lambda_default_blocks : list (Z * Block) :=
  [ (0, mkBlock 1 [ Assign (Arg 0 "y") "y";
                    Assign (Arg 1 "z") "z";
                    Assign (binop "+" (Var "y") (Var "z")) "$0.1";
                    Assign (cast (Var "$0.1")) "$0.2";
                    Return "$0.2" ]) ].


(** [lambda y, z: y + z] called with one argument and no default. *)
Definition caller_missing_blocks : list (Z * Block) :=
  [ (0, mkBlock 0 [ Assign (make_function lambda_default_code None
                                          (defaults_other PNone)) "$0.2";
                    Assign (Const (Scalar (PInt 5))) "$const5";
                    Assign (call "$0.2" [Var "$const5"] []) "$0.4";
                    Assign (cast (Var "$0.4")) "$0.5";
                    Return "$0.5" ]) ].

(** The collaborators of the examples: a frontend that knows the two
    lambdas, blocks ordered as they are held, cleanups that find nothing
    to do, and a control-flow graph without loops. *)
Definition frontend (fcode : Code) : FunctionIR * list (nat * list string) :=
  let blks := if (co_argcount fcode =? 1)%nat then lambda_blocks
              else lambda_default_blocks in
  (mkFunctionIR blks (definitions_of blks),
   [(1%nat, dict_keys (definitions_of blks))]).

Definition topo_order_as_held (blks : list (Z * Block)) : list Z :=
  dict_keys blks.

Definition no_loops (blks : list (Z * Block)) : analysis.CFGraph :=
  analysis.mkCFGraph (fun _ => []) (fun _ => []) [].

Definition run_example (enable : bool) (fuel : nat) : M run_report :=
  run frontend topo_order_as_held (fun f => f) no_loops
      (fun b => b) (fun b => (false, b)) (fun b => b) (ret tt)
      false enable fuel.

End Examples.

(** ** Theorems *)

(** C2: [require c] raises the guard signal exactly when [c] is false and
    returns normally otherwise; [guard f x] returns [f]'s result when [f]
    returns, the absent result [None] when [f] raises the guard signal, and
    re-raises any other exception unchanged.  The same holds of [guard]
    around a function that works on the function IR (the calls of lines 75
    and 751), where the state the function leaves is the state [guard]
    leaves: nothing is undone. *)
Theorem C2_require_guard :
  (forall c, require c = Raise GuardException <-> c = false) /\
  (forall c, require c = Ok tt <-> c = true) /\
  (forall A B (f : A -> outcome B) x b,
      f x = Ok b -> guard f x = Ok (Some b)) /\
  (forall A B (f : A -> outcome B) x,
      f x = Raise GuardException -> guard f x = Ok None) /\
  (forall A B (f : A -> outcome B) x e,
      f x = Raise e -> e <> GuardException -> guard f x = Raise e) /\
  (forall A (f : M A) s a s',
      f s = (Ok a, s') -> guardM f s = (Ok (Some a), s')) /\
  (forall A (f : M A) s s',
      f s = (Raise GuardException, s') -> guardM f s = (Ok None, s')) /\
  (forall A (f : M A) s e s',
      f s = (Raise e, s') -> e <> GuardException ->
      guardM f s = (Raise e, s')).
Proof.
  repeat split.
  - destruct c; simpl; [discriminate | reflexivity].
  - intros ->; reflexivity.
  - destruct c; simpl; [reflexivity | discriminate].
  - intros ->; reflexivity.
  - intros A B f x b H. unfold guard. now rewrite H.
  - intros A B f x H. unfold guard. now rewrite H.
  - intros A B f x e H Hne. unfold guard. rewrite H.
    destruct e; try reflexivity. now elim Hne.
  - intros A f s a s' H. unfold guardM. now rewrite H.
  - intros A f s s' H. unfold guardM. now rewrite H.
  - intros A f s e s' H Hne. unfold guardM. rewrite H.
    destruct e; try reflexivity. now elim Hne.
Qed.

(** ** Reasoning about outcomes *)

(** Case analysis on the scrutinee of a [match] in a hypothesis. *)
Ltac break_match_in H :=
  match type of H with
  | context [match ?x with _ => _ end] =>
      let E := fresh "E" in destruct x eqn:E
  | context [if ?x then _ else _] =>
      let E := fresh "E" in destruct x eqn:E
  end.

Ltac break_match_goal :=
  match goal with
  | |- context [match ?x with _ => _ end] =>
      let E := fresh "E" in destruct x eqn:E
  | |- context [if ?x then _ else _] =>
      let E := fresh "E" in destruct x eqn:E
  end.

Lemma bind_Ok_inv {A B} (m : outcome A) (k : A -> outcome B) (b : B) :
  bind m k = Ok b -> exists a, m = Ok a /\ k a = Ok b.
Proof. destruct m as [a|e]; simpl; [eauto | discriminate]. Qed.

Lemma bind_Raise_inv {A B} (m : outcome A) (k : A -> outcome B) (e : exn) :
  bind m k = Raise e ->
  m = Raise e \/ exists a, m = Ok a /\ k a = Raise e.
Proof. destruct m as [a|e']; simpl; [eauto | intros [= ->]; auto]. Qed.

Lemma require_Ok (c : bool) : require c = Ok tt -> c = true.
Proof. destruct c; simpl; [reflexivity | discriminate]. Qed.

Lemma mapM_Ok_Forall2 {X Y} (f : X -> outcome Y) (l : list X) (l' : list Y) :
  mapM f l = Ok l' -> Forall2 (fun x y => f x = Ok y) l l'.
Proof.
  revert l'. induction l as [|x l IH]; simpl; intros l' H.
  - injection H as <-. constructor.
  - apply bind_Ok_inv in H as (y & Hy & H).
    apply bind_Ok_inv in H as (ys & Hys & H).
    injection H as <-. constructor; auto.
Qed.

(** When every exception [f] can raise is [e], so is every exception of
    [mapM f], and one failing element is enough. *)
Lemma mapM_raise {X Y} (f : X -> outcome Y) (e : exn) (l : list X) :
  (forall x e', f x = Raise e' -> e' = e) ->
  (exists x, In x l /\ f x = Raise e) ->
  mapM f l = Raise e.
Proof.
  intros Honly. induction l as [|x l IH]; intros (x0 & Hin & Hx0).
  - destruct Hin.
  - simpl. destruct (f x) as [y|e'] eqn:Hfx.
    + destruct Hin as [-> | Hin]; [congruence |].
      simpl. rewrite IH; [reflexivity | eauto].
    + simpl. f_equal. eauto.
Qed.

Lemma mapM_raise_inv {X Y} (f : X -> outcome Y) (e : exn) (l : list X) :
  mapM f l = Raise e -> exists x, In x l /\ f x = Raise e.
Proof.
  induction l as [|x l IH]; simpl; [discriminate |].
  intros H. apply bind_Raise_inv in H as [H | (y & Hy & H)].
  - exists x; auto.
  - apply bind_Raise_inv in H as [H | (ys & Hys & H)]; [| discriminate].
    destruct (IH H) as (x0 & Hin & Hx0). exists x0; auto.
Qed.

Lemma for_each_block_Ok (f : list Stmt -> outcome (list Stmt))
      (blks blks' : list (Z * Block)) :
  for_each_block f blks = Ok blks' ->
  Forall2 (fun lb lb' => fst lb' = fst lb /\ scope (snd lb') = scope (snd lb)
                         /\ f (ir.body (snd lb)) = Ok (ir.body (snd lb')))
          blks blks'.
Proof.
  intros H. apply mapM_Ok_Forall2 in H.
  induction H as [|lb lb' l l' Hlb _ IH]; constructor; auto.
  apply bind_Ok_inv in Hlb as (stmts & Hs & Hlb). injection Hlb as <-.
  simpl. auto.
Qed.

Lemma for_each_block_raise (f : list Stmt -> outcome (list Stmt)) (e : exn)
      (blks : list (Z * Block)) :
  (forall stmts e', f stmts = Raise e' -> e' = e) ->
  (exists lb, In lb blks /\ f (ir.body (snd lb)) = Raise e) ->
  for_each_block f blks = Raise e.
Proof.
  intros Honly (lb & Hin & Hlb). apply mapM_raise.
  - intros x e' H. apply bind_Raise_inv in H as [H | (y & _ & H)];
      [eauto | discriminate].
  - exists lb. split; [assumption |]. now rewrite Hlb.
Qed.

Lemma for_each_block_raise_inv (f : list Stmt -> outcome (list Stmt))
      (e : exn) (blks : list (Z * Block)) :
  for_each_block f blks = Raise e ->
  exists lb, In lb blks /\ f (ir.body (snd lb)) = Raise e.
Proof.
  intros H. apply mapM_raise_inv in H as (lb & Hin & H).
  exists lb. split; [assumption |].
  apply bind_Raise_inv in H as [H | (y & _ & H)]; [assumption | discriminate].
Qed.

(** The lookup of a definition raises [KeyError] or hangs, and nothing
    else; [_get_definition] turns the first into the guard signal. *)
Lemma get_definition_loop_raises fuel defs value e :
  get_definition_loop fuel defs value = Raise e -> e = KeyError \/ e = Hang.
Proof.
  revert value. induction fuel as [|fuel IH]; intros value H;
    destruct value; simpl in H; try discriminate.
  - injection H as <-. auto.
  - repeat break_match_in H; try discriminate;
      try (injection H as <-; now auto); eauto.
Qed.

Lemma get_definition_raises func_ir value e :
  get_definition func_ir value = Raise e -> e = KeyError \/ e = Hang.
Proof. apply get_definition_loop_raises. Qed.

Lemma get_definition_lhs_loop_raises fuel defs value e :
  get_definition_lhs_loop fuel defs value = Raise e ->
  e = KeyError \/ e = Hang.
Proof.
  revert value. induction fuel as [|fuel IH]; intros value H;
    destruct value; simpl in H; try discriminate.
  - injection H as <-. auto.
  - repeat break_match_in H; try discriminate;
      try (injection H as <-; now auto); eauto.
Qed.

(** ** Closure inlining: arguments, defaults and returns *)

Lemma replace_arg_raises args stmt e :
  replace_arg args stmt = Raise e -> e = AssertionError.
Proof.
  destruct stmt as [[[]|]| | | | |]; simpl; try discriminate.
  destruct (nth_error args index); [discriminate | now intros [= <-]].
Qed.

Lemma replace_args_body_raises args stmts e :
  mapM (replace_arg args) stmts = Raise e -> e = AssertionError.
Proof.
  intros H. apply mapM_raise_inv in H as (x & _ & H).
  eapply replace_arg_raises; eassumption.
Qed.

Lemma replace_args_with_missing blks args label block idx name target :
  In (label, block) blks ->
  In (Assign (atom (Arg idx name)) target) (ir.body block) ->
  (List.length args <= idx)%nat ->
  _replace_args_with blks args = Raise AssertionError.
Proof.
  intros Hblk Hstmt Hlen. apply for_each_block_raise.
  - intros stmts e'. apply replace_args_body_raises.
  - exists (label, block). split; [assumption |]. simpl.
    apply mapM_raise.
    + intros x e'. apply replace_arg_raises.
    + eexists. split; [eassumption |]. simpl.
      now apply nth_error_None in Hlen as ->.
Qed.

Lemma bindM_inv {A B} (m : M A) (k : A -> M B) s r s' :
  bindM m k s = (r, s') ->
  (exists e, m s = (Raise e, s') /\ r = Raise e) \/
  (exists a s1, m s = (Ok a, s1) /\ k a s1 = (r, s')).
Proof.
  unfold bindM. destruct (m s) as [[a|e] s1]; intros H.
  - right. eauto.
  - left. injection H as <- <-. eauto.
Qed.

Lemma bindM_eq {A B} (m : M A) (k : A -> M B) s r s1 :
  m s = (r, s1) ->
  bindM m k s = match r with
                | Ok a => k a s1
                | Raise e => (Raise e, s1)
                end.
Proof. intros H. unfold bindM. now rewrite H. Qed.

Arguments bindM_eq {A B m} k {s r s1} _.

Lemma bindM_Ok_inv {A B} (m : M A) (k : A -> M B) s b s' :
  bindM m k s = (Ok b, s') ->
  exists a s1, m s = (Ok a, s1) /\ k a s1 = (Ok b, s').
Proof.
  intros H. apply bindM_inv in H as [(e & _ & [=]) | H]; assumption.
Qed.

Lemma lift_Ok_inv {A} (r : outcome A) s a s' :
  lift r s = (Ok a, s') -> r = Ok a /\ s' = s.
Proof. unfold lift. now intros [= -> ->]. Qed.

Lemma python_max_Ok x l : exists m, python_max (x :: l) = Ok m.
Proof. simpl. eauto. Qed.

Lemma get_block_keys f label block :
  get_block f label = Ok block -> exists x l, dict_keys (blocks f) = x :: l.
Proof.
  unfold get_block. destruct (blocks f) as [|[k b] l]; simpl; [discriminate|].
  eauto.
Qed.

Lemma make_var_dict_spec sc fv names var_dict s r s' :
  make_var_dict sc fv names var_dict s = (r, s') ->
  self_func_ir s' = self_func_ir s /\ _max_label s' = _max_label s /\
  ((exists d, r = Ok d) \/ r = Raise RedefinedError).
Proof.
  revert var_dict s. induction names as [|name names IH]; simpl; intros var_dict s H.
  - injection H as <- <-. eauto.
  - destruct (mem_string name fv); [eauto |].
    apply bindM_inv in H as [(e & H & ->) | (u & s1 & Hu & H)].
    + discriminate.
    + injection Hu as <- <-.
      apply bindM_inv in H as [(e & H & ->) | (v & s2 & Hv & H)].
      * unfold define in H. simpl in H. break_match_in H; [| discriminate].
        injection H as <- <-. simpl. auto.
      * unfold define in Hv. simpl in Hv. break_match_in Hv; [discriminate |].
        injection Hv as <- <-. apply IH in H. simpl in H. exact H.
Qed.

Lemma callee_args_not_guard func_ir call_args defaults :
  callee_args func_ir call_args defaults <> Raise GuardException.
Proof.
  unfold callee_args. intros H.
  repeat break_match_in H; try discriminate.
  apply bind_Raise_inv in H as [H | (d & Hd & H)].
  - apply get_definition_raises in H as [H | H]; discriminate.
  - repeat break_match_in H; try discriminate.
    apply bind_Raise_inv in H as [H | (vs & _ & H)]; [| discriminate].
    unfold iterate_const in H. repeat break_match_in H; discriminate.
Qed.

Lemma python_min_max_Ok (l : list Z) :
  l <> [] -> exists mn mx, python_min l = Ok mn /\ python_max l = Ok mx.
Proof. destruct l; [congruence | simpl; eauto]. Qed.

Section C10.
Variable run_frontend : Code -> FunctionIR * list (nat * list string).
Variable find_topo_order : list (Z * Block) -> list Z.

(** C10: when the callee, after the available defaults have been appended
    to the arguments of the call, still holds a parameter placeholder whose
    index is not below the number of arguments, [inline_closure_call] raises
    an exception that is not the guard signal: the failed assertion of
    [_replace_args_with], unless renaming or the defaults have failed
    before with a fatal error of their own. *)
Theorem C10_missing_argument_is_fatal :
  forall label i code closure defaults s block func call_args kws target
         l b idx name tgt,
    get_block (self_func_ir s) label = Ok block ->
    nth_error (ir.body block) i
      = Some (Assign (expr (call func call_args kws)) target) ->
    In (l, b) (blocks (fst (run_frontend code))) ->
    In (Assign (atom (Arg idx name)) tgt) (ir.body b) ->
    (forall args, callee_args (self_func_ir s) call_args defaults = Ok args ->
                  (List.length args <= idx)%nat) ->
    exists e s',
      inline_closure_call run_frontend find_topo_order label i
                          (make_function code closure defaults) s
      = (Raise e, s')
      /\ e <> GuardException
      /\ (e = AssertionError \/ e = RedefinedError
          \/ callee_args (self_func_ir s) call_args defaults = Raise e).
Proof.
  intros label i code closure defaults s block func call_args kws target
         l b idx name tgt Hblock Hinstr Hb Harg Hargs.
  unfold inline_closure_call, get_ir_of_code.
  cbn [bindM gets lift]. rewrite Hblock. rewrite Hinstr.
  destruct (get_block_keys _ _ Hblock) as (x & l0 & Hk). rewrite Hk.
  cbn [python_max lift bindM].
  set (off := (fold_left Z.max l0 x + 1)%Z).
  assert (Hin : In ((l + off)%Z,
                    mkBlock (scope b)
                            (map (ir_utils.offset_stmt off) (ir.body b)))
                   (ir_utils.add_offset_to_labels
                      (blocks (fst (run_frontend code))) off)).
  { unfold ir_utils.add_offset_to_labels.
    apply (in_map (fun lb : Z * Block =>
                     ((fst lb + off)%Z,
                      mkBlock (scope (snd lb))
                              (map (ir_utils.offset_stmt off)
                                   (ir.body (snd lb))))) _ _ Hb). }
  set (cb := ir_utils.add_offset_to_labels _ off) in *.
  destruct (@python_min_max_Ok (dict_keys cb)) as (mn & mx & -> & ->).
  { intros E. apply (in_map fst) in Hin. unfold dict_keys in E.
    rewrite E in Hin. destruct Hin. }
  cbn [lift bindM ir_utils.set_max_label modify].
  set (s1 := mkState _ _ _ _).
  destruct (_get_all_scopes cb) as [|callee_scope [|]];
    try (exists AssertionError, s1; cbn; split; [reflexivity |];
         split; [discriminate | auto]).
  set (vars := match dict_get Nat.eq_dec _ callee_scope with
               | Some v => v | None => [] end).
  unfold bindM at 1.
  destruct (make_var_dict (scope block) (co_freevars code) vars [] s1)
    as [r s2] eqn:Hvd.
  apply make_var_dict_spec in Hvd as (_ & _ & [(var_dict & ->) | ->]).
  2:{ exists RedefinedError, s2. split; [reflexivity |].
      split; [discriminate | auto]. }
  unfold bindM at 1. unfold lift at 1.
  destruct (callee_args (self_func_ir s) call_args defaults)
    as [args|e] eqn:Hca.
  2:{ exists e, s2. split; [reflexivity |]. split; [| auto].
      intros ->. eapply callee_args_not_guard; eassumption. }
  unfold bindM at 1. unfold lift at 1.
  rewrite replace_args_with_missing
    with (label := (l + off)%Z)
         (block := mkBlock (scope b)
                     (map (ir_utils.rename_stmt var_dict)
                          (map (ir_utils.offset_stmt off) (ir.body b))))
         (idx := idx) (name := name)
         (target := ir_utils.rename var_dict tgt).
  - exists AssertionError, s2. split; [reflexivity |].
    split; [discriminate | auto].
  - unfold ir_utils.replace_vars.
    apply (in_map (fun lb : Z * Block =>
                     (fst lb,
                      mkBlock (scope (snd lb))
                              (map (ir_utils.rename_stmt var_dict)
                                   (ir.body (snd lb))))) _ _ Hin).
  - simpl.
    apply (in_map (ir_utils.rename_stmt var_dict)
                  _ (Assign (atom (Arg idx name)) tgt)).
    apply (in_map (ir_utils.offset_stmt off)
                  _ (Assign (atom (Arg idx name)) tgt)). exact Harg.
  - auto.
Qed.
End C10.

(** C10 on the call [(lambda y, z: y + z)(5)]. *)
Lemma C10_witness :
  exists e s',
    inline_closure_call Examples.frontend Examples.topo_order_as_held 0 2
      (make_function Examples.lambda_default_code None (defaults_other PNone))
      (Examples.state_of Examples.caller_missing_blocks)
    = (Raise e, s')
    /\ e <> GuardException
    /\ (e = AssertionError \/ e = RedefinedError
        \/ callee_args
             (self_func_ir (Examples.state_of Examples.caller_missing_blocks))
             [Var "$const5"] (defaults_other PNone) = Raise e).
Proof.
  apply (@C10_missing_argument_is_fatal
           Examples.frontend Examples.topo_order_as_held 0%Z 2%nat
           Examples.lambda_default_code None (defaults_other PNone)
           (Examples.state_of Examples.caller_missing_blocks)
           (mkBlock 0 (ir.body (snd (0%Z, mkBlock 0
              [ Assign (expr (make_function Examples.lambda_default_code None
                                            (defaults_other PNone))) "$0.2";
                Assign (atom (Const (Scalar (PInt 5)))) "$const5";
                Assign (expr (call "$0.2" [Var "$const5"] [])) "$0.4";
                Assign (expr (cast (Var "$0.4"))) "$0.5";
                Return "$0.5" ]))))
           "$0.2"%string [Var "$const5"] [] "$0.4"%string
           0%Z (mkBlock 1 (ir.body (snd (0%Z, mkBlock 1
              [ Assign (atom (Arg 0 "y")) "y";
                Assign (atom (Arg 1 "z")) "z";
                Assign (expr (binop "+" (Var "y") (Var "z"))) "$0.1";
                Assign (expr (cast (Var "$0.1"))) "$0.2";
                Return "$0.2" ]))))
           1%nat "z"%string "z"%string).
  - reflexivity.
  - reflexivity.
  - simpl. left. reflexivity.
  - simpl. right. left. reflexivity.
  - intros args H. vm_compute in H. injection H as <-. simpl. lia.
Defined.

Definition is_Return (stmt : Stmt) : bool :=
  match stmt with Return _ => true | _ => false end.






(** ** The pass driver *)

(** A fixup that fails: whether a run has called it shows in the outcome. *)
Definition failing_fixup : M unit := lift (Raise NotImplementedError).

(** The claim of C4 on the fixup, as the spec states it: the nested-array
    fixup runs only if a loop was rewritten.  A run that completes without
    having rewritten a loop has then not called the fixup, and is the same
    run whatever the fixup is. *)
Definition fixup_runs_iff_a_loop_was_rewritten : Prop :=
  forall run_frontend find_topo_order merge_adjacent_blocks
         compute_cfg_from_blocks remove_dels remove_dead rename_labels
         auto_parallel enable_inline_arraycall
         (fixup fixup' : M unit) fuel s r s',
    run run_frontend find_topo_order merge_adjacent_blocks
        compute_cfg_from_blocks remove_dels remove_dead rename_labels
        fixup auto_parallel enable_inline_arraycall fuel s
    = (Ok r, s') ->
    rewritten_loops r = [] ->
    run run_frontend find_topo_order merge_adjacent_blocks
        compute_cfg_from_blocks remove_dels remove_dead rename_labels
        fixup' auto_parallel enable_inline_arraycall fuel s
    = (Ok r, s').

(** C4, counterexample: on [def f(x): return (lambda y: x + y)(5)] the pass
    inlines the lambda and finds no loop to rewrite; it calls the fixup all
    the same, so that with a fixup that fails the run fails. *)
Lemma C4_counterexample : ~ fixup_runs_iff_a_loop_was_rewritten.
Proof.
  intros H.
  assert (E : exists s',
             run Examples.frontend Examples.topo_order_as_held (fun f => f)
                 Examples.no_loops (fun b => b) (fun b => (false, b))
                 (fun b => b) (ret tt) false true 10
                 (Examples.state_of Examples.caller_blocks)
             = (Ok (mkReport 1 []), s')).
  { eexists. vm_compute. reflexivity. }
  destruct E as (s' & E).
  specialize (H _ _ _ _ _ _ _ _ _ _ failing_fixup _ _ _ _ E eq_refl).
  vm_compute in H. discriminate H.
Qed.

Section Driver.

Variable run_frontend : Code -> FunctionIR * list (nat * list string).
Variable find_topo_order : list (Z * Block) -> list Z.
Variable merge_adjacent_blocks : FunctionIR -> FunctionIR.
Variable compute_cfg_from_blocks : list (Z * Block) -> analysis.CFGraph.
Variable auto_parallel : bool.
Variable enable_inline_arraycall : bool.

(** C4, amended: a run of the pass is made of the phases that inline
    closure calls and rewrite loops, which lead from the state [s] to a
    state [s1] and do not depend on the fixup or on the cleanups, and of
    what follows from [s1].  If these phases fail, the run fails with them.
    If they have inlined no call and rewritten no loop, the run ends in
    [s1]: neither the nested-array fixup nor the final cleanup is called.
    If they have inlined a call or rewritten a loop, the run is, from [s1]
    on, the fixup followed by the final cleanup when the loop-to-array
    rewrite is enabled, and the final cleanup alone when it is not. *)
Theorem C4_fixup_and_cleanup_follow_modified :
  forall fuel s,
  exists (r1 : outcome run_report) (s1 : State),
    forall remove_dels remove_dead rename_labels (fixup : M unit),
      let the_run :=
        run run_frontend find_topo_order merge_adjacent_blocks
            compute_cfg_from_blocks remove_dels remove_dead rename_labels
            fixup auto_parallel enable_inline_arraycall fuel s in
      let cleanup :=
        final_cleanup remove_dels remove_dead rename_labels fuel in
      match r1 with
      | Raise e => the_run = (Raise e, s1)
      | Ok r =>
          (enable_inline_arraycall = false -> rewritten_loops r = []) /\
          (inlined_calls r = 0%nat -> rewritten_loops r = [] ->
           the_run = (Ok r, s1)) /\
          ((0 < inlined_calls r)%nat \/ rewritten_loops r <> [] ->
           enable_inline_arraycall = true ->
           the_run = (fixup ;;; cleanup ;;; ret r)%M s1) /\
          ((0 < inlined_calls r)%nat \/ rewritten_loops r <> [] ->
           enable_inline_arraycall = false ->
           the_run = (cleanup ;;; ret r)%M s1)
      end.
Proof.
  intros fuel s.
  destruct (inline_all run_frontend find_topo_order fuel
                       (dict_keys (blocks (self_func_ir s))) 0 s)
    as [[inlined|e] s0] eqn:Hall.
  2:{ exists (Raise e), s0. intros remove_dels remove_dead rename_labels fixup the_run cleanup.
      subst the_run. unfold run.
      cbn [bindM gets]. now rewrite (bindM_eq _ Hall). }
  destruct enable_inline_arraycall eqn:Henable.
  - set (pre := (if negb (inlined =? 0)%nat
                 then set_func_ir merge_adjacent_blocks else ret tt)).
    assert (Hpre : exists s0', pre s0 = (Ok tt, s0')).
    { unfold pre, set_func_ir, modify, ret.
      destruct (negb (inlined =? 0)%nat); eauto. }
    destruct Hpre as (s0' & Hpre).
    destruct (inline_arraycalls auto_parallel
                (compute_cfg_from_blocks (blocks (self_func_ir s0')))
                (sorted_by_size
                   (map (fun kl => (fst kl, set_len (analysis.body (snd kl))))
                        (analysis.loops
                           (compute_cfg_from_blocks
                              (blocks (self_func_ir s0'))))))
                [] [] s0')
      as [[rw|e] s1] eqn:Hloops.
    2:{ exists (Raise e), s1. intros remove_dels remove_dead rename_labels fixup the_run cleanup.
      subst the_run. unfold run.
        cbn [bindM gets]. rewrite (bindM_eq _ Hall). fold pre.
        match goal with
        | |- bindM ?m _ s0 = _ => assert (Hmid : m s0 = (Raise e, s1))
        end.
        { rewrite (bindM_eq _ Hpre). cbn [bindM gets].
          now rewrite (bindM_eq _ Hloops). }
        now rewrite (bindM_eq _ Hmid). }
    exists (Ok (mkReport inlined rw)), s1. intros remove_dels remove_dead rename_labels fixup the_run cleanup.
      subst the_run cleanup.
    simpl inlined_calls. simpl rewritten_loops.
    assert (Hrun :
              run run_frontend find_topo_order merge_adjacent_blocks
                  compute_cfg_from_blocks remove_dels remove_dead
                  rename_labels fixup auto_parallel true fuel s
              = ((if negb (inlined =? 0)%nat
                     || negb (List.length rw =? 0)%nat
                  then fixup ;;;
                       final_cleanup remove_dels remove_dead rename_labels
                                     fuel ;;;
                       ret (mkReport inlined rw)
                  else ret (mkReport inlined rw))%M s1)).
    { unfold run. cbn [bindM gets]. rewrite (bindM_eq _ Hall). fold pre.
      match goal with
      | |- bindM ?m _ s0 = _ =>
          assert (Hmid :
                    m s0
                    = ((if negb (inlined =? 0)%nat
                           || negb (List.length rw =? 0)%nat
                        then fixup else ret tt) ;;;
                       ret (negb (inlined =? 0)%nat
                            || negb (List.length rw =? 0)%nat, rw))%M s1)
      end.
      { rewrite (bindM_eq _ Hpre). cbn [bindM gets].
        now rewrite (bindM_eq _ Hloops). }
      unfold bindM at 1. rewrite Hmid.
      destruct (negb (inlined =? 0)%nat || negb (List.length rw =? 0)%nat).
      - unfold bindM. destruct (fixup s1) as [[[]|e] s2];
          reflexivity.
      - reflexivity. }
    rewrite Hrun. split; [discriminate |]. split; [| split].
    + intros -> ->. reflexivity.
    + intros Hmod _.
      assert (negb (inlined =? 0)%nat || negb (List.length rw =? 0)%nat
              = true) as ->; [| reflexivity].
      apply orb_true_iff. rewrite !negb_true_iff, !Nat.eqb_neq.
      destruct Hmod as [Hmod | Hmod]; [left; lia | right].
      destruct rw; simpl; congruence.
    + discriminate.
  - exists (Ok (mkReport inlined [])), s0. intros remove_dels remove_dead rename_labels fixup the_run cleanup.
      subst the_run cleanup.
    simpl inlined_calls. simpl rewritten_loops.
    assert (Hrun :
              run run_frontend find_topo_order merge_adjacent_blocks
                  compute_cfg_from_blocks remove_dels remove_dead
                  rename_labels fixup auto_parallel false fuel s
              = ((if negb (inlined =? 0)%nat
                  then final_cleanup remove_dels remove_dead rename_labels
                                     fuel ;;;
                       ret (mkReport inlined [])
                  else ret (mkReport inlined []))%M s0)).
    { unfold run. cbn [bindM gets]. rewrite (bindM_eq _ Hall).
      cbn [bindM ret].
      destruct (negb (inlined =? 0)%nat); reflexivity. }
    rewrite Hrun. split; [reflexivity |]. split; [| split].
    + intros -> _. reflexivity.
    + discriminate.
    + intros Hmod _.
      assert (negb (inlined =? 0)%nat = true) as ->; [| reflexivity].
      rewrite negb_true_iff, Nat.eqb_neq.
      destruct Hmod as [Hmod | Hmod]; [lia | congruence].
Qed.

End Driver.

(** ** The scan of the exit block *)

Definition is_Del (stmt : Stmt) : bool :=
  match stmt with Del _ => true | _ => false end.

Definition is_SetItem (stmt : Stmt) : bool :=
  match stmt with SetItem _ _ _ => true | _ => false end.

(** The statement that makes an array of the list [lv]: a call of
    [np.array] on it, or the store of it into an array allocated by
    [unsafe_empty_inferred]. *)
Definition materializes (func_ir : FunctionIR) (lv : string)
           (kws : list (string * Operand)) (stmt : Stmt) : Prop :=
  (exists func args target,
      stmt = Assign (expr (call func (Var lv :: args) kws)) target
      /\ _find_numpy_call func_ir (expr (call func (Var lv :: args) kws))
         = Ok "array"%string)
  \/
  (exists target index array_def,
      stmt = SetItem target index (Var lv)
      /\ kws = []
      /\ _get_definition func_ir (Var target) = Ok array_def
      /\ _find_unsafe_empty_inferred func_ir array_def = Ok true).

Lemma guard_Some_inv {A B} (f : A -> outcome B) x b :
  guard f x = Ok (Some b) -> f x = Ok b.
Proof.
  unfold guard. destruct (f x) as [b'|[]]; try discriminate.
  now intros [= ->].
Qed.

(** What a successful scan of [rest], started at statement [i] with
    [found] in hand, has seen: the deletion of the list at position [d],
    and before it either nothing but assignments and deletions, or the
    statement that makes the array at position [k]. *)
Definition scan_found (func_ir : FunctionIR) (rest : list Stmt) (i : nat)
           (found : option arraycall_found) (f : arraycall_found) : Prop :=
  exists d,
    nth_error rest d = Some (Del (list_var f)) /\
    ((found = Some f /\
      forall j st, (j < d)%nat -> nth_error rest j = Some st ->
                   is_Assign st || is_Del st = true)
     \/
     (exists k stmt,
         (k < d)%nat /\ array_stmt_index f = (i + k)%nat /\
         nth_error rest k = Some stmt /\
         materializes func_ir (list_var f) (array_kws f) stmt /\
         (forall j st, (k < j < d)%nat -> nth_error rest j = Some st ->
                       is_Assign st || is_Del st = true) /\
         (forall j st, (j < k)%nat -> nth_error rest j = Some st ->
                       is_Assign st || is_Del st || is_SetItem st = true))).

(** One statement passed by the scan. *)
Lemma scan_found_step func_ir instr rest i found found' f :
  scan_found func_ir rest (S i) found' f ->
  is_Assign instr || is_Del instr || is_SetItem instr = true ->
  (found' = Some f ->
   (found = Some f /\ is_Assign instr || is_Del instr = true)
   \/ (array_stmt_index f = i
       /\ materializes func_ir (list_var f) (array_kws f) instr)) ->
  scan_found func_ir (instr :: rest) i found f.
Proof.
  intros (d & Hd & [(Hf & Hbefore) | Hright]) Hallowed Hhere.
  - exists (S d). split; [exact Hd |].
    destruct (Hhere Hf) as [(Hfound & Hok) | (Hidx & Hmat)].
    + left. split; [assumption |].
      intros [|j] st Hj Hst; simpl in Hst.
      * now injection Hst as <-.
      * eapply Hbefore; [| eassumption]. lia.
    + right. exists 0%nat, instr. repeat split.
      * lia.
      * lia.
      * assumption.
      * intros [|j] st Hj Hst; [lia |]. simpl in Hst.
        eapply Hbefore; [| eassumption]. lia.
      * intros j st Hj. lia.
  - destruct Hright
      as (k & stmt & Hk & Hidx & Hnth & Hmat & Hbetween & Hbefore).
    exists (S d). split; [exact Hd |].
    right. exists (S k), stmt. repeat split.
    + lia.
    + lia.
    + assumption.
    + assumption.
    + intros [|j] st Hj Hst; [lia |]. simpl in Hst.
      eapply Hbetween; [| eassumption]. lia.
    + intros [|j] st Hj Hst; simpl in Hst.
      * now injection Hst as <-.
      * eapply Hbefore; [| eassumption]. lia.
Qed.

Lemma scan_spec func_ir rest :
  forall i found f,
    _find_arraycall_scan func_ir rest i found = Ok (Some f, true) ->
    scan_found func_ir rest i found f.
Proof.
  induction rest as [|instr rest IH]; intros i found f H; simpl in H.
  - discriminate.
  - destruct instr as [e lhs| | | |value|target index value];
      try discriminate.
    + (* Assign *)
      apply bind_Ok_inv in H as (name & Hname & H).
      assert (Hkeep :
                _find_arraycall_scan func_ir rest (S i) found
                = Ok (Some f, true) ->
                scan_found func_ir (Assign e lhs :: rest) i found f).
      { intros Hrec. apply scan_found_step with (found' := found); auto. }
      destruct name as [attr|]; [| now apply Hkeep].
      destruct e as [o|[func args kws| | | | | | | | | | |]];
        try now apply Hkeep.
      destruct (string_dec attr "array") as [->|]; [| now apply Hkeep].
      destruct args as [|[y| | | |] args]; try discriminate;
        try now apply Hkeep.
      eapply scan_found_step; [apply IH; exact H | reflexivity |].
      intros [= <-]. right. split; [reflexivity |]. left.
      exists func, args, lhs. split; [reflexivity |].
      now apply guard_Some_inv.
    + (* Del *)
      destruct found as [f0|].
      * destruct (string_dec value (list_var f0)) as [->|].
        -- injection H as <-. exists 0%nat. split; [reflexivity |].
           left. split; [reflexivity |]. intros j st Hj. lia.
        -- eapply scan_found_step; [apply IH; exact H | reflexivity |].
           auto.
      * eapply scan_found_step; [apply IH; exact H | reflexivity |].
        discriminate.
    + (* SetItem *)
      destruct value as [y| | | |]; try discriminate.
      destruct found as [f0|]; [discriminate |].
      apply bind_Ok_inv in H as (array_def & Hdef & H).
      apply bind_Ok_inv in H as (inferred & Hinf & H).
      apply bind_Ok_inv in H as ([] & Hreq & H).
      apply require_Ok in Hreq.
      destruct inferred as [[|]|]; try discriminate.
      eapply scan_found_step; [apply IH; exact H | reflexivity |].
      intros [= <-]. right. split; [reflexivity |]. right.
      exists target, index, array_def. repeat split; auto.
      now apply guard_Some_inv.
Qed.

(** The scan does not look past a statement that is no assignment, no
    deletion and no indexed store. *)
Lemma scan_stops func_ir pre stmt rest :
  is_Assign stmt || is_Del stmt || is_SetItem stmt = false ->
  forall i found,
    _find_arraycall_scan func_ir (pre ++ stmt :: rest) i found
    = _find_arraycall_scan func_ir pre i found.
Proof.
  intros Hstmt. induction pre as [|instr pre IH]; intros i found.
  - destruct stmt; try discriminate; reflexivity.
  - simpl. destruct instr as [e lhs| | | |value|target index value];
      try reflexivity.
    + destruct (guard (_find_numpy_call func_ir) e) as [name|]; simpl;
        [| reflexivity].
      repeat break_match_goal; auto.
    + repeat break_match_goal; auto.
    + repeat break_match_goal; auto.
      destruct (_get_definition func_ir (Var target)); simpl; auto.
      destruct (guard (_find_unsafe_empty_inferred func_ir) a); simpl; auto.
      destruct (require _); simpl; auto.
Qed.

(** The claim of C5 on the deletion marker, as the spec states it: the
    statement right after the one that makes the array deletes the list. *)
Definition deletion_follows_immediately : Prop :=
  forall func_ir block lv idx kws,
    _find_arraycall func_ir block = Ok (lv, idx, kws) ->
    nth_error (ir.body block) (S idx) = Some (Del lv).

(** C5, counterexample: in [a = np.array(r); t = 1; del r] the scan matches
    although an assignment stands between the array call and the
    deletion. *)
Lemma C5_counterexample : ~ deletion_follows_immediately.
Proof.
  intros H.
  specialize (H Examples.loose_exit_ir Examples.loose_exit_block
                "r"%string 0%nat [] eq_refl).
  discriminate H.
Qed.

(** C5, amended: when the scan of the exit block matches, it has met a
    statement that makes an array of the list (a call of the array
    constructor on it, or the store of it into an array that comes from the
    type-inference-deferred allocation) and, later, a deletion marker of
    the list; between the two stand only assignments and deletion markers,
    and before the first only assignments, deletion markers and indexed
    stores.  A statement of any other shape ends the scan: nothing after it
    is read, and a block matches only if the part before it does. *)
Theorem C5_find_arraycall_shape :
  (forall func_ir block lv idx kws,
      _find_arraycall func_ir block = Ok (lv, idx, kws) ->
      exists stmt d,
        nth_error (ir.body block) idx = Some stmt /\
        materializes func_ir lv kws stmt /\
        (idx < d)%nat /\
        nth_error (ir.body block) d = Some (Del lv) /\
        (forall j st, (idx < j < d)%nat ->
                      nth_error (ir.body block) j = Some st ->
                      is_Assign st || is_Del st = true) /\
        (forall j st, (j < idx)%nat ->
                      nth_error (ir.body block) j = Some st ->
                      is_Assign st || is_Del st || is_SetItem st = true)) /\
  (forall func_ir sc pre stmt rest,
      is_Assign stmt || is_Del stmt || is_SetItem stmt = false ->
      _find_arraycall func_ir (mkBlock sc (pre ++ stmt :: rest))
      = _find_arraycall func_ir (mkBlock sc pre)) /\
  (forall func_ir sc pre,
      Forall (fun st => is_Del st = false) pre ->
      _find_arraycall func_ir (mkBlock sc pre) = Raise GuardException
      \/ exists e, e <> GuardException
                   /\ _find_arraycall func_ir (mkBlock sc pre) = Raise e).
Proof.
  split; [| split].
  - intros func_ir block lv idx kws H. unfold _find_arraycall in H.
    apply bind_Ok_inv in H as ([found dead] & Hscan & H).
    destruct found as [f|]; [| discriminate].
    apply bind_Ok_inv in H as ([] & Hreq & H). apply require_Ok in Hreq.
    subst dead. injection H as <- <- <-.
    apply scan_spec in Hscan as (d & Hd & [([=] & _) | Hright]).
    destruct Hright as (k & stmt & Hk & Hidx & Hnth & Hmat & Hbetween & Hbefore).
    simpl in Hidx. rewrite Hidx. exists stmt, d. repeat split; auto.
  - intros func_ir sc pre stmt rest H. unfold _find_arraycall. simpl.
    now rewrite scan_stops.
  - intros func_ir sc pre H. unfold _find_arraycall. simpl.
    destruct (_find_arraycall_scan func_ir pre 0 None)
      as [[found dead]|e] eqn:Hscan; simpl.
    + destruct found as [f|]; [| now left].
      destruct dead; [| now left].
      apply scan_spec in Hscan as (d & Hd & _).
      apply nth_error_In in Hd. rewrite Forall_forall in H.
      apply H in Hd. discriminate.
    + destruct (exn_eq_dec e GuardException) as [->|]; eauto.
Qed.

(** C5 on the exit block of
    [r = []; for i in range(5): r.append(i * 2); a = np.array(r)]. *)
Lemma C5_witness :
  exists stmt d,
    nth_error (ir.body Examples.exit_block) 2 = Some stmt /\
    materializes
      (self_func_ir (Examples.state_of Examples.range_stop_blocks))
      "r" [] stmt /\
    (2 < d)%nat /\
    nth_error (ir.body Examples.exit_block) d = Some (Del "r") /\
    (forall j st, (2 < j < d)%nat ->
                  nth_error (ir.body Examples.exit_block) j = Some st ->
                  is_Assign st || is_Del st = true) /\
    (forall j st, (j < 2)%nat ->
                  nth_error (ir.body Examples.exit_block) j = Some st ->
                  is_Assign st || is_Del st || is_SetItem st = true).
Proof.
  apply (proj1 C5_find_arraycall_shape
               (self_func_ir (Examples.state_of Examples.range_stop_blocks))
               Examples.exit_block "r"%string 2%nat []).
  vm_compute. reflexivity.
Defined.

(** ** The loop-to-array rewrite is all or nothing *)

(** A stateful computation that never raises the guard signal. *)
Definition never_mismatch {A} (m : M A) : Prop :=
  forall s, fst (m s) <> Raise GuardException.

Lemma nm_ret {A} (a : A) : never_mismatch (ret a).
Proof. intros s. discriminate. Qed.

Lemma nm_gets {A} (f : State -> A) : never_mismatch (gets f).
Proof. intros s. discriminate. Qed.

Lemma nm_modify (f : State -> State) : never_mismatch (modify f).
Proof. intros s. discriminate. Qed.

Lemma nm_lift {A} (r : outcome A) :
  r <> Raise GuardException -> never_mismatch (lift r).
Proof. intros H s. exact H. Qed.

Lemma nm_bind {A B} (m : M A) (k : A -> M B) :
  never_mismatch m -> (forall a, never_mismatch (k a)) ->
  never_mismatch (bindM m k).
Proof.
  intros Hm Hk s. unfold bindM. specialize (Hm s).
  destruct (m s) as [[a|e] s1]; simpl in *; [apply Hk |].
  intros [= ->]. now apply Hm.
Qed.

Lemma get_block_not_guard f label : get_block f label <> Raise GuardException.
Proof. unfold get_block. now destruct (dict_get Z.eq_dec (blocks f) label). Qed.

Lemma terminator_not_guard block : terminator block <> Raise GuardException.
Proof. unfold terminator. now destruct (rev (ir.body block)). Qed.

Lemma guard_not_guard {A B} (f : A -> outcome B) x :
  guard f x <> Raise GuardException.
Proof. unfold guard. now destruct (f x) as [b|[]]. Qed.

Lemma replace_append_not_guard append_stmt array_var index_var stmts :
  replace_append append_stmt array_var index_var stmts
  <> Raise GuardException.
Proof.
  induction stmts as [|stmt stmts IH]; simpl; [discriminate |].
  destruct (replace_append append_stmt array_var index_var stmts) as [r|e];
    repeat break_match_goal; simpl; congruence.
Qed.

Lemma nm_define sc name : never_mismatch (define sc name).
Proof. intros s. unfold define. now destruct (mem_string _ _). Qed.

Lemma nm_make_temp sc : never_mismatch (make_temp sc).
Proof. intros s. unfold make_temp. apply nm_define. Qed.

Lemma nm_set_func_ir f : never_mismatch (set_func_ir f).
Proof. apply nm_modify. Qed.

Lemma nm_set_definitions name defs : never_mismatch (set_definitions name defs).
Proof. apply nm_set_func_ir. Qed.

Lemma nm_set_block label block : never_mismatch (set_block label block).
Proof. apply nm_set_func_ir. Qed.

Create HintDb nm.

#[local] Hint Resolve nm_ret nm_gets nm_modify nm_define nm_make_temp
  nm_set_func_ir nm_set_definitions nm_set_block get_block_not_guard
  terminator_not_guard guard_not_guard replace_append_not_guard : nm.

(** The steps of a computation, one after the other. *)
Ltac nm_steps :=
  repeat first
    [ solve [auto with nm]
    | apply nm_lift; solve [auto with nm | discriminate]
    | apply nm_bind; [| intros ?]
    | match goal with
      | |- never_mismatch (match ?x with _ => _ end) => destruct x
      | |- never_mismatch (if ?x then _ else _) => destruct x
      | |- never_mismatch (let _ := _ in _) => cbv zeta
      end ].

Lemma nm_set_body label stmts : never_mismatch (set_body label stmts).
Proof. unfold set_body. nm_steps. Qed.

Lemma nm_new_definition var value : never_mismatch (_new_definition var value).
Proof. unfold _new_definition. nm_steps. Qed.

#[local] Hint Resolve nm_set_body nm_new_definition : nm.

Lemma nm_mark_prange func_var range_func_def stmts :
  never_mismatch (mark_prange func_var range_func_def stmts).
Proof. unfold mark_prange. nm_steps. Qed.

Lemma nm_rebind_removed removed array_var stmts :
  never_mismatch (rebind_removed removed array_var stmts).
Proof.
  revert stmts. induction removed as [|var removed IH]; intros stmts; simpl.
  - apply nm_ret.
  - nm_steps.
Qed.

Lemma nm_choose_index_var range_def iter_first_var sc stmts :
  never_mismatch (choose_index_var range_def iter_first_var sc stmts).
Proof. unfold choose_index_var. nm_steps. Qed.

#[local] Hint Resolve nm_mark_prange nm_rebind_removed
  nm_choose_index_var : nm.

Lemma nm_choose_size range_def iter_var enable_prange sc stmts :
  never_mismatch (choose_size range_def iter_var enable_prange sc stmts).
Proof. unfold choose_size. nm_steps. Qed.

Lemma nm_allocate_array dtype size_var sc stmts :
  never_mismatch (allocate_array dtype size_var sc stmts).
Proof. unfold allocate_array. nm_steps. Qed.

Lemma nm_update_index range_def loop iter_first_var index_var sc :
  never_mismatch (update_index range_def loop iter_first_var index_var sc).
Proof. unfold update_index. nm_steps. Qed.

Lemma nm_replace_array_call exit_block array_call_index array_var :
  never_mismatch (replace_array_call exit_block array_call_index array_var).
Proof. unfold replace_array_call. nm_steps. Qed.

#[local] Hint Resolve nm_choose_size nm_allocate_array nm_update_index
  nm_replace_array_call : nm.

(** Once every condition has been checked, no mismatch is signalled. *)
Lemma nm_inline_arraycall_rewrite loop m enable_prange :
  never_mismatch (_inline_arraycall_rewrite loop m enable_prange).
Proof. unfold _inline_arraycall_rewrite. nm_steps. Qed.

(** A computation whose result, when it returns, is [True]. *)
Definition returns_true (m : M bool) : Prop :=
  forall s b s', m s = (Ok b, s') -> b = true.

Lemma rt_bind {A} (m : M A) (k : A -> M bool) :
  (forall a, returns_true (k a)) -> returns_true (bindM m k).
Proof.
  intros Hk s b s' H. apply bindM_Ok_inv in H as (a & s1 & _ & H).
  eapply Hk; eassumption.
Qed.

Lemma inline_arraycall_true cfg visited loop enable_prange :
  returns_true (_inline_arraycall cfg visited loop enable_prange).
Proof.
  unfold _inline_arraycall, _inline_arraycall_rewrite.
  repeat (apply rt_bind; intros ?;
          repeat match goal with
                 | |- returns_true (match ?y with _ => _ end) => destruct y
                 | |- returns_true (let _ := _ in _) => cbv zeta
                 end).
  now intros st b st' [= <- <-].
Qed.

(** A mismatch of [_inline_arraycall] leaves the state as it was. *)
Lemma inline_arraycall_mismatch cfg visited loop enable_prange s s' :
  _inline_arraycall cfg visited loop enable_prange s
  = (Raise GuardException, s') ->
  s' = s
  /\ _inline_arraycall_match (self_func_ir s) cfg visited loop
     = Raise GuardException.
Proof.
  unfold _inline_arraycall. cbn [bindM gets lift].
  destruct (_inline_arraycall_match (self_func_ir s) cfg visited loop)
    as [m|e] eqn:Hm.
  - intros H. exfalso.
    apply (nm_inline_arraycall_rewrite loop m enable_prange s).
    now rewrite H.
  - intros [= -> <-]. auto.
Qed.

(** The claim of C1 in its last clause, as the spec states it: a candidate
    is either fully rewritten or left untouched. *)
Definition rewritten_or_untouched : Prop :=
  forall cfg visited loop enable_prange s r s',
    _inline_arraycall cfg visited loop enable_prange s = (r, s') ->
    r = Ok true \/ s' = s.

(** C1, counterexample: in
    [r = []; for i in range(5): r.append(); a = np.array(r)] every condition
    of the rewrite holds; the rewrite replaces the body of the loop entry
    (line 615) and then fails on [append_stmt.value.args[0]] (line 654) with
    an [IndexError]. *)
Lemma C1_counterexample : ~ rewritten_or_untouched.
Proof.
  intros H.
  destruct (H Examples.the_cfg [10%Z] Examples.the_loop false
              (Examples.state_of Examples.bare_append_blocks)
              (Raise IndexError)
              (snd (_inline_arraycall Examples.the_cfg [10%Z]
                      Examples.the_loop false
                      (Examples.state_of Examples.bare_append_blocks))))
    as [E | E].
  - vm_compute. reflexivity.
  - discriminate E.
  - apply (f_equal (fun st => List.length (_definitions (self_func_ir st))))
      in E.
    vm_compute in E. discriminate E.
Qed.

(** C1, amended: when [_inline_arraycall] signals a mismatch, the state it
    was given (every block and statement of the function IR, the
    definitions table, the scope, the counters) is the state it leaves; the
    mismatch is one of the matching part, which only reads, so that any
    failure of the matching part leaves the state as it was; and the
    rewriting part, which starts after the last [require], never signals a
    mismatch.  So the driver's [guard] ends in one of three ways: the
    candidate is skipped and nothing has changed; or the rewriting part has
    run to its end and returned [True]; or an exception that is no mismatch
    leaves the guard, and with it the pass. *)
Theorem C1_mismatch_leaves_ir_unchanged :
  (forall cfg visited loop enable_prange s s',
      _inline_arraycall cfg visited loop enable_prange s
      = (Raise GuardException, s') ->
      s' = s) /\
  (forall cfg visited loop enable_prange s s',
      guardM (_inline_arraycall cfg visited loop enable_prange) s
      = (Ok None, s') ->
      s' = s) /\
  (forall cfg visited loop enable_prange s,
      fst (_inline_arraycall cfg visited loop enable_prange s)
      = Raise GuardException <->
      _inline_arraycall_match (self_func_ir s) cfg visited loop
      = Raise GuardException) /\
  (forall loop m enable_prange s,
      fst (_inline_arraycall_rewrite loop m enable_prange s)
      <> Raise GuardException) /\
  (forall cfg visited loop enable_prange s e,
      _inline_arraycall_match (self_func_ir s) cfg visited loop = Raise e ->
      _inline_arraycall cfg visited loop enable_prange s = (Raise e, s)) /\
  (forall cfg visited loop enable_prange s r s',
      guardM (_inline_arraycall cfg visited loop enable_prange) s = (r, s') ->
      (r = Ok None /\ s' = s)
      \/ (r = Ok (Some true)
          /\ exists m,
              _inline_arraycall_match (self_func_ir s) cfg visited loop
              = Ok m
              /\ _inline_arraycall_rewrite loop m enable_prange s
                 = (Ok true, s'))
      \/ (exists e, r = Raise e /\ e <> GuardException)).
Proof.
  split; [| split; [| split; [| split; [| split]]]].
  - intros cfg visited loop enable_prange s s' H.
    now apply inline_arraycall_mismatch in H.
  - intros cfg visited loop enable_prange s s' H. unfold guardM in H.
    destruct (_inline_arraycall cfg visited loop enable_prange s)
      as [[b|e] s1] eqn:E; [discriminate |].
    destruct e; try discriminate. injection H as <-.
    now apply inline_arraycall_mismatch in E.
  - intros cfg visited loop enable_prange s. split.
    + destruct (_inline_arraycall cfg visited loop enable_prange s)
        as [r s1] eqn:E. simpl. intros ->.
      now apply inline_arraycall_mismatch in E.
    + intros H. unfold _inline_arraycall. cbn [bindM gets lift].
      now rewrite H.
  - intros loop m enable_prange. apply nm_inline_arraycall_rewrite.
  - intros cfg visited loop enable_prange s e H.
    unfold _inline_arraycall. cbn [bindM gets lift]. now rewrite H.
  - intros cfg visited loop enable_prange s r s' H. unfold guardM in H.
    destruct (_inline_arraycall cfg visited loop enable_prange s)
      as [[b|e] s1] eqn:E.
    + injection H as <- <-. right. left.
      pose proof (@inline_arraycall_true _ _ _ _ _ _ _ E) as ->.
      split; [reflexivity |].
      unfold _inline_arraycall in E. cbn [bindM gets lift] in E.
      destruct (_inline_arraycall_match (self_func_ir s) cfg visited loop)
        as [m|e]; [| discriminate].
      now exists m.
    + destruct (exn_eq_dec e GuardException) as [->|Hne].
      * injection H as <- <-. left. split; [reflexivity |].
        now apply inline_arraycall_mismatch in E.
      * right. right. exists e. split; [| assumption].
        destruct e; now injection H as <- _.
Qed.

(** C1 on a loop whose header has a predecessor besides the entry and the
    block of the append. *)
Lemma C1_witness :
  snd (_inline_arraycall Examples.branching_cfg [10%Z] Examples.the_loop
                         false (Examples.state_of Examples.range_stop_blocks))
  = Examples.state_of Examples.range_stop_blocks.
Proof.
  apply (proj1 C1_mismatch_leaves_ir_unchanged
               Examples.branching_cfg [10%Z] Examples.the_loop false).
  vm_compute. reflexivity.
Defined.

(** ** Labels of the merged function *)

Section DictFacts.
Context {K V : Type} (eq_dec : forall a b : K, {a = b} + {a <> b}).

Lemma dict_get_set (d : list (K * V)) k v k' :
  dict_get eq_dec (dict_set eq_dec d k v) k'
  = if eq_dec k' k then Some v else dict_get eq_dec d k'.
Proof.
  induction d as [|[k0 v0] d IH]; simpl.
  - destruct (eq_dec k' k); reflexivity.
  - destruct (eq_dec k k0) as [->|Hk]; simpl.
    + destruct (eq_dec k' k0); reflexivity.
    + destruct (eq_dec k' k0) as [->|Hk'].
      * destruct (eq_dec k0 k); [congruence | reflexivity].
      * exact IH.
Qed.

Lemma dict_keys_set_In (d : list (K * V)) k v k' :
  In k' (dict_keys (dict_set eq_dec d k v)) <-> k' = k \/ In k' (dict_keys d).
Proof.
  induction d as [|[k0 v0] d IH]; simpl.
  - intuition.
  - destruct (eq_dec k k0) as [->|Hk]; simpl.
    + intuition.
    + rewrite IH. intuition.
Qed.

Lemma dict_keys_set_NoDup (d : list (K * V)) k v :
  NoDup (dict_keys d) -> NoDup (dict_keys (dict_set eq_dec d k v)).
Proof.
  induction d as [|[k0 v0] d IH]; simpl; intros H.
  - constructor; [intros [] | constructor].
  - destruct (eq_dec k k0) as [->|Hk]; simpl; [assumption |].
    inversion H as [|? ? Hnot Hd]; subst. constructor; [| auto].
    intros Hin. apply dict_keys_set_In in Hin as [-> | Hin]; auto.
Qed.

Lemma dict_get_In (d : list (K * V)) k v :
  dict_get eq_dec d k = Some v -> In k (dict_keys d).
Proof.
  induction d as [|[k0 v0] d IH]; simpl; [discriminate |].
  destruct (eq_dec k k0) as [->|]; auto.
Qed.

End DictFacts.

Lemma fold_left_max_ge (l : list Z) (x : Z) :
  (x <= fold_left Z.max l x)%Z
  /\ forall y, In y l -> (y <= fold_left Z.max l x)%Z.
Proof.
  revert x. induction l as [|z l IH]; intros x; simpl.
  - split; [lia | intros y []].
  - destruct (IH (Z.max x z)) as [H1 H2]. split; [lia |].
    intros y [<- | Hy]; [lia | auto].
Qed.

Lemma python_max_ge (l : list Z) (m : Z) :
  python_max l = Ok m -> forall y, In y l -> (y <= m)%Z.
Proof.
  destruct l as [|x l]; simpl; [discriminate |].
  destruct (fold_left_max_ge l x) as [H1 H2].
  intros [= <-] y [<- | Hy]; auto.
Qed.

Lemma for_each_block_keys f blks blks' :
  for_each_block f blks = Ok blks' -> dict_keys blks' = dict_keys blks.
Proof.
  intros H. apply for_each_block_Ok in H.
  induction H as [|lb lb' l l' (Hl & _) _ IH]; simpl; congruence.
Qed.

Lemma replace_vars_keys blks var_dict :
  dict_keys (ir_utils.replace_vars blks var_dict) = dict_keys blks.
Proof.
  unfold ir_utils.replace_vars, dict_keys. rewrite map_map. reflexivity.
Qed.

Lemma add_offset_keys blks offset :
  dict_keys (ir_utils.add_offset_to_labels blks offset)
  = map (fun l => (l + offset)%Z) (dict_keys blks).
Proof.
  unfold ir_utils.add_offset_to_labels, dict_keys. now rewrite !map_map.
Qed.

Lemma replace_closure_keys func_ir code closure blks blks' :
  replace_closure func_ir code closure blks = Ok blks' ->
  dict_keys blks' = dict_keys blks.
Proof.
  unfold replace_closure. intros H.
  destruct closure as [c|]; [| now injection H as <-].
  apply bind_Ok_inv in H as (d & _ & H).
  repeat break_match_in H; try discriminate.
  now apply for_each_block_keys in H.
Qed.

(** What [merge_blocks] leaves: the labels of [topo_order], all labels of
    callee blocks, are added; no other entry of the table changes. *)
Lemma merge_blocks_spec sc callee_blocks topo_order :
  forall s s',
    merge_blocks sc callee_blocks topo_order s = (Ok tt, s') ->
    (forall l, In l (dict_keys (blocks (self_func_ir s')))
               <-> In l (dict_keys (blocks (self_func_ir s)))
                   \/ In l topo_order) /\
    (forall l, ~ In l topo_order ->
               dict_get Z.eq_dec (blocks (self_func_ir s')) l
               = dict_get Z.eq_dec (blocks (self_func_ir s)) l) /\
    (NoDup (dict_keys (blocks (self_func_ir s))) ->
     NoDup (dict_keys (blocks (self_func_ir s')))) /\
    _max_label s' = _max_label s /\
    (forall l, In l topo_order -> In l (dict_keys callee_blocks)).
Proof.
  induction topo_order as [|label rest IH]; intros s s' H; simpl in H.
  - injection H as <-.
    split; [| split; [| split; [| split]]]; auto;
      try (intros l; simpl; tauto).
  - destruct (dict_get Z.eq_dec callee_blocks label) as [block|] eqn:Hget;
      [| discriminate].
    cbn [bindM _add_definitions set_func_ir modify set_block] in H.
    apply IH in H as (Hkeys & Hget' & Hnodup & Hmax & Hin). simpl in *.
    split; [| split; [| split; [| split]]].
    + intros l. rewrite Hkeys, dict_keys_set_In. intuition.
    + intros l Hl. rewrite Hget' by tauto. rewrite dict_get_set.
      destruct (Z.eq_dec l label) as [->|]; [| reflexivity]. tauto.
    + intros Hnd. apply Hnodup. now apply dict_keys_set_NoDup.
    + assumption.
    + intros l [<- | Hl]; [| auto]. eapply dict_get_In; eassumption.
Qed.

Lemma make_var_dict_Ok sc fv names var_dict s d s' :
  make_var_dict sc fv names var_dict s = (Ok d, s') ->
  self_func_ir s' = self_func_ir s /\ _max_label s' = _max_label s.
Proof. intros H. apply make_var_dict_spec in H. tauto. Qed.

Lemma set_body_Ok label stmts s s' :
  set_body label stmts s = (Ok tt, s') ->
  exists blk,
    get_block (self_func_ir s) label = Ok blk /\
    s' = mkState
           (mkFunctionIR
              (dict_set Z.eq_dec (blocks (self_func_ir s)) label
                        (mkBlock (scope blk) stmts))
              (_definitions (self_func_ir s)))
           (localvars s) (_max_label s) (_unique_var_count s).
Proof.
  unfold set_body. cbn [bindM gets lift].
  destruct (get_block (self_func_ir s) label) as [blk|]; [| discriminate].
  intros [= <-]. eauto.
Qed.

Lemma python_max_In (l : list Z) (m : Z) :
  python_max l = Ok m -> exists y, In y l.
Proof. destruct l as [|x l]; [discriminate | simpl; eauto]. Qed.

Section C7.
Variable run_frontend : Code -> FunctionIR * list (nat * list string).
Variable find_topo_order : list (Z * Block) -> list Z.

(** C7: when [inline_closure_call] returns, the labels of the callee blocks
    it has merged are labels of the frontend's blocks shifted by the
    caller's maximum label plus one; with callee labels that are not
    negative, every new label (the callee's and the successor block's) is
    above every label the caller had, so no block of the caller is
    overwritten (all but the split one are as they were), the labels of the
    table stay distinct, and the label counter of [ir_utils] ends at the
    successor block's label, above or equal to every label of the table. *)
Theorem C7_labels_stay_unique :
  forall label i code closure defaults s new_blocks s',
    inline_closure_call run_frontend find_topo_order label i
                        (make_function code closure defaults) s
    = (Ok new_blocks, s') ->
    (forall l, In l (dict_keys (blocks (fst (run_frontend code)))) ->
               (0 <= l)%Z) ->
    exists max_label new_label topo_order,
      python_max (dict_keys (blocks (self_func_ir s))) = Ok max_label /\
      new_blocks = new_label :: topo_order /\
      (forall l', In l' topo_order ->
                  exists l,
                    In l (dict_keys (blocks (fst (run_frontend code))))
                    /\ l' = (l + (max_label + 1))%Z) /\
      (forall l l', In l (dict_keys (blocks (self_func_ir s))) ->
                    In l' new_blocks -> (l < l')%Z) /\
      (forall l', In l' topo_order -> (l' < new_label)%Z) /\
      (forall l, In l (dict_keys (blocks (self_func_ir s')))
                 <-> In l (dict_keys (blocks (self_func_ir s)))
                     \/ In l new_blocks) /\
      (forall l, In l (dict_keys (blocks (self_func_ir s))) -> l <> label ->
                 dict_get Z.eq_dec (blocks (self_func_ir s')) l
                 = dict_get Z.eq_dec (blocks (self_func_ir s)) l) /\
      (NoDup (dict_keys (blocks (self_func_ir s))) ->
       NoDup (dict_keys (blocks (self_func_ir s')))) /\
      _max_label s' = new_label /\
      (forall l, In l (dict_keys (blocks (self_func_ir s'))) ->
                 (l <= _max_label s')%Z).
Proof.
  intros label i code closure defaults s new_blocks s' H Hnonneg.
  unfold inline_closure_call, get_ir_of_code in H.
  cbn [bindM gets] in H.
  apply bindM_Ok_inv in H as (block & s0 & Hblock & H).
  apply lift_Ok_inv in Hblock as [Hblock ->].
  destruct (nth_error (ir.body block) i) as [instr|] eqn:Hinstr;
    [| discriminate].
  destruct instr as [[o|[func call_args kws| | | | | | | | | | |]] target
                    | | | | |]; try discriminate.
  apply bindM_Ok_inv in H as (max_label & s0 & Hmax & H).
  apply lift_Ok_inv in Hmax as [Hmax ->].
  set (cb := ir_utils.add_offset_to_labels _ (max_label + 1)) in *.
  apply bindM_Ok_inv in H as (min_label & s0 & Hmin & H).
  apply lift_Ok_inv in Hmin as [Hmin ->].
  apply bindM_Ok_inv in H as (mx & s0 & Hmx & H).
  apply lift_Ok_inv in Hmx as [Hmx ->].
  apply bindM_Ok_inv in H as ([] & s1 & Hs1 & H).
  injection Hs1 as <-.
  destruct (_get_all_scopes cb) as [|callee_scope [|]]; try discriminate.
  apply bindM_Ok_inv in H as (var_dict & s2 & Hvd & H).
  apply make_var_dict_Ok in Hvd as [Hir2 Hml2]. simpl in Hir2, Hml2.
  apply bindM_Ok_inv in H as (args & s0 & Hargs & H).
  apply lift_Ok_inv in Hargs as [Hargs ->].
  apply bindM_Ok_inv in H as (cb1 & s0 & Hcb1 & H).
  apply lift_Ok_inv in Hcb1 as [Hcb1 ->].
  apply bindM_Ok_inv in H as (cb2 & s0 & Hcb2 & H).
  apply lift_Ok_inv in Hcb2 as [Hcb2 ->].
  apply bindM_Ok_inv in H as (new_label & s3 & Hnl & H).
  unfold ir_utils.next_label in Hnl. injection Hnl as <- <-.
  apply bindM_Ok_inv in H as ([] & s4 & Hs4 & H).
  injection Hs4 as <-.
  apply bindM_Ok_inv in H as ([] & s5 & Hs5 & H).
  apply set_body_Ok in Hs5 as (blk & Hblk & ->).
  apply bindM_Ok_inv in H as (cb3 & s0 & Hcb3 & H).
  apply lift_Ok_inv in Hcb3 as [Hcb3 ->].
  cbn [bindM gets] in H.
  apply bindM_Ok_inv in H as ([] & s6 & Hs6 & H).
  apply bindM_Ok_inv in H as ([] & s7 & Hmerge & H).
  injection H as <- <-.
  assert (Hb6 : blocks (self_func_ir s6)
                = dict_set Z.eq_dec
                    (dict_set Z.eq_dec (blocks (self_func_ir s))
                              (mx + 1)%Z
                              (mkBlock (scope block)
                                       (skipn (S i) (ir.body block))))
                    label
                    (mkBlock (scope blk)
                             (firstn i (ir.body block) ++ [Jump min_label]))
                /\ _max_label s6 = (mx + 1)%Z).
  { rewrite Hir2, Hml2 in Hs6.
    destruct (dict_mem string_dec _ target); injection Hs6 as <-;
      simpl; auto. }
  destruct Hb6 as [Hb6 Hml6].
  apply merge_blocks_spec in Hmerge
    as (Hkeys & Hget & Hnodup & Hml7 & Htopo).
  rewrite Hml2. rewrite Hb6 in Hkeys, Hget, Hnodup.
  assert (Hcbkeys : dict_keys cb3 = map (fun l => (l + (max_label + 1))%Z)
                                        (dict_keys (blocks (fst (run_frontend code))))).
  { apply for_each_block_keys in Hcb3. rewrite Hcb3.
    apply replace_closure_keys in Hcb2. rewrite Hcb2.
    apply for_each_block_keys in Hcb1. rewrite Hcb1.
    rewrite replace_vars_keys. apply add_offset_keys. }
  assert (Hcallee : forall l', In l' (find_topo_order cb2) ->
                     exists l,
                       In l (dict_keys (blocks (fst (run_frontend code))))
                       /\ l' = (l + (max_label + 1))%Z).
  { intros l' Hl'. apply Htopo in Hl'. rewrite Hcbkeys in Hl'.
    apply in_map_iff in Hl' as (l & <- & Hl). eauto. }
  assert (Hcaller : forall l, In l (dict_keys (blocks (self_func_ir s))) ->
                              (l <= max_label)%Z).
  { intros l Hl. eapply python_max_ge; eassumption. }
  assert (Hcbmx : forall l', In l' (dict_keys cb) -> (l' <= mx)%Z).
  { intros l' Hl'. eapply python_max_ge; eassumption. }
  assert (Hcb_eq : dict_keys cb = dict_keys cb3).
  { rewrite Hcbkeys. apply add_offset_keys. }
  assert (Hmx_gt : (max_label < mx)%Z).
  { destruct (python_max_In _ Hmx) as (y & Hy).
    pose proof (Hcbmx y Hy) as Hle.
    unfold cb in Hy. rewrite add_offset_keys in Hy.
    apply in_map_iff in Hy as (l & <- & Hl). apply Hnonneg in Hl. lia. }
  assert (Htopo_lt : forall l', In l' (find_topo_order cb2) ->
                                (max_label < l' <= mx)%Z).
  { intros l' Hl'. split.
    - destruct (Hcallee l' Hl') as (l & Hl & ->). apply Hnonneg in Hl. lia.
    - apply Hcbmx. rewrite Hcb_eq. now apply Htopo. }
  assert (Hlabel : In label (dict_keys (blocks (self_func_ir s)))).
  { unfold get_block in Hblock.
    destruct (dict_get Z.eq_dec (blocks (self_func_ir s)) label) eqn:E;
      [| discriminate].
    eapply dict_get_In; eassumption. }
  exists max_label, (mx + 1)%Z, (find_topo_order cb2).
  split; [assumption |]. split; [reflexivity |].
  split; [assumption |].
  split.
  { intros l l' Hl [<- | Hl']; apply Hcaller in Hl; [lia |].
    apply Htopo_lt in Hl'. lia. }
  split.
  { intros l' Hl'. apply Htopo_lt in Hl'. lia. }
  split.
  { intros l. rewrite Hkeys, !dict_keys_set_In. simpl.
    split; [| intuition].
    intros [[-> | [-> | Hl]] | Hl]; auto. }
  split.
  { intros l Hl Hne. rewrite Hget.
    - rewrite !dict_get_set.
      destruct (Z.eq_dec l label); [contradiction |].
      destruct (Z.eq_dec l (mx + 1)) as [->|]; [| reflexivity].
      apply Hcaller in Hl. lia.
    - intros Hl'. apply Htopo_lt in Hl'. apply Hcaller in Hl. lia. }
  split.
  { intros Hnd. apply Hnodup. now do 2 apply dict_keys_set_NoDup. }
  split.
  { congruence. }
  intros l Hl. rewrite Hml7, Hml6.
  apply Hkeys in Hl. rewrite !dict_keys_set_In in Hl.
  destruct Hl as [[-> | [-> | Hl]] | Hl].
  - apply Hcaller in Hlabel. lia.
  - lia.
  - apply Hcaller in Hl. lia.
  - apply Htopo_lt in Hl. lia.
Qed.

End C7.

Definition inline_lambda_example : outcome (list Z) * State :=
  inline_closure_call Examples.frontend Examples.topo_order_as_held 0 4
    (make_function Examples.lambda_code (Some "$0.1"%string)
                   (defaults_other PNone))
    (Examples.state_of Examples.caller_blocks).

(** C7 on [def f(x): return (lambda y: x + y)(5)]. *)
Lemma C7_witness :
  exists max_label new_label topo_order,
    python_max (dict_keys (blocks (self_func_ir
                  (Examples.state_of Examples.caller_blocks))))
    = Ok max_label /\
    [2%Z; 1%Z] = new_label :: topo_order /\
    (forall l', In l' topo_order ->
                exists l,
                  In l (dict_keys (blocks (fst (Examples.frontend
                                                  Examples.lambda_code))))
                  /\ l' = (l + (max_label + 1))%Z) /\
    (forall l l', In l (dict_keys (blocks (self_func_ir
                          (Examples.state_of Examples.caller_blocks)))) ->
                  In l' [2%Z; 1%Z] -> (l < l')%Z) /\
    (forall l', In l' topo_order -> (l' < new_label)%Z) /\
    (forall l, In l (dict_keys (blocks (self_func_ir
                                          (snd inline_lambda_example))))
               <-> In l (dict_keys (blocks (self_func_ir
                            (Examples.state_of Examples.caller_blocks))))
                   \/ In l [2%Z; 1%Z]) /\
    (forall l, In l (dict_keys (blocks (self_func_ir
                          (Examples.state_of Examples.caller_blocks)))) ->
               l <> 0%Z ->
               dict_get Z.eq_dec
                        (blocks (self_func_ir (snd inline_lambda_example))) l
               = dict_get Z.eq_dec
                          (blocks (self_func_ir
                             (Examples.state_of Examples.caller_blocks))) l) /\
    (NoDup (dict_keys (blocks (self_func_ir
                         (Examples.state_of Examples.caller_blocks)))) ->
     NoDup (dict_keys (blocks (self_func_ir (snd inline_lambda_example))))) /\
    _max_label (snd inline_lambda_example) = new_label /\
    (forall l, In l (dict_keys (blocks (self_func_ir
                                          (snd inline_lambda_example)))) ->
               (l <= _max_label (snd inline_lambda_example))%Z).
Proof.
  apply (@C7_labels_stay_unique
           Examples.frontend Examples.topo_order_as_held 0%Z 4%nat
           Examples.lambda_code (Some "$0.1"%string) (defaults_other PNone)
           (Examples.state_of Examples.caller_blocks)
           [2%Z; 1%Z] (snd inline_lambda_example)).
  - vm_compute. reflexivity.
  - intros l H. vm_compute in H. destruct H as [<- | []]. lia.
Defined.

(** ** The blocks through the rewrite *)

(** A stateful computation that leaves the blocks of the function as they
    are, whatever its outcome. *)
Definition keeps_blocks {A} (m : M A) : Prop :=
  forall s r s',
    m s = (r, s') -> blocks (self_func_ir s') = blocks (self_func_ir s).

Lemma kb_ret {A} (a : A) : keeps_blocks (ret a).
Proof. intros s r s' [= <- <-]. reflexivity. Qed.

Lemma kb_gets {A} (f : State -> A) : keeps_blocks (gets f).
Proof. intros s r s' [= <- <-]. reflexivity. Qed.

Lemma kb_lift {A} (r : outcome A) : keeps_blocks (lift r).
Proof. intros s r' s' [= <- <-]. reflexivity. Qed.

Lemma kb_bind {A B} (m : M A) (k : A -> M B) :
  keeps_blocks m -> (forall a, keeps_blocks (k a)) ->
  keeps_blocks (bindM m k).
Proof.
  intros Hm Hk s r s' H.
  apply bindM_inv in H as [(e & H & _) | (a & s1 & H1 & H2)].
  - eapply Hm; eassumption.
  - apply Hm in H1. apply Hk in H2. congruence.
Qed.

Lemma kb_define sc name : keeps_blocks (define sc name).
Proof.
  intros s r s'. unfold define.
  destruct (mem_string _ _); intros [= <- <-]; reflexivity.
Qed.

Lemma kb_make_temp sc : keeps_blocks (make_temp sc).
Proof. intros s r s'. unfold make_temp. apply kb_define. Qed.

Lemma kb_set_definitions name defs : keeps_blocks (set_definitions name defs).
Proof. intros s r s' [= <- <-]. reflexivity. Qed.

Create HintDb kb.

#[local] Hint Resolve kb_ret kb_gets kb_lift kb_define kb_make_temp
  kb_set_definitions : kb.

Ltac kb_steps :=
  repeat first
    [ solve [auto with kb]
    | apply kb_bind; [| intros ?]
    | match goal with
      | |- keeps_blocks (match ?x with _ => _ end) => destruct x
      | |- keeps_blocks (if ?x then _ else _) => destruct x
      | |- keeps_blocks (let _ := _ in _) => cbv zeta
      end ].

Lemma kb_new_definition var value : keeps_blocks (_new_definition var value).
Proof. unfold _new_definition. kb_steps. Qed.

#[local] Hint Resolve kb_new_definition : kb.

Lemma kb_choose_index_var range_def iter_first_var sc stmts :
  keeps_blocks (choose_index_var range_def iter_first_var sc stmts).
Proof. unfold choose_index_var. kb_steps. Qed.

Lemma kb_allocate_array dtype size_var sc stmts :
  keeps_blocks (allocate_array dtype size_var sc stmts).
Proof. unfold allocate_array. kb_steps. Qed.

Lemma kb_rebind_removed removed array_var stmts :
  keeps_blocks (rebind_removed removed array_var stmts).
Proof.
  revert stmts. induction removed as [|var removed IH]; intros stmts; simpl.
  - apply kb_ret.
  - kb_steps.
Qed.

Definition blocks_retargeted (s s' : State) : Prop :=
  blocks (self_func_ir s') = blocks (self_func_ir s)
  \/ exists holder name value,
      blocks (self_func_ir s')
      = blocks (retarget_object holder (atom (Global name value))
                                (atom (Global "prange" prange))
                                (self_func_ir s)).

Lemma mark_prange_spec func_var range_func_def stmts s r s' :
  mark_prange func_var range_func_def stmts s = (r, s') ->
  (exists stmts', r = Ok stmts') /\ blocks_retargeted s s'.
Proof.
  unfold mark_prange, blocks_retargeted. cbn [bindM gets].
  destruct range_func_def as [[]|];
    try solve [intros [= <- <-]; split; [eauto | auto]].
  destruct (get_definition_lhs_only (self_func_ir s) (Var func_var))
    as [[]|]; try solve [intros [= <- <-]; split; [eauto | auto]].
  cbn. intros [= <- <-]. split; [eauto |]. right. simpl. eauto.
Qed.

(** [choose_size] leaves the blocks as they are, or as they are after the
    range global has become [prange]. *)
Lemma choose_size_blocks range_def iter_var enable_prange sc stmts s r s' :
  choose_size range_def iter_var enable_prange sc stmts s = (r, s') ->
  blocks_retargeted s s'.
Proof.
  unfold choose_size. intros H.
  apply bindM_inv in H as [(e & H & _) | (size_var & s1 & H1 & H)].
  { left. eapply kb_make_temp; eassumption. }
  apply kb_make_temp in H1.
  assert (Hkb : forall (m : M (Value * list Stmt)),
             keeps_blocks m ->
             bindM m (fun x => match x with
                               | (size_val, stmts0) =>
                                   bindM (_new_definition size_var size_val)
                                         (fun st => ret (size_var, stmts0 ++ [st]))
                               end) s1 = (r, s') ->
             blocks_retargeted s s').
  { intros m Hm Hrun. left. rewrite <- H1. revert Hrun. kb_steps. }
  destruct range_def as [[[start stop] [func_var range_func_def]]|].
  - destruct enable_prange.
    + apply bindM_inv in H as [(e & H & _) | ([size_val stmts'] & s2 & H2 & H)].
      * apply bindM_inv in H as [(e' & H & _) | (st & s2 & H2 & H)];
          [| discriminate].
        apply mark_prange_spec in H as [(x & Hx) _]. discriminate.
      * apply bindM_inv in H2 as [(e' & H2 & [=]) | (st & s3 & H3 & H2)].
        injection H2 as _ _ <-.
        assert (Hs2 : blocks (self_func_ir s') = blocks (self_func_ir s3)).
        { revert H. kb_steps. }
        apply mark_prange_spec in H3 as [_ H3].
        unfold blocks_retargeted in *. rewrite Hs2.
        destruct H3 as [H3 | (h & n & v & H3)];
          [left | right; exists h, n, v]; simpl in *; congruence.
    + apply Hkb in H; [assumption |]. kb_steps.
  - apply Hkb in H; [assumption |]. kb_steps.
Qed.

(** The statement at a position of a block, and the branch that ends a
    block. *)
Definition stmt_at (blks : list (Z * Block)) (label : Z) (idx : nat)
           (stmt : Stmt) : Prop :=
  exists blk,
    dict_get Z.eq_dec blks label = Some blk
    /\ nth_error (ir.body blk) idx = Some stmt.

Definition branch_at (blks : list (Z * Block)) (label : Z) (cond : string)
           (truebr falsebr : Z) : Prop :=
  exists blk,
    dict_get Z.eq_dec blks label = Some blk
    /\ terminator blk = Ok (Branch cond truebr falsebr).

Lemma get_block_dict_get f label blk :
  get_block f label = Ok blk <-> dict_get Z.eq_dec (blocks f) label = Some blk.
Proof.
  unfold get_block. destruct (dict_get Z.eq_dec (blocks f) label);
    split; intros [=]; congruence.
Qed.

Lemma dict_get_map_blocks (g : Block -> Block) blks label :
  dict_get Z.eq_dec (map (fun lb : Z * Block => (fst lb, g (snd lb))) blks)
           label
  = option_map g (dict_get Z.eq_dec blks label).
Proof.
  induction blks as [|[l b] blks IH]; simpl; [reflexivity |].
  destruct (Z.eq_dec label l); [reflexivity | exact IH].
Qed.

Lemma retarget_stmt_keeps holder old new stmt :
  (forall o t, stmt <> Assign (atom o) t) ->
  retarget_stmt holder (atom old) new stmt = stmt.
Proof.
  intros H. destruct stmt as [[o|e] t| | | | |]; try reflexivity.
  - now elim (H o t).
  - simpl. destruct (string_dec t holder); [| reflexivity].
    unfold Value_eqb. destruct (Value_eq_dec (expr e) (atom old));
      [discriminate | reflexivity].
Qed.

Lemma retarget_stmt_Branch holder old new stmt c t f :
  retarget_stmt holder old new stmt = Branch c t f -> stmt = Branch c t f.
Proof.
  destruct stmt; simpl; try congruence.
  repeat break_match_goal; congruence.
Qed.

Lemma stmt_at_retargeted s s' label idx stmt :
  blocks_retargeted s s' ->
  (forall o t, stmt <> Assign (atom o) t) ->
  stmt_at (blocks (self_func_ir s)) label idx stmt ->
  stmt_at (blocks (self_func_ir s')) label idx stmt.
Proof.
  intros [-> | (h & n & v & ->)] Hstmt (blk & Hblk & Hnth); [now exists blk |].
  simpl.
  exists (mkBlock (scope blk)
                  (map (retarget_stmt h (atom (Global n v))
                                      (atom (Global "prange" prange)))
                       (ir.body blk))).
  split.
  - rewrite (dict_get_map_blocks
               (fun b => mkBlock (scope b)
                           (map (retarget_stmt h (atom (Global n v))
                                               (atom (Global "prange" prange)))
                                (ir.body b)))).
    now rewrite Hblk.
  - simpl. rewrite nth_error_map, Hnth. simpl.
    now rewrite retarget_stmt_keeps.
Qed.

Lemma branch_at_retargeted s s' label c t f :
  blocks_retargeted s s' ->
  branch_at (blocks (self_func_ir s')) label c t f ->
  branch_at (blocks (self_func_ir s)) label c t f.
Proof.
  intros [-> | (h & n & v & ->)] (blk & Hblk & Hterm); [now exists blk |].
  simpl in Hblk.
  rewrite (dict_get_map_blocks
             (fun b => mkBlock (scope b)
                         (map (retarget_stmt h (atom (Global n v))
                                             (atom (Global "prange" prange)))
                              (ir.body b)))) in Hblk.
  destruct (dict_get Z.eq_dec (blocks (self_func_ir s)) label) as [b|] eqn:E;
    [| discriminate].
  injection Hblk as <-. exists b. split; [exact E |].
  unfold terminator in *. simpl in Hterm. rewrite <- map_rev in Hterm.
  destruct (rev (ir.body b)) as [|t0 l]; simpl in Hterm; [discriminate |].
  injection Hterm as Hterm. apply retarget_stmt_Branch in Hterm. congruence.
Qed.

Lemma stmt_at_set_other blks label idx stmt label' blk' :
  label <> label' ->
  stmt_at blks label idx stmt ->
  stmt_at (dict_set Z.eq_dec blks label' blk') label idx stmt.
Proof.
  intros Hne (blk & Hblk & Hnth). exists blk. split; [| assumption].
  rewrite dict_get_set. now destruct (Z.eq_dec label label').
Qed.

Lemma branch_at_set_other blks label c t f label' blk' :
  label <> label' ->
  branch_at blks label c t f ->
  branch_at (dict_set Z.eq_dec blks label' blk') label c t f.
Proof.
  intros Hne (blk & Hblk & Hterm). exists blk. split; [| assumption].
  rewrite dict_get_set. now destruct (Z.eq_dec label label').
Qed.

Lemma set_body_blocks label stmts s s' :
  set_body label stmts s = (Ok tt, s') ->
  exists blk,
    blocks (self_func_ir s')
    = dict_set Z.eq_dec (blocks (self_func_ir s)) label
               (mkBlock (scope blk) stmts)
    /\ _definitions (self_func_ir s') = _definitions (self_func_ir s).
Proof.
  intros H. apply set_body_Ok in H as (blk & _ & ->). simpl. eauto.
Qed.








(** ** The index and the size of the array *)

Definition in_block (blks : list (Z * Block)) (label : Z) (stmt : Stmt)
  : Prop :=
  exists blk,
    dict_get Z.eq_dec blks label = Some blk /\ In stmt (ir.body blk).

Lemma stmt_at_in_block blks label idx stmt :
  stmt_at blks label idx stmt -> in_block blks label stmt.
Proof.
  intros (blk & Hblk & Hnth). exists blk. split; [assumption |].
  eapply nth_error_In; eassumption.
Qed.

Lemma in_block_stmt_at blks label stmt :
  in_block blks label stmt -> exists idx, stmt_at blks label idx stmt.
Proof.
  intros (blk & Hblk & Hin). apply In_nth_error in Hin as (idx & Hnth).
  exists idx, blk. auto.
Qed.

Lemma in_block_set_other blks label stmt label' blk' :
  label <> label' ->
  in_block blks label stmt ->
  in_block (dict_set Z.eq_dec blks label' blk') label stmt.
Proof.
  intros Hne (blk & Hblk & Hin). exists blk. split; [| assumption].
  rewrite dict_get_set. now destruct (Z.eq_dec label label').
Qed.

Lemma in_block_set_same blks label stmt blk' :
  In stmt (ir.body blk') ->
  in_block (dict_set Z.eq_dec blks label blk') label stmt.
Proof.
  intros Hin. exists blk'. split; [| assumption].
  rewrite dict_get_set. destruct (Z.eq_dec label label); congruence.
Qed.

Lemma in_block_retargeted s s' label stmt :
  blocks_retargeted s s' ->
  (forall o t, stmt <> Assign (atom o) t) ->
  in_block (blocks (self_func_ir s)) label stmt ->
  in_block (blocks (self_func_ir s')) label stmt.
Proof.
  intros Hr Hstmt Hin. apply in_block_stmt_at in Hin as (idx & Hat).
  eapply stmt_at_in_block, stmt_at_retargeted; eassumption.
Qed.

(** *** What matching knows of the append statement *)

Definition is_call_assign (stmt : Stmt) : Prop :=
  exists func args kws target,
    stmt = Assign (expr (call func args kws)) target.

Lemma foldM_invariant {S X} (f : S -> X -> outcome S) (P : S -> Prop)
      (Q : X -> Prop) (l : list X) :
  (forall acc x acc', P acc -> Q x -> f acc x = Ok acc' -> P acc') ->
  Forall Q l ->
  forall acc acc', P acc -> foldM f l acc = Ok acc' -> P acc'.
Proof.
  intros Hstep HQ. induction HQ as [|x l Hx _ IH]; intros acc acc' Hacc H;
    simpl in H.
  - now injection H as <-.
  - apply bind_Ok_inv in H as (acc1 & H1 & H). eauto.
Qed.

Lemma check_append_invariant func_ir list_var_def label block :
  get_block func_ir label = Ok block ->
  forall acc stmt acc',
    Forall (fun ls => is_call_assign (snd ls)
                      /\ in_block (blocks func_ir) (fst ls) (snd ls))
           (fst acc) ->
    In stmt (ir.body block) ->
    check_append func_ir list_var_def label acc stmt = Ok acc' ->
    Forall (fun ls => is_call_assign (snd ls)
                      /\ in_block (blocks func_ir) (fst ls) (snd ls))
           (fst acc').
Proof.
  intros Hblock acc stmt acc' Hacc Hin H. unfold check_append in H.
  destruct stmt as [[o|[func args kws| | | | | | | | | | |]] lhs| | | | |];
    try (now injection H as <-).
  apply bind_Ok_inv in H as (func_def & _ & H).
  destruct func_def as [o|[]]; try (now injection H as <-).
  destruct (string_dec attr "append"); [| now injection H as <-].
  apply bind_Ok_inv in H as (list_def & _ & H).
  destruct (same_object list_def list_var_def); injection H as <-;
    [| assumption].
  simpl. apply Forall_app. split; [assumption |].
  constructor; [| constructor]. simpl. split.
  - now exists func, args, kws, lhs.
  - exists block. split; [| assumption]. now apply get_block_dict_get.
Qed.

Lemma check_body_block_invariant func_ir cfg visited list_var_def acc label acc' :
  Forall (fun ls => is_call_assign (snd ls)
                    /\ in_block (blocks func_ir) (fst ls) (snd ls))
         (fst acc) ->
  check_body_block func_ir cfg visited list_var_def acc label = Ok acc' ->
  Forall (fun ls => is_call_assign (snd ls)
                    /\ in_block (blocks func_ir) (fst ls) (snd ls))
         (fst acc').
Proof.
  intros Hacc H. unfold check_body_block in H.
  destruct (negb _); [now injection H as <- |].
  apply bind_Ok_inv in H as (block & Hblock & H).
  revert H.
  apply foldM_invariant
    with (Q := fun stmt => In stmt (ir.body block))
         (P := fun a : list (Z * Stmt) * option Object =>
                 Forall (fun ls => is_call_assign (snd ls)
                                   /\ in_block (blocks func_ir) (fst ls)
                                               (snd ls))
                        (fst a));
    [| | assumption].
  - intros a x a' Ha Hx. now apply check_append_invariant with (block := block).
  - apply Forall_forall. intros x Hx. unfold find_insts_Assign in Hx.
    now apply filter_In in Hx.
Qed.

Lemma match_append_stmt func_ir cfg visited loop m :
  _inline_arraycall_match func_ir cfg visited loop = Ok m ->
  is_call_assign (m_append_stmt m)
  /\ in_block (blocks func_ir) (m_append_block_label m) (m_append_stmt m).
Proof.
  unfold _inline_arraycall_match. intros H.
  apply bind_Ok_inv in H as ([] & _ & H).
  apply bind_Ok_inv in H as (exit_blk & _ & H).
  apply bind_Ok_inv in H as ([[list_var idx] kws] & _ & H).
  apply bind_Ok_inv in H as (dtype & _ & H).
  apply bind_Ok_inv in H as (lvd & _ & H).
  apply bind_Ok_inv in H as (lvd' & _ & H).
  apply bind_Ok_inv in H as ([] & _ & H).
  apply bind_Ok_inv in H as ([stmts list_def] & Hfold & H).
  assert (Hall : Forall (fun ls => is_call_assign (snd ls)
                                   /\ in_block (blocks func_ir) (fst ls) (snd ls))
                        stmts).
  { change stmts with (fst (stmts, list_def)).
    revert Hfold.
    apply foldM_invariant
      with (Q := fun _ : Z => True)
           (P := fun a : list (Z * Stmt) * option Object =>
                   Forall (fun ls => is_call_assign (snd ls)
                                     /\ in_block (blocks func_ir) (fst ls)
                                                 (snd ls))
                          (fst a)).
    - intros a x a' Ha _. now apply check_body_block_invariant.
    - now apply Forall_forall.
    - constructor. }
  destruct stmts as [|[l st] [|]]; try discriminate.
  apply bind_Ok_inv in H as ([] & _ & H).
  apply bind_Ok_inv in H as (hb & _ & H).
  apply bind_Ok_inv in H as ([iter_vars iter_first_vars] & _ & H).
  destruct iter_vars as [|iv [|]]; try discriminate.
  destruct iter_first_vars as [|ifv [|]]; try discriminate.
  apply bind_Ok_inv in H as ([] & _ & H).
  apply bind_Ok_inv in H as (eb & _ & H).
  apply bind_Ok_inv in H as (term & _ & H).
  apply bind_Ok_inv in H as ([st' rm] & _ & H).
  injection H as <-. simpl. now inversion Hall.
Qed.

(** *** The scope only grows *)

Definition grows_scope {A} (m : M A) : Prop :=
  forall s r s' sc x,
    m s = (r, s') -> In x (scope_vars s sc) -> In x (scope_vars s' sc).

Lemma gs_ret {A} (a : A) : grows_scope (ret a).
Proof. intros s r s' sc x [= <- <-]. auto. Qed.

Lemma gs_gets {A} (f : State -> A) : grows_scope (gets f).
Proof. intros s r s' sc x [= <- <-]. auto. Qed.

Lemma gs_lift {A} (r : outcome A) : grows_scope (lift r).
Proof. intros s r' s' sc x [= <- <-]. auto. Qed.

Lemma gs_bind {A B} (m : M A) (k : A -> M B) :
  grows_scope m -> (forall a, grows_scope (k a)) -> grows_scope (bindM m k).
Proof.
  intros Hm Hk s r s' sc x H Hx.
  apply bindM_inv in H as [(e & H & _) | (a & s1 & H1 & H2)].
  - eapply Hm; eassumption.
  - eapply Hk; [eassumption |]. eapply Hm; eassumption.
Qed.

Lemma scope_vars_define sc name s sc' :
  scope_vars (mkState (self_func_ir s)
                      (dict_set Nat.eq_dec (localvars s) sc
                                (scope_vars s sc ++ [name]))
                      (_max_label s) (_unique_var_count s)) sc'
  = if Nat.eq_dec sc' sc then scope_vars s sc ++ [name]
    else scope_vars s sc'.
Proof.
  unfold scope_vars at 1. simpl. rewrite dict_get_set.
  destruct (Nat.eq_dec sc' sc); reflexivity.
Qed.

Lemma define_spec sc name s v s' :
  define sc name s = (Ok v, s') ->
  v = name /\ ~ In name (scope_vars s sc) /\ In name (scope_vars s' sc).
Proof.
  unfold define, mem_string.
  destruct (in_dec string_dec name (scope_vars s sc)); [discriminate |].
  intros [= <- <-]. repeat split; [assumption |].
  rewrite scope_vars_define. destruct (Nat.eq_dec sc sc); [| congruence].
  apply in_or_app. right. now left.
Qed.

Lemma gs_define sc name : grows_scope (define sc name).
Proof.
  intros s r s' sc' x. unfold define.
  destruct (mem_string _ _); intros [= <- <-]; [auto |].
  rewrite scope_vars_define. destruct (Nat.eq_dec sc' sc) as [->|]; [| auto].
  intros Hx. apply in_or_app. now left.
Qed.

Lemma make_temp_fresh sc s v s' :
  make_temp sc s = (Ok v, s') ->
  ~ In v (scope_vars s sc) /\ In v (scope_vars s' sc).
Proof.
  unfold make_temp. intros H. apply define_spec in H as (-> & H1 & H2). auto.
Qed.

Lemma gs_make_temp sc : grows_scope (make_temp sc).
Proof. intros s r s' sc' x. unfold make_temp. apply gs_define. Qed.

Lemma gs_set_func_ir f : grows_scope (set_func_ir f).
Proof. intros s r s' sc x [= <- <-]. auto. Qed.

Create HintDb gs.

#[local] Hint Resolve gs_ret gs_gets gs_lift gs_define gs_make_temp
  gs_set_func_ir : gs.

Ltac gs_steps :=
  repeat first
    [ solve [auto with gs]
    | apply gs_bind; [| intros ?]
    | match goal with
      | |- grows_scope (match ?x with _ => _ end) => destruct x
      | |- grows_scope (if ?x then _ else _) => destruct x
      | |- grows_scope (let _ := _ in _) => cbv zeta
      end ].

Lemma gs_new_definition var value : grows_scope (_new_definition var value).
Proof. unfold _new_definition, set_definitions. gs_steps. Qed.

Lemma gs_set_body label stmts : grows_scope (set_body label stmts).
Proof. unfold set_body, set_block. gs_steps. Qed.

#[local] Hint Resolve gs_new_definition gs_set_body : gs.

Lemma gs_choose_size range_def iter_var enable_prange sc stmts :
  grows_scope (choose_size range_def iter_var enable_prange sc stmts).
Proof. unfold choose_size, mark_prange. gs_steps. Qed.

Lemma gs_allocate_array dtype size_var sc stmts :
  grows_scope (allocate_array dtype size_var sc stmts).
Proof. unfold allocate_array. gs_steps. Qed.

Lemma gs_rebind_removed removed array_var stmts :
  grows_scope (rebind_removed removed array_var stmts).
Proof.
  revert stmts. induction removed as [|var removed IH]; intros stmts; simpl.
  - apply gs_ret.
  - gs_steps.
Qed.

(** *** The steps of the rewrite *)

Lemma new_definition_Ok var value s st s' :
  _new_definition var value s = (Ok st, s') -> st = Assign value var.
Proof. now intros [= <- <-]. Qed.

Lemma choose_index_var_spec range_def iter_first_var sc stmts s
      index_var stmts' s' :
  choose_index_var range_def iter_first_var sc stmts s
  = (Ok (index_var, stmts'), s') ->
  match range_def with
  | Some (literal_0, _, _) => index_var = iter_first_var /\ stmts' = stmts
  | _ =>
      stmts' = stmts ++ [Assign (atom (Const (Scalar (PInt (-1))))) index_var]
      /\ In index_var (scope_vars s' sc)
  end.
Proof.
  unfold choose_index_var. intros H.
  apply bindM_Ok_inv in H as (iv & s1 & Hiv & H).
  apply make_temp_fresh in Hiv as [_ Hiv].
  assert (Hother :
            bindM (_new_definition iv (atom (Const (Scalar (PInt (-1))))))
                  (fun st => ret (iv, stmts ++ [st])) s1
            = (Ok (index_var, stmts'), s') ->
            stmts' = stmts
                       ++ [Assign (atom (Const (Scalar (PInt (-1))))) index_var]
            /\ In index_var (scope_vars s' sc)).
  { intros H'. apply bindM_Ok_inv in H' as (st & s2 & Hst & H').
    injection H' as <- <- <-.
    pose proof (new_definition_Ok Hst) as ->.
    split; [reflexivity |]. eapply gs_new_definition; eassumption. }
  destruct range_def as [[[[|start] stop] fd]|]; auto.
  injection H as <- <- <-. auto.
Qed.

Lemma retarget_stmt_keeps_non_global holder n v new stmt :
  (forall n' v' t, stmt <> Assign (atom (Global n' v')) t) ->
  retarget_stmt holder (atom (Global n v)) new stmt = stmt.
Proof.
  intros H. destruct stmt as [val t| | | | |]; try reflexivity. simpl.
  destruct (string_dec t holder); [| reflexivity].
  unfold Value_eqb. destruct (Value_eq_dec val (atom (Global n v)));
    [| reflexivity].
  subst val. now elim (H n v t).
Qed.

Lemma mark_prange_stmts func_var range_func_def stmts s stmts' s' :
  mark_prange func_var range_func_def stmts s = (Ok stmts', s') ->
  forall st,
    In st stmts ->
    (forall n v t, st <> Assign (atom (Global n v)) t) ->
    In st stmts'.
Proof.
  unfold mark_prange. cbn [bindM gets]. intros H st Hin Hst.
  destruct range_func_def as [[]|];
    try solve [injection H as <- <-; assumption].
  destruct (get_definition_lhs_only (self_func_ir s) (Var func_var))
    as [[]|]; try solve [injection H as <- <-; assumption].
  cbn in H. injection H as <- <-.
  apply in_map_iff. exists st. split; [| assumption].
  now apply retarget_stmt_keeps_non_global.
Qed.

Lemma choose_size_spec range_def iter_var enable_prange sc stmts s
      size_var stmts' s' :
  choose_size range_def iter_var enable_prange sc stmts s
  = (Ok (size_var, stmts'), s') ->
  exists stmts0,
    (forall st, In st stmts ->
                (forall n v t, st <> Assign (atom (Global n v)) t) ->
                In st stmts0)
    /\ match range_def with
       | Some (literal_0, stop, _) =>
           stmts' = stmts0 ++ [Assign (atom stop) size_var]
       | Some (start_var start, stop, _) =>
           stmts' = stmts0 ++ [Assign (expr (binop "-" stop start)) size_var]
       | None =>
           exists len_func_var,
             stmts' = stmts0
                        ++ [Assign (atom (Global "range_iter_len"
                                                 range_iter_len))
                                   len_func_var;
                            Assign (expr (call len_func_var [iter_var] []))
                                   size_var]
       end.
Proof.
  unfold choose_size. intros H.
  apply bindM_Ok_inv in H as (sv & s1 & _ & H).
  apply bindM_Ok_inv in H as ([size_val stmts1] & s2 & Hmid & H).
  apply bindM_Ok_inv in H as (st & s3 & Hst & H).
  injection H as <- <- <-.
  pose proof (new_definition_Ok Hst) as ->.
  destruct range_def as [[[start stop] [func_var range_func_def]]|].
  - apply bindM_Ok_inv in Hmid as (stmts0 & s4 & Hmark & Hmid).
    injection Hmid as <- <- <-.
    exists stmts0. split.
    + destruct enable_prange.
      * eapply mark_prange_stmts; eassumption.
      * injection Hmark as <- <-. auto.
    + destruct start; reflexivity.
  - apply bindM_Ok_inv in Hmid as (lfv & s4 & _ & Hmid).
    apply bindM_Ok_inv in Hmid as (st & s5 & Hst' & Hmid).
    injection Hmid as <- <- <-.
    pose proof (new_definition_Ok Hst') as ->.
    exists stmts. split; [auto |]. exists lfv.
    now rewrite <- app_assoc.
Qed.

Lemma allocate_array_spec dtype size_var sc stmts s array_var stmts' s' :
  allocate_array dtype size_var sc stmts s = (Ok (array_var, stmts'), s') ->
  exists size_tuple_var empty_func array_kws mid,
    stmts' = stmts
               ++ [Assign (expr (build_tuple [Var size_var])) size_tuple_var]
               ++ mid
               ++ [Assign (expr (call empty_func [Var size_tuple_var]
                                      array_kws)) array_var].
Proof.
  unfold allocate_array. intros H.
  apply bindM_Ok_inv in H as (stv & s1 & _ & H).
  apply bindM_Ok_inv in H as (st_tuple & s2 & Hst & H).
  pose proof (new_definition_Ok Hst) as ->. cbv zeta in H.
  apply bindM_Ok_inv in H as (av0 & s3 & _ & H).
  apply bindM_Ok_inv in H as (av & s4 & _ & H).
  apply bindM_Ok_inv in H as (ef & s5 & _ & H).
  apply bindM_Ok_inv in H as ([kws stmts1] & s6 & Hmid & H).
  apply bindM_Ok_inv in H as (st & s7 & Hst' & H).
  injection H as <- <- <-.
  pose proof (new_definition_Ok Hst') as ->.
  exists stv, ef, kws.
  destruct dtype as [[attr dtype_mod_def]|].
  - apply bindM_Ok_inv in Hmid as (v1 & s8 & _ & Hmid).
    apply bindM_Ok_inv in Hmid as (v2 & s9 & _ & Hmid).
    apply bindM_Ok_inv in Hmid as (st1 & s10 & H1 & Hmid).
    apply bindM_Ok_inv in Hmid as (st2 & s11 & H2 & Hmid).
    apply bindM_Ok_inv in Hmid as (st3 & s12 & H3 & Hmid).
    injection Hmid as <- <- <-.
    exists [st1; st2; st3]. now rewrite <- !app_assoc.
  - apply bindM_Ok_inv in Hmid as (st1 & s8 & H1 & Hmid).
    injection Hmid as <- <- <-.
    exists [st1]. now rewrite <- !app_assoc.
Qed.

Lemma rebind_removed_spec removed array_var :
  forall stmts s stmts' s',
    rebind_removed removed array_var stmts s = (Ok stmts', s') ->
    exists extra, stmts' = stmts ++ extra.
Proof.
  induction removed as [|var removed IH]; intros stmts s stmts' s' H;
    simpl in H.
  - injection H as <- <-. exists []. now rewrite app_nil_r.
  - apply bindM_Ok_inv in H as (st & s1 & _ & H).
    apply IH in H as (extra & ->). exists (st :: extra).
    now rewrite <- app_assoc.
Qed.

Lemma terminator_last block term :
  terminator block = Ok term ->
  ir.body block = removelast (ir.body block) ++ [term].
Proof.
  unfold terminator. intros H.
  destruct (ir.body block) as [|x l] eqn:E using rev_ind.
  - discriminate.
  - rewrite rev_app_distr in H. simpl in H. injection H as <-.
    now rewrite removelast_last.
Qed.

(** What [update_index] writes. *)
Lemma update_index_spec range_def loop iter_first_var index_var sc s s' :
  update_index range_def loop iter_first_var index_var sc s = (Ok tt, s') ->
  match range_def with
  | Some (literal_0, _, _) =>
      blocks (self_func_ir s') = blocks (self_func_ir s)
  | Some (start_var start, _, _) =>
      exists c t f blk,
        branch_at (blocks (self_func_ir s)) (analysis.header loop) c t f
        /\ dict_get Z.eq_dec (blocks (self_func_ir s)) t = Some blk
        /\ blocks (self_func_ir s')
           = dict_set Z.eq_dec (blocks (self_func_ir s)) t
               (mkBlock (scope blk)
                  (Assign (expr (binop "-" (Var iter_first_var) start))
                          index_var :: ir.body blk))
  | None =>
      exists hb term one next_index_var,
        dict_get Z.eq_dec (blocks (self_func_ir s)) (analysis.header loop)
        = Some hb
        /\ terminator hb = Ok term
        /\ blocks (self_func_ir s')
           = dict_set Z.eq_dec (blocks (self_func_ir s))
               (analysis.header loop)
               (mkBlock (scope hb)
                  (removelast (ir.body hb)
                     ++ [Assign (atom (Const (Scalar (PInt 1)))) one;
                         Assign (expr (binop "+" (Var index_var) (Var one)))
                                next_index_var;
                         Assign (atom (Var next_index_var)) index_var;
                         term]))
        /\ (In index_var (scope_vars s sc) -> one <> index_var)
  end.
Proof.
  unfold update_index. intros H.
  destruct range_def as [[[[|start] stop] fd]|].
  - now injection H as <-.
  - cbn [bindM gets] in H.
    apply bindM_Ok_inv in H as (hb & s0 & Hhb & H).
    apply lift_Ok_inv in Hhb as [Hhb ->].
    apply bindM_Ok_inv in H as (term & s0 & Hterm & H).
    apply lift_Ok_inv in Hterm as [Hterm ->].
    destruct term; try discriminate.
    apply bindM_Ok_inv in H as (blk & s0 & Hblk & H).
    apply lift_Ok_inv in Hblk as [Hblk ->].
    apply bindM_Ok_inv in H as (st & s1 & Hst & H).
    pose proof (new_definition_Ok Hst) as ->.
    apply kb_new_definition in Hst.
    apply set_body_Ok in H as (blk' & Hblk' & ->). simpl.
    exists cond, truebr, falsebr, blk.
    apply get_block_dict_get in Hhb, Hblk.
    split; [exists hb; auto |]. split; [assumption |].
    unfold get_block in Hblk'. rewrite Hst, Hblk in Hblk'.
    injection Hblk' as <-. now rewrite Hst.
  - cbn [bindM gets] in H.
    apply bindM_Ok_inv in H as (hb & s0 & Hhb & H).
    apply lift_Ok_inv in Hhb as [Hhb ->].
    apply bindM_Ok_inv in H as (term & s0 & Hterm & H).
    apply lift_Ok_inv in Hterm as [Hterm ->].
    cbv zeta in H.
    apply bindM_Ok_inv in H as (next & s1 & H1 & H).
    pose proof (fun x => @gs_make_temp sc _ _ _ sc x H1) as Hg1.
    apply kb_make_temp in H1.
    apply bindM_Ok_inv in H as (one & s2 & H2 & H).
    pose proof (make_temp_fresh _ _ H2) as [Hfresh _].
    apply kb_make_temp in H2.
    apply bindM_Ok_inv in H as (st1 & s3 & H3 & H).
    pose proof (new_definition_Ok H3) as ->. apply kb_new_definition in H3.
    apply bindM_Ok_inv in H as (st2 & s4 & H4 & H).
    pose proof (new_definition_Ok H4) as ->. apply kb_new_definition in H4.
    apply bindM_Ok_inv in H as (st3 & s5 & H5 & H).
    pose proof (new_definition_Ok H5) as ->. apply kb_new_definition in H5.
    apply set_body_Ok in H as (blk' & Hblk' & ->). simpl.
    apply get_block_dict_get in Hhb.
    assert (Hb5 : blocks (self_func_ir s5) = blocks (self_func_ir s))
      by congruence.
    exists hb, term, one, next.
    split; [assumption |]. split; [assumption |]. split.
    + unfold get_block in Hblk'. rewrite Hb5, Hhb in Hblk'.
      injection Hblk' as <-. now rewrite Hb5.
    + intros Hin <-. apply Hfresh. now apply Hg1.
Qed.

(** [update_index] removes no statement. *)
Lemma update_index_in_block range_def loop iter_first_var index_var sc s s'
      label stmt :
  update_index range_def loop iter_first_var index_var sc s = (Ok tt, s') ->
  in_block (blocks (self_func_ir s)) label stmt ->
  in_block (blocks (self_func_ir s')) label stmt.
Proof.
  intros H Hin. apply update_index_spec in H.
  destruct range_def as [[[[|start] stop] fd]|].
  - now rewrite H.
  - destruct H as (c & t & f & blk & _ & Hblk & ->).
    destruct (Z.eq_dec label t) as [->|Hne].
    + apply in_block_set_same. simpl. right.
      destruct Hin as (blk' & Hblk' & Hin). congruence.
    + now apply in_block_set_other.
  - destruct H as (hb & term & one & next & Hhb & Hterm & -> & _).
    destruct (Z.eq_dec label (analysis.header loop)) as [->|Hne].
    + apply in_block_set_same. simpl.
      destruct Hin as (blk' & Hblk' & Hin).
      assert (blk' = hb) as -> by congruence.
      rewrite (terminator_last _ Hterm) in Hin.
      apply in_app_or in Hin as [Hin | [<- | []]]; apply in_or_app;
        [now left | right; simpl; auto].
    + now apply in_block_set_other.
Qed.

(** What [replace_append] does to each statement. *)
Definition append_replaced (append_stmt : Stmt) (array_var index_var : string)
           (stmt stmt' : Stmt) : Prop :=
  (stmt <> append_stmt /\ stmt' = stmt)
  \/ (stmt = append_stmt
      /\ exists func arg0 args kws target,
          append_stmt = Assign (expr (call func (arg0 :: args) kws)) target
          /\ stmt' = SetItem array_var index_var arg0).

Lemma replace_append_spec append_stmt array_var index_var stmts :
  forall stmts',
    replace_append append_stmt array_var index_var stmts = Ok stmts' ->
    Forall2 (append_replaced append_stmt array_var index_var) stmts stmts'.
Proof.
  induction stmts as [|stmt stmts IH]; intros stmts' H; simpl in H.
  - injection H as <-. constructor.
  - unfold Stmt_eqb in H.
    destruct (Stmt_eq_dec stmt append_stmt) as [->|Hne].
    + destruct append_stmt as [[o|[func [|arg0 args] kws| | | | | | | | | | |]] t
                              | | | | |]; try discriminate.
      apply bind_Ok_inv in H as (rest & Hrest & H). injection H as <-.
      constructor; [| auto]. right. split; [reflexivity |].
      now exists func, arg0, args, kws, t.
    + apply bind_Ok_inv in H as (rest & Hrest & H). injection H as <-.
      constructor; [| auto]. now left.
Qed.

Lemma Forall2_nth_error {A B} (R : A -> B -> Prop) l l' i x :
  Forall2 R l l' -> nth_error l i = Some x ->
  exists y, nth_error l' i = Some y /\ R x y.
Proof.
  intros H. revert i. induction H as [|a b l l' Hab _ IH]; intros [|i] Hx;
    simpl in *; try discriminate.
  - injection Hx as <-. eauto.
  - auto.
Qed.

(** The last step writes at most one block: the exit block. *)
Lemma replace_array_call_blocks exit_block idx array_var s s' :
  replace_array_call exit_block idx array_var s = (Ok tt, s') ->
  blocks (self_func_ir s') = blocks (self_func_ir s)
  \/ exists blk e target,
      dict_get Z.eq_dec (blocks (self_func_ir s)) exit_block = Some blk
      /\ nth_error (ir.body blk) idx = Some (Assign (expr e) target)
      /\ blocks (self_func_ir s')
         = dict_set Z.eq_dec (blocks (self_func_ir s)) exit_block
             (mkBlock (scope blk)
                (list_set (ir.body blk) idx
                          (Assign (atom (Var array_var)) target))).
Proof.
  unfold replace_array_call. cbn [bindM gets]. intros H.
  apply bindM_Ok_inv in H as (blk & s0 & Hblk & H).
  apply lift_Ok_inv in Hblk as [Hblk ->].
  destruct (nth_error (ir.body blk) idx) as [[[o|e] t| | | | |]|] eqn:Hnth;
    try (injection H as <-; now left); try discriminate.
  apply bindM_Ok_inv in H as ([] & s1 & H1 & H).
  apply set_body_Ok in H1 as (blk' & Hblk' & ->).
  injection H as <-. simpl. right. exists blk, e, t.
  assert (blk' = blk) as -> by congruence.
  apply get_block_dict_get in Hblk. auto.
Qed.

Lemma In_list_set {A} (l : list A) i x y z :
  nth_error l i = Some y -> In x l -> x <> y -> In x (list_set l i z).
Proof.
  revert i. induction l as [|a l IH]; intros [|i] Hy Hin Hne; simpl in *;
    try discriminate.
  - injection Hy as <-. destruct Hin as [-> | Hin]; [congruence | auto].
  - destruct Hin as [-> | Hin]; [auto | right; eauto].
Qed.

Lemma replace_array_call_in_block exit_block idx array_var s s' label stmt :
  replace_array_call exit_block idx array_var s = (Ok tt, s') ->
  label <> exit_block \/ (forall e t, stmt <> Assign (expr e) t) ->
  in_block (blocks (self_func_ir s)) label stmt ->
  in_block (blocks (self_func_ir s')) label stmt.
Proof.
  intros H Hor Hin.
  apply replace_array_call_blocks in H
    as [-> | (blk & e & target & Hblk & Hnth & ->)]; [assumption |].
  destruct (Z.eq_dec label exit_block) as [->|Hne];
    [| now apply in_block_set_other].
  destruct Hor as [Hor | Hor]; [congruence |].
  apply in_block_set_same. simpl.
  destruct Hin as (blk' & Hblk' & Hin).
  assert (blk' = blk) as -> by congruence.
  eapply In_list_set; eauto.
Qed.

Lemma replace_array_call_stmt_at exit_block idx array_var s s' label i stmt :
  replace_array_call exit_block idx array_var s = (Ok tt, s') ->
  label <> exit_block ->
  stmt_at (blocks (self_func_ir s)) label i stmt ->
  stmt_at (blocks (self_func_ir s')) label i stmt.
Proof.
  intros H Hne Hat.
  apply replace_array_call_blocks in H
    as [-> | (blk & e & target & Hblk & Hnth & ->)]; [assumption |].
  now apply stmt_at_set_other.
Qed.

(** *** The first value of the counter *)

(** The meaning of the statements the counter is made of: integer
    constants, copies of variables, sums and differences. *)
Definition eval_operand (env : string -> option Z) (o : Operand)
  : option Z :=
  match o with
  | Var x => env x
  | Const (Scalar (PInt z)) => Some z
  | _ => None
  end.

Definition eval_value (env : string -> option Z) (v : Value) : option Z :=
  match v with
  | atom o => eval_operand env o
  | expr (binop fn lhs rhs) =>
      match eval_operand env lhs, eval_operand env rhs with
      | Some x, Some y =>
          if string_dec fn "+" then Some (x + y)%Z
          else if string_dec fn "-" then Some (x - y)%Z
          else None
      | _, _ => None
      end
  | expr _ => None
  end.

Definition exec_stmt (env : string -> option Z) (stmt : Stmt)
  : string -> option Z :=
  match stmt with
  | Assign value target =>
      fun x => if string_dec x target then eval_value env value else env x
  | _ => env
  end.

Definition exec_stmts (env : string -> option Z) (stmts : list Stmt)
  : string -> option Z :=
  fold_left exec_stmt stmts env.

(** The statements added to the loop header, run once. *)
Definition increment (index_var one next_index_var : string) : list Stmt :=
  [ Assign (atom (Const (Scalar (PInt 1)))) one;
    Assign (expr (binop "+" (Var index_var) (Var one))) next_index_var;
    Assign (atom (Var next_index_var)) index_var ].

Lemma counter_first_value index_var one next_index_var env :
  one <> index_var ->
  exec_stmts (exec_stmt env (Assign (atom (Const (Scalar (PInt (-1)))))
                                    index_var))
             (increment index_var one next_index_var) index_var
  = Some 0%Z.
Proof.
  intros Hne. unfold exec_stmts, increment. simpl.
  destruct (string_dec index_var index_var); [| congruence].
  destruct (string_dec next_index_var next_index_var); [| congruence].
  destruct (string_dec index_var one); [congruence |].
  destruct (string_dec one one); [| congruence].
  reflexivity.
Qed.

(** *** What [_find_iter_range] returns *)

Lemma find_iter_range_spec func_ir range_iter_var start stop fd :
  _find_iter_range func_ir range_iter_var = Ok (start, stop, fd) ->
  exists range_var func_var args kws name,
    _get_definition func_ir range_iter_var = Ok (expr (getiter range_var))
    /\ _get_definition func_ir range_var
       = Ok (expr (call func_var args kws))
    /\ _get_definition func_ir (Var func_var)
       = Ok (atom (Global name range))
    /\ fd = (func_var, atom (Global name range))
    /\ ((args = [stop] /\ start = literal_0)
        \/ (exists a0 a1 start_v,
               args = [a0; a1] /\ start = start_var start_v
               /\ _get_definition_lhs_only func_ir a0 = Ok start_v
               /\ _get_definition_lhs_only func_ir a1 = Ok stop)).
Proof.
  unfold _find_iter_range. intros H.
  apply bind_Ok_inv in H as (rid & Hrid & H).
  destruct rid as [o|[]]; try discriminate.
  apply bind_Ok_inv in H as (rd & Hrd & H).
  destruct rd as [o|[]]; try discriminate.
  apply bind_Ok_inv in H as (fdef & Hfd & H).
  apply bind_Ok_inv in H as ([] & Hreq & H). apply require_Ok in Hreq.
  destruct fdef as [[]|]; try discriminate.
  destruct (pyobj_eq_dec value0 range) as [->|]; [| discriminate].
  exists value, func, args, kws, name.
  repeat (split; [assumption || reflexivity |]).
  destruct args as [|a0 [|a1 [|]]]; try discriminate.
  - apply bind_Ok_inv in H as (stop' & _ & H). injection H as <- <- <-.
    split; [reflexivity |]. now left.
  - apply bind_Ok_inv in H as (start_v & Hs & H).
    apply bind_Ok_inv in H as (stop' & Hstop & H). injection H as <- <- <-.
    split; [reflexivity |]. right. now exists a0, a1, start_v.
Qed.

(** What the rewrite has put in place for the kind of iterator
    [range_def] stands for. *)
Definition index_and_size_for
           (range_def : outcome (option (range_start * Operand
                                         * (string * Value))))
           (loop : analysis.Loop) (m : arraycall_match)
           (blks blks' : list (Z * Block))
           (index_var size_var : string) : Prop :=
  match range_def with
  | Ok (Some (literal_0, stop, _)) =>
      (* range(stop): the loop's own value is the index, the size is stop *)
      index_var = m_iter_first_var m
      /\ in_block blks' (m_loop_entry m) (Assign (atom stop) size_var)
  | Ok (Some (start_var start, stop, _)) =>
      (* range(start, stop): the size is stop - start, the index a
         variable set to -1 in the loop entry and to the loop's own value
         minus start by the first statement of the block the header
         branches to *)
      in_block blks' (m_loop_entry m)
               (Assign (expr (binop "-" stop start)) size_var)
      /\ in_block blks' (m_loop_entry m)
                  (Assign (atom (Const (Scalar (PInt (-1))))) index_var)
      /\ exists c t f,
          branch_at blks (analysis.header loop) c t f
          /\ stmt_at blks' t 0
                     (Assign (expr (binop "-" (Var (m_iter_first_var m))
                                          start)) index_var)
  | Ok None =>
      (* any other iterator: the size is range_iter_len(iterator), the
         index a counter set to -1 in the loop entry and incremented at
         the end of the header *)
      (exists len_func_var,
          in_block blks' (m_loop_entry m)
                   (Assign (atom (Global "range_iter_len" range_iter_len))
                           len_func_var)
          /\ in_block blks' (m_loop_entry m)
                      (Assign (expr (call len_func_var [m_iter_var m] []))
                              size_var))
      /\ in_block blks' (m_loop_entry m)
                  (Assign (atom (Const (Scalar (PInt (-1))))) index_var)
      /\ exists hb pre one next_index_var last,
          dict_get Z.eq_dec blks' (analysis.header loop) = Some hb
          /\ ir.body hb
             = pre ++ increment index_var one next_index_var ++ [last]
          /\ forall env,
              exec_stmts
                (exec_stmt env (Assign (atom (Const (Scalar (PInt (-1)))))
                                       index_var))
                (increment index_var one next_index_var) index_var
              = Some 0%Z
  | Raise _ => False
  end.

Lemma Forall2_append_replaced_keep a av iv stmt stmt' :
  append_replaced a av iv stmt stmt' ->
  is_call_assign a -> ~ is_call_assign stmt -> stmt' = stmt.
Proof.
  intros [[_ ->] | [-> _]] Ha Hs; [reflexivity | contradiction].
Qed.

Lemma in_block_get blks label stmt blk :
  in_block blks label stmt ->
  dict_get Z.eq_dec blks label = Some blk -> In stmt (ir.body blk).
Proof. intros (blk' & Hblk' & Hin) Hblk. congruence. Qed.

Lemma stmt_at_get blks label i stmt blk :
  stmt_at blks label i stmt ->
  dict_get Z.eq_dec blks label = Some blk ->
  nth_error (ir.body blk) i = Some stmt.
Proof. intros (blk' & Hblk' & Hin) Hblk. congruence. Qed.

Lemma dict_get_set_same {K V} (eq_dec : forall a b : K, {a = b} + {a <> b})
      (d : list (K * V)) k v :
  dict_get eq_dec (dict_set eq_dec d k v) k = Some v.
Proof. rewrite dict_get_set. destruct (eq_dec k k); congruence. Qed.

Lemma dict_get_set_other {K V} (eq_dec : forall a b : K, {a = b} + {a <> b})
      (d : list (K * V)) k v k' :
  k' <> k ->
  dict_get eq_dec (dict_set eq_dec d k v) k' = dict_get eq_dec d k'.
Proof. intros H. rewrite dict_get_set. destruct (eq_dec k' k); congruence. Qed.

(** The statements of the append block after [replace_append]. *)
Lemma set_append_block label blks_before ab new_body a av iv :
  dict_get Z.eq_dec blks_before label = Some ab ->
  replace_append a av iv (ir.body ab) = Ok new_body ->
  is_call_assign a ->
  forall sc',
    let blks_after :=
      dict_set Z.eq_dec blks_before label (mkBlock sc' new_body) in
    (forall l i st, ~ is_call_assign st ->
                    stmt_at blks_before l i st -> stmt_at blks_after l i st)
    /\ (in_block blks_before label a ->
        exists func arg0 args kws target,
          a = Assign (expr (call func (arg0 :: args) kws)) target
          /\ in_block blks_after label (SetItem av iv arg0)).
Proof.
  intros Hab Hrep Ha sc' blks_after. apply replace_append_spec in Hrep.
  split.
  - intros l i st Hst Hat. destruct (Z.eq_dec l label) as [->|Hne].
    + pose proof (stmt_at_get Hat Hab) as Hnth.
      destruct (Forall2_nth_error _ Hrep Hnth) as (st' & Hnth' & HR).
      apply Forall2_append_replaced_keep in HR; [| assumption..]. subst st'.
      eexists. split; [apply dict_get_set_same | exact Hnth'].
    + now apply stmt_at_set_other.
  - intros Hin. pose proof (in_block_get Hin Hab) as Hin'.
    apply In_nth_error in Hin' as (i & Hnth).
    destruct (Forall2_nth_error _ Hrep Hnth) as (st' & Hnth' & HR).
    destruct HR as [[Hne _] | [_ (func & arg0 & args & kws & t & -> & ->)]];
      [congruence |].
    exists func, arg0, args, kws, t. split; [reflexivity |].
    apply in_block_set_same. simpl. eapply nth_error_In; eassumption.
Qed.

Lemma Forall2_keep_all a av iv mid mid' :
  Forall2 (append_replaced a av iv) mid mid' ->
  is_call_assign a ->
  Forall (fun st => ~ is_call_assign st) mid ->
  mid' = mid.
Proof.
  intros H Ha. induction H as [|x y l l' Hxy _ IH]; intros Hmid;
    [reflexivity |].
  inversion Hmid as [|? ? Hx Hl]; subst.
  apply Forall2_append_replaced_keep in Hxy; [| assumption..].
  rewrite IH by assumption. now subst.
Qed.

Lemma replace_append_keeps_middle a av iv pre mid last new_body :
  replace_append a av iv (pre ++ mid ++ [last]) = Ok new_body ->
  is_call_assign a ->
  Forall (fun st => ~ is_call_assign st) mid ->
  exists pre' last', new_body = pre' ++ mid ++ [last'].
Proof.
  intros H Ha Hmid. apply replace_append_spec in H.
  apply Forall2_app_inv_l in H as (pre' & rest & _ & H & ->).
  apply Forall2_app_inv_l in H as (mid' & suf' & Hm & Hs & ->).
  apply Forall2_keep_all in Hm; [| assumption..]. subst mid'.
  inversion Hs as [|? last' ? ? _ Hnil]; subst. inversion Hnil; subst.
  now exists pre', last'.
Qed.

Lemma increment_not_call index_var one next_index_var :
  Forall (fun st => ~ is_call_assign st)
         (increment index_var one next_index_var).
Proof.
  repeat constructor; intros (f & a & k & t & [=]).
Qed.

(** After a successful rewrite of a loop whose entry, header, exit and
    append blocks are laid out as a loop's are, the append is an indexed
    store into the array at [index_var], and the array is allocated in the
    loop entry with the one-element shape [(size_var,)]; index and size are
    those of the kind of iterator that [_find_iter_range] has found. *)
Lemma rewrite_index_and_size :
  forall cfg visited loop enable_prange s s' m,
      _inline_arraycall_match (self_func_ir s) cfg visited loop = Ok m ->
      _inline_arraycall cfg visited loop enable_prange s = (Ok true, s') ->
      m_loop_entry m <> m_append_block_label m ->
      m_loop_entry m <> m_exit_block m ->
      m_loop_entry m <> analysis.header loop ->
      m_exit_block m <> analysis.header loop ->
      (forall c t f,
          branch_at (blocks (self_func_ir s)) (analysis.header loop) c t f ->
          t <> m_exit_block m) ->
      exists index_var size_var array_var arg0,
        (exists func args kws target,
            m_append_stmt m
            = Assign (expr (call func (arg0 :: args) kws)) target)
        /\ in_block (blocks (self_func_ir s')) (m_append_block_label m)
                    (SetItem array_var index_var arg0)
        /\ (exists size_tuple_var empty_func array_kws,
               in_block (blocks (self_func_ir s')) (m_loop_entry m)
                        (Assign (expr (build_tuple [Var size_var]))
                                size_tuple_var)
               /\ in_block (blocks (self_func_ir s')) (m_loop_entry m)
                           (Assign (expr (call empty_func
                                               [Var size_tuple_var]
                                               array_kws)) array_var))
        /\ index_and_size_for
             (guard (_find_iter_range (self_func_ir s)) (m_iter_var m))
             loop m (blocks (self_func_ir s)) (blocks (self_func_ir s'))
             index_var size_var.
Proof.
  intros cfg visited loop enable_prange s s' m Hm H
         Hentry_append Hentry_exit Hentry_header Hexit_header Hbranch.
  destruct (match_append_stmt _ _ _ _ Hm) as [Hcall Hin_append].
  unfold _inline_arraycall in H. cbn [bindM gets lift] in H.
  rewrite Hm in H. unfold _inline_arraycall_rewrite in H.
  cbv zeta in H. cbn [bindM gets] in H.
  apply bindM_Ok_inv in H as (range_def & s0 & Hrd & H).
  apply lift_Ok_inv in Hrd as [Hrd ->]. rewrite Hrd.
  apply bindM_Ok_inv in H as ([index_var stmts1] & s1 & H1 & H).
  pose proof (choose_index_var_spec _ _ _ _ _ H1) as Hidx.
  apply kb_choose_index_var in H1 as Hb1.
  apply bindM_Ok_inv in H as ([size_var stmts2] & s2 & H2 & H).
  pose proof (choose_size_spec _ _ _ _ _ _ H2)
    as (stmts0 & Hstmts0 & Hsize).
  pose proof (fun x => @gs_choose_size _ _ _ _ _ _ _ _ (m_scope m) x H2)
    as Hg2.
  apply choose_size_blocks in H2 as Hb2.
  apply bindM_Ok_inv in H as ([array_var stmts3] & s3 & H3 & H).
  pose proof (allocate_array_spec _ _ _ _ _ H3)
    as (stv & ef & akws & mid & Hstmts3).
  pose proof (fun x => @gs_allocate_array _ _ _ _ _ _ _ (m_scope m) x H3)
    as Hg3.
  apply kb_allocate_array in H3 as Hb3.
  apply bindM_Ok_inv in H as (stmts4 & s4 & H4 & H).
  pose proof (rebind_removed_spec _ _ _ _ H4) as (extra & Hstmts4).
  pose proof (fun x => @gs_rebind_removed _ _ _ _ _ _ (m_scope m) x H4)
    as Hg4.
  apply kb_rebind_removed in H4 as Hb4.
  apply bindM_Ok_inv in H as ([] & s5 & H5 & H).
  pose proof (fun x => @gs_set_body _ _ _ _ _ (m_scope m) x H5) as Hg5.
  apply set_body_blocks in H5 as (eb & Hb5 & _).
  apply bindM_Ok_inv in H as ([] & s6 & H6 & H).
  cbn [bindM gets] in H.
  apply bindM_Ok_inv in H as (ab & s0 & Hab & H).
  apply lift_Ok_inv in Hab as [Hab ->].
  apply get_block_dict_get in Hab.
  apply bindM_Ok_inv in H as (new_body & s0 & Hnb & H).
  apply lift_Ok_inv in Hnb as [Hnb ->].
  apply bindM_Ok_inv in H as ([] & s7 & H7 & H).
  apply set_body_blocks in H7 as (ab' & Hb7 & _).
  apply bindM_Ok_inv in H as ([] & s8 & H8 & H).
  injection H as <-.
  destruct (set_append_block _ _ _ _ Hab Hnb Hcall (scope ab'))
    as [Hkeep7 Hset7].
  rewrite <- Hb7 in Hkeep7, Hset7.
  assert (Hretarget : blocks_retargeted s s4).
  { unfold blocks_retargeted in *. rewrite Hb4, Hb3.
    destruct Hb2 as [Hb2 | (h & n & v & Hb2)];
      [left | right; exists h, n, v]; simpl in *; congruence. }
  (* the statements of the new loop entry *)
  assert (Hentry : forall st, In st stmts4 ->
                     in_block (blocks (self_func_ir s8)) (m_loop_entry m) st).
  { intros st Hst.
    eapply replace_array_call_in_block; [eassumption | now left |].
    rewrite Hb7. apply in_block_set_other; [assumption |].
    eapply update_index_in_block; [eassumption |].
    rewrite Hb5. apply in_block_set_same. simpl.
    apply in_or_app. now left. }
  assert (Hin3 : forall st, In st stmts2 -> In st stmts4).
  { intros st Hst. rewrite Hstmts4, Hstmts3.
    apply in_or_app. left. apply in_or_app. now left. }
  (* the append statement has become an indexed store *)
  assert (Hsetitem : exists func arg0 args kws target,
             m_append_stmt m
             = Assign (expr (call func (arg0 :: args) kws)) target
             /\ in_block (blocks (self_func_ir s8))
                         (m_append_block_label m)
                         (SetItem array_var index_var arg0)).
  { destruct Hset7 as (func & arg0 & args & kws & t & Heq & Hin7).
    - eapply update_index_in_block; [eassumption |].
      rewrite Hb5. apply in_block_set_other; [congruence |].
      eapply in_block_retargeted; [exact Hretarget | | assumption].
      destruct Hcall as (f0 & a0 & k0 & t0 & ->). discriminate.
    - exists func, arg0, args, kws, t. split; [assumption |].
      eapply replace_array_call_in_block; [eassumption | | assumption].
      right. discriminate. }
  destruct Hsetitem as (func & arg0 & args & kws & t & Heq & Hstore).
  exists index_var, size_var, array_var, arg0.
  split; [now exists func, args, kws, t |].
  split; [assumption |].
  split.
  { exists stv, ef, akws.
    split; apply Hentry; rewrite Hstmts4, Hstmts3;
      repeat rewrite in_app_iff; simpl; tauto. }
  unfold index_and_size_for.
  apply update_index_spec in H6 as Hupd.
  destruct range_def as [[[[|start] stop] fd]|].
  - (* range(stop) *)
    destruct Hidx as [-> _]. split; [reflexivity |].
    apply Hentry, Hin3. rewrite Hsize. apply in_or_app. right. now left.
  - (* range(start, stop) *)
    destruct Hidx as [-> Hscope].
    split.
    { apply Hentry, Hin3. rewrite Hsize. apply in_or_app. right. now left. }
    split.
    { apply Hentry, Hin3. rewrite Hsize. apply in_or_app. left.
      apply Hstmts0.
      - apply in_or_app. right. now left.
      - discriminate. }
    destruct Hupd as (c & tb & f & blk & Hbr & Hblk & Hb6).
    assert (Hbr0 : branch_at (blocks (self_func_ir s))
                             (analysis.header loop) c tb f).
    { eapply branch_at_retargeted; [exact Hretarget |].
      destruct Hbr as (hb & Hhb & Hterm). exists hb. split; [| assumption].
      rewrite Hb5, dict_get_set_other in Hhb by congruence. assumption. }
    exists c, tb, f. split; [assumption |].
    eapply replace_array_call_stmt_at; [eassumption | now apply Hbranch in Hbr0 |].
    apply Hkeep7; [intros (f0 & a0 & k0 & t0 & [=]) |].
    rewrite Hb6. eexists. split; [apply dict_get_set_same | reflexivity].
  - (* any other iterator *)
    destruct Hidx as [-> Hscope].
    destruct Hsize as (lfv & ->).
    split.
    { exists lfv. split; apply Hentry, Hin3; apply in_or_app; right;
        simpl; auto. }
    split.
    { apply Hentry, Hin3. apply in_or_app. left. apply Hstmts0.
      - apply in_or_app. right. now left.
      - discriminate. }
    destruct Hupd as (hb & term & one & next & Hhb & Hterm & Hb6 & Hone).
    assert (Hone' : one <> index_var).
    { apply Hone. apply Hg5, Hg4, Hg3, Hg2. exact Hscope. }
    assert (Hheader7 : exists hb7 pre last,
               dict_get Z.eq_dec (blocks (self_func_ir s7))
                        (analysis.header loop) = Some hb7
               /\ ir.body hb7 = pre ++ increment index_var one next ++ [last]).
    { destruct (Z.eq_dec (m_append_block_label m) (analysis.header loop))
        as [Heq'|Hne].
      - rewrite Heq' in *. rewrite Hb6, dict_get_set_same in Hab.
        injection Hab as <-. simpl in Hnb.
        change [Assign (atom (Const (Scalar (PInt 1)))) one;
                Assign (expr (binop "+" (Var index_var) (Var one))) next;
                Assign (atom (Var next)) index_var; term]
          with (increment index_var one next ++ [term]) in Hnb.
        apply replace_append_keeps_middle in Hnb
          as (pre' & last' & ->);
          [| assumption | apply increment_not_call].
        eexists _, pre', last'. rewrite Hb7, dict_get_set_same.
        split; reflexivity.
      - eexists _, (removelast (ir.body hb)), term.
        rewrite Hb7, dict_get_set_other by congruence.
        rewrite Hb6, dict_get_set_same. split; reflexivity. }
    destruct Hheader7 as (hb7 & pre & last & Hhb7 & Hbody7).
    exists hb7, pre, one, next, last. split; [| split; [assumption |]].
    + apply replace_array_call_blocks in H8
        as [-> | (blk & e & tg & _ & _ & ->)]; [assumption |].
      rewrite dict_get_set_other by congruence. assumption.
    + intros env. now apply counter_first_value.
Qed.

(** *** The kind of iterator, as the definitions table tells it *)

(** The iterator is [iter(range(args))]. *)
Definition iterates_range (f : FunctionIR) (iter_var : Operand)
           (args : list Operand) : Prop :=
  exists range_var func_var kws name,
    _get_definition f iter_var = Ok (expr (getiter range_var))
    /\ _get_definition f range_var = Ok (expr (call func_var args kws))
    /\ _get_definition f (Var func_var) = Ok (atom (Global name range)).

(** [range(stop)], with an argument that resolves. *)
Definition plain_range_stop (f : FunctionIR) (iter_var stop : Operand)
  : Prop :=
  iterates_range f iter_var [stop]
  /\ exists v, _get_definition_lhs_only f stop = Ok v.

(** [range(a0, a1)], with arguments that are copies of the variables
    [start] and [stop]. *)
Definition plain_range_start_stop (f : FunctionIR)
           (iter_var start stop : Operand) : Prop :=
  exists a0 a1,
    iterates_range f iter_var [a0; a1]
    /\ _get_definition_lhs_only f a0 = Ok start
    /\ _get_definition_lhs_only f a1 = Ok stop.

Lemma find_iter_range_Ok_iterates f v start stop fd :
  _find_iter_range f v = Ok (start, stop, fd) ->
  match start with
  | literal_0 => plain_range_stop f v stop
  | start_var start_v => plain_range_start_stop f v start_v stop
  end.
Proof.
  unfold _find_iter_range. intros H.
  apply bind_Ok_inv in H as (rid & Hrid & H).
  destruct rid as [o|[]]; try discriminate.
  apply bind_Ok_inv in H as (rd & Hrd & H).
  destruct rd as [o|[]]; try discriminate.
  apply bind_Ok_inv in H as (fdef & Hfd & H).
  apply bind_Ok_inv in H as ([] & Hreq & H). apply require_Ok in Hreq.
  destruct fdef as [[]|]; try discriminate.
  destruct (pyobj_eq_dec value0 range) as [->|]; [| discriminate].
  destruct args as [|a0 [|a1 [|]]]; try discriminate.
  - apply bind_Ok_inv in H as (stop' & Hs & H). injection H as <- <- <-.
    split; [now exists value, func, kws, name | eauto].
  - apply bind_Ok_inv in H as (start_v & Hs & H).
    apply bind_Ok_inv in H as (stop' & Hstop & H). injection H as <- <- <-.
    exists a0, a1. split; [now exists value, func, kws, name | auto].
Qed.

Lemma find_iter_range_stop f v stop :
  plain_range_stop f v stop ->
  exists fd, _find_iter_range f v = Ok (literal_0, stop, fd).
Proof.
  intros [(range_var & func_var & kws & name & H1 & H2 & H3) (x & Hx)].
  unfold _find_iter_range. rewrite H1. simpl. rewrite H2. simpl.
  rewrite H3. simpl. destruct (pyobj_eq_dec range range); [| congruence].
  simpl. rewrite Hx. simpl. eauto.
Qed.

Lemma find_iter_range_start_stop f v start stop :
  plain_range_start_stop f v start stop ->
  exists fd, _find_iter_range f v = Ok (start_var start, stop, fd).
Proof.
  intros (a0 & a1 & (range_var & func_var & kws & name & H1 & H2 & H3)
          & Ha0 & Ha1).
  unfold _find_iter_range. rewrite H1. simpl. rewrite H2. simpl.
  rewrite H3. simpl. destruct (pyobj_eq_dec range range); [| congruence].
  simpl. rewrite Ha0. simpl. rewrite Ha1. simpl. eauto.
Qed.

Lemma guard_Ok_Some_inv {A B} (f : A -> outcome B) x b :
  guard f x = Ok (Some b) -> f x = Ok b.
Proof. unfold guard. destruct (f x) as [b'|[]]; congruence. Qed.

Lemma guard_Ok_None_inv {A B} (f : A -> outcome B) x :
  guard f x = Ok None -> f x = Raise GuardException.
Proof. unfold guard. destruct (f x) as [b'|[]]; congruence. Qed.

(** The claim of C3 on the index, as the spec states it: the loop's own
    current-value variable is the index of the array, offset by the start
    of the range only when the start is not zero.  For a range whose start
    is the constant 0, the store that takes the place of the append is then
    indexed by the loop's own variable. *)
Definition offset_only_for_nonzero_start : Prop :=
  forall cfg visited loop enable_prange s s' m start stop
         array_var index_var arg0,
    _inline_arraycall_match (self_func_ir s) cfg visited loop = Ok m ->
    _inline_arraycall cfg visited loop enable_prange s = (Ok true, s') ->
    plain_range_start_stop (self_func_ir s) (m_iter_var m) start stop ->
    _get_definition (self_func_ir s) start
    = Ok (atom (Const (Scalar (PInt 0)))) ->
    in_block (blocks (self_func_ir s')) (m_append_block_label m)
             (SetItem array_var index_var arg0) ->
    index_var = m_iter_first_var m.

Definition matched (blks : list (Z * Block)) : arraycall_match :=
  match _inline_arraycall_match (self_func_ir (Examples.state_of blks))
                                Examples.the_cfg [10%Z] Examples.the_loop with
  | Ok m => m
  | Raise _ =>
      mkMatch 0 0 None 0 (Jump 0) (Var "") "" 0 (Jump 0) 0 [] []
  end.

Definition rewritten (blks : list (Z * Block)) : State :=
  snd (_inline_arraycall Examples.the_cfg [10%Z] Examples.the_loop false
                         (Examples.state_of blks)).

Lemma range_zero_is_start_stop :
  plain_range_start_stop
    (self_func_ir (Examples.state_of Examples.range_zero_blocks))
    (Var "$phi") (Var "$const0") (Var "$const7").
Proof.
  exists (Var "$const0"), (Var "$const7").
  split; [| split; vm_compute; reflexivity].
  exists (Var "$0.4"), "$0.2"%string, [], "range"%string.
  repeat split; vm_compute; reflexivity.
Qed.

(** C3, counterexample: in the loop over [range(0, 7)] the start is the
    constant 0, and the store is indexed by the new variable [$21], which
    the first statement of the loop body sets to [$10.3 - $const0]. *)
Lemma C3_counterexample : ~ offset_only_for_nonzero_start.
Proof.
  intros H.
  specialize (H Examples.the_cfg [10%Z] Examples.the_loop false
                (Examples.state_of Examples.range_zero_blocks)
                (rewritten Examples.range_zero_blocks)
                (matched Examples.range_zero_blocks)
                (Var "$const0") (Var "$const7")
                "$25"%string "$21"%string (Var "$12.5")).
  assert (E : "$21"%string
              = m_iter_first_var (matched Examples.range_zero_blocks));
    [| vm_compute in E; discriminate E].
  apply H.
  - vm_compute. reflexivity.
  - vm_compute. reflexivity.
  - vm_compute m_iter_var. exact range_zero_is_start_stop.
  - vm_compute. reflexivity.
  - clear H. eexists. split; [vm_compute; reflexivity | simpl; tauto].
Qed.

(** C3, amended: after a successful rewrite of a loop whose entry, header,
    exit and append blocks are laid out as a loop's are, the append is an
    indexed store into the array at [index_var], and the array is allocated
    in the loop entry with the one-element shape [(size_var,)], where:
    when the definitions table shows the iterator to be that of a call
    [range(stop)], the size is [stop] and the index is the loop's own
    current-value variable;
    when it shows the iterator to be that of a call with two arguments,
    copies of the variables [start] and [stop], whatever the value of
    [start], the size is [stop - start] and the index is a new variable,
    set to -1 in the loop entry and to the current value minus [start] by
    the first statement of the block the header branches to;
    when it shows neither, the size is the call of [range_iter_len] on the
    iterator, and the index is a counter that the loop entry sets to -1 and
    the header increments just before its last statement, so that its
    value after the first pass through the header is 0.
    [_find_iter_range] accepts exactly the first two kinds. *)
Theorem C3_index_and_trip_count :
  (forall f v stop,
      (exists fd, _find_iter_range f v = Ok (literal_0, stop, fd))
      <-> plain_range_stop f v stop) /\
  (forall f v start stop,
      (exists fd, _find_iter_range f v = Ok (start_var start, stop, fd))
      <-> plain_range_start_stop f v start stop) /\
  (forall cfg visited loop enable_prange s s' m,
      _inline_arraycall_match (self_func_ir s) cfg visited loop = Ok m ->
      _inline_arraycall cfg visited loop enable_prange s = (Ok true, s') ->
      m_loop_entry m <> m_append_block_label m ->
      m_loop_entry m <> m_exit_block m ->
      m_loop_entry m <> analysis.header loop ->
      m_exit_block m <> analysis.header loop ->
      (forall c t f,
          branch_at (blocks (self_func_ir s)) (analysis.header loop) c t f ->
          t <> m_exit_block m) ->
      let blks := blocks (self_func_ir s) in
      let blks' := blocks (self_func_ir s') in
      exists index_var size_var array_var arg0,
        (exists func args kws target,
            m_append_stmt m
            = Assign (expr (call func (arg0 :: args) kws)) target)
        /\ in_block blks' (m_append_block_label m)
                    (SetItem array_var index_var arg0)
        /\ (exists size_tuple_var empty_func array_kws,
               in_block blks' (m_loop_entry m)
                        (Assign (expr (build_tuple [Var size_var]))
                                size_tuple_var)
               /\ in_block blks' (m_loop_entry m)
                           (Assign (expr (call empty_func
                                               [Var size_tuple_var]
                                               array_kws)) array_var))
        (* range(stop) *)
        /\ (forall stop,
               plain_range_stop (self_func_ir s) (m_iter_var m) stop ->
               index_var = m_iter_first_var m
               /\ in_block blks' (m_loop_entry m)
                           (Assign (atom stop) size_var))
        (* range(start, stop) *)
        /\ (forall start stop,
               plain_range_start_stop (self_func_ir s) (m_iter_var m)
                                      start stop ->
               in_block blks' (m_loop_entry m)
                        (Assign (expr (binop "-" stop start)) size_var)
               /\ in_block blks' (m_loop_entry m)
                           (Assign (atom (Const (Scalar (PInt (-1)))))
                                   index_var)
               /\ exists c t f,
                   branch_at blks (analysis.header loop) c t f
                   /\ stmt_at blks' t 0
                              (Assign (expr (binop "-"
                                               (Var (m_iter_first_var m))
                                               start)) index_var))
        (* any other iterator *)
        /\ ((forall stop,
                ~ plain_range_stop (self_func_ir s) (m_iter_var m) stop) ->
            (forall start stop,
                ~ plain_range_start_stop (self_func_ir s) (m_iter_var m)
                                         start stop) ->
            (exists len_func_var,
                in_block blks' (m_loop_entry m)
                         (Assign (atom (Global "range_iter_len"
                                               range_iter_len))
                                 len_func_var)
                /\ in_block blks' (m_loop_entry m)
                            (Assign (expr (call len_func_var
                                                [m_iter_var m] []))
                                    size_var))
            /\ in_block blks' (m_loop_entry m)
                        (Assign (atom (Const (Scalar (PInt (-1)))))
                                index_var)
            /\ exists hb pre one next_index_var last,
                dict_get Z.eq_dec blks' (analysis.header loop) = Some hb
                /\ ir.body hb
                   = pre ++ increment index_var one next_index_var
                         ++ [last]
                /\ forall env,
                    exec_stmts
                      (exec_stmt env
                         (Assign (atom (Const (Scalar (PInt (-1)))))
                                 index_var))
                      (increment index_var one next_index_var) index_var
                    = Some 0%Z)).
Proof.
  split; [| split].
  - intros f v stop. split.
    + intros (fd & H). exact (find_iter_range_Ok_iterates _ _ H).
    + apply find_iter_range_stop.
  - intros f v start stop. split.
    + intros (fd & H). exact (find_iter_range_Ok_iterates _ _ H).
    + apply find_iter_range_start_stop.
  - intros cfg visited loop enable_prange s s' m Hm H
           Hentry_append Hentry_exit Hentry_header Hexit_header Hbranch
           blks blks'.
    destruct (@rewrite_index_and_size cfg visited loop enable_prange s s' m
                Hm H Hentry_append Hentry_exit Hentry_header Hexit_header
                Hbranch)
      as (index_var & size_var & array_var & arg0 & Happend & Hstore
          & Halloc & Hkind).
    exists index_var, size_var, array_var, arg0.
    split; [exact Happend |]. split; [exact Hstore |].
    split; [exact Halloc |].
    unfold index_and_size_for in Hkind.
    destruct (guard (_find_iter_range (self_func_ir s)) (m_iter_var m))
      as [[[[[|start0] stop0] fd0]|]|e] eqn:Hguard; [| | | destruct Hkind].
    + (* the iterator was found to be range(stop0) *)
      apply guard_Ok_Some_inv in Hguard.
      split; [| split].
      * intros stop Hstop.
        apply find_iter_range_stop in Hstop as (fd & Hstop).
        rewrite Hstop in Hguard. injection Hguard as -> _. exact Hkind.
      * intros start stop Hss.
        apply find_iter_range_start_stop in Hss as (fd & Hss).
        rewrite Hss in Hguard. discriminate Hguard.
      * intros Hno _. exfalso.
        exact (Hno stop0 (find_iter_range_Ok_iterates _ _ Hguard)).
    + (* the iterator was found to be range(start0, stop0) *)
      apply guard_Ok_Some_inv in Hguard.
      split; [| split].
      * intros stop Hstop.
        apply find_iter_range_stop in Hstop as (fd & Hstop).
        rewrite Hstop in Hguard. discriminate Hguard.
      * intros start stop Hss.
        apply find_iter_range_start_stop in Hss as (fd & Hss).
        rewrite Hss in Hguard. injection Hguard as -> -> _. exact Hkind.
      * intros _ Hno. exfalso.
        exact (Hno start0 stop0 (find_iter_range_Ok_iterates _ _ Hguard)).
    + (* no range *)
      apply guard_Ok_None_inv in Hguard.
      split; [| split].
      * intros stop Hstop.
        apply find_iter_range_stop in Hstop as (fd & Hstop).
        rewrite Hstop in Hguard. discriminate Hguard.
      * intros start stop Hss.
        apply find_iter_range_start_stop in Hss as (fd & Hss).
        rewrite Hss in Hguard. discriminate Hguard.
      * intros _ _. exact Hkind.
Qed.

Lemma range_stop_is_stop :
  plain_range_stop
    (self_func_ir (Examples.state_of Examples.range_stop_blocks))
    (Var "$phi") (Var "$const5").
Proof.
  split; [| exists (Var "$const5"); vm_compute; reflexivity].
  exists (Var "$0.4"), "$0.2"%string, [], "range"%string.
  repeat split; vm_compute; reflexivity.
Qed.

Lemma range_start_is_start_stop :
  plain_range_start_stop
    (self_func_ir (Examples.state_of Examples.range_start_blocks))
    (Var "$phi") (Var "$const2a") (Var "$const7").
Proof.
  exists (Var "$const2a"), (Var "$const7").
  split; [| split; vm_compute; reflexivity].
  exists (Var "$0.4"), "$0.2"%string, [], "range"%string.
  repeat split; vm_compute; reflexivity.
Qed.

(** C3 on the loop over [range(5)], where the store is indexed by the
    loop's own variable and the size is [$const5]; on the loop over
    [range(2, 7)], where the size is [$const7 - $const2a] and the index is
    set to the loop's variable minus [$const2a] at the start of block 12;
    and on the loop over a list argument, where the size is a call of
    [range_iter_len] on the iterator and the index a counter set to -1. *)
Lemma C3_witness :
  (exists index_var size_var array_var arg0,
      in_block (blocks (self_func_ir (rewritten Examples.range_stop_blocks)))
               (m_append_block_label (matched Examples.range_stop_blocks))
               (SetItem array_var index_var arg0)
      /\ index_var = m_iter_first_var (matched Examples.range_stop_blocks)
      /\ in_block (blocks (self_func_ir
                             (rewritten Examples.range_stop_blocks)))
                  (m_loop_entry (matched Examples.range_stop_blocks))
                  (Assign (atom (Var "$const5")) size_var))
  /\ (exists index_var size_var array_var arg0,
         in_block (blocks (self_func_ir
                             (rewritten Examples.range_start_blocks)))
                  (m_append_block_label (matched Examples.range_start_blocks))
                  (SetItem array_var index_var arg0)
         /\ in_block (blocks (self_func_ir
                                (rewritten Examples.range_start_blocks)))
                     (m_loop_entry (matched Examples.range_start_blocks))
                     (Assign (expr (binop "-" (Var "$const7")
                                          (Var "$const2a"))) size_var)
         /\ exists c t f,
             branch_at (blocks (self_func_ir
                                  (Examples.state_of
                                     Examples.range_start_blocks)))
                       (analysis.header Examples.the_loop) c t f
             /\ stmt_at (blocks (self_func_ir
                                   (rewritten Examples.range_start_blocks)))
                        t 0
                        (Assign (expr (binop "-"
                                         (Var (m_iter_first_var
                                                 (matched
                                                    Examples.range_start_blocks)))
                                         (Var "$const2a"))) index_var))
  /\ (exists index_var size_var array_var arg0 len_func_var,
         in_block (blocks (self_func_ir
                             (rewritten Examples.other_iter_blocks)))
                  (m_append_block_label (matched Examples.other_iter_blocks))
                  (SetItem array_var index_var arg0)
         /\ in_block (blocks (self_func_ir
                                (rewritten Examples.other_iter_blocks)))
                     (m_loop_entry (matched Examples.other_iter_blocks))
                     (Assign (expr (call len_func_var
                                         [m_iter_var
                                            (matched
                                               Examples.other_iter_blocks)]
                                         [])) size_var)
         /\ in_block (blocks (self_func_ir
                                (rewritten Examples.other_iter_blocks)))
                     (m_loop_entry (matched Examples.other_iter_blocks))
                     (Assign (atom (Const (Scalar (PInt (-1))))) index_var)).
Proof.
  split; [| split].
  - destruct (proj2 (proj2 C3_index_and_trip_count)
                Examples.the_cfg [10%Z] Examples.the_loop false
                (Examples.state_of Examples.range_stop_blocks)
                (rewritten Examples.range_stop_blocks)
                (matched Examples.range_stop_blocks))
      as (index_var & size_var & array_var & arg0 & _ & Hstore & _ & Hstop
          & _).
    + vm_compute. reflexivity.
    + vm_compute. reflexivity.
    + vm_compute. discriminate.
    + vm_compute. discriminate.
    + vm_compute. discriminate.
    + vm_compute. discriminate.
    + intros c t f (blk & Hblk & Hterm). vm_compute in Hblk.
      injection Hblk as <-. vm_compute in Hterm. injection Hterm as _ <- _.
      vm_compute. discriminate.
    + exists index_var, size_var, array_var, arg0.
      split; [exact Hstore |].
      apply Hstop. vm_compute m_iter_var. exact range_stop_is_stop.
  - destruct (proj2 (proj2 C3_index_and_trip_count)
                Examples.the_cfg [10%Z] Examples.the_loop false
                (Examples.state_of Examples.range_start_blocks)
                (rewritten Examples.range_start_blocks)
                (matched Examples.range_start_blocks))
      as (index_var & size_var & array_var & arg0 & _ & Hstore & _ & _
          & Hss & _).
    + vm_compute. reflexivity.
    + vm_compute. reflexivity.
    + vm_compute. discriminate.
    + vm_compute. discriminate.
    + vm_compute. discriminate.
    + vm_compute. discriminate.
    + intros c t f (blk & Hblk & Hterm). vm_compute in Hblk.
      injection Hblk as <-. vm_compute in Hterm. injection Hterm as _ <- _.
      vm_compute. discriminate.
    + exists index_var, size_var, array_var, arg0.
      split; [exact Hstore |].
      destruct (Hss (Var "$const2a") (Var "$const7")) as (Hsize & _ & Hidx).
      * vm_compute m_iter_var. exact range_start_is_start_stop.
      * split; [exact Hsize | exact Hidx].
  - destruct (proj2 (proj2 C3_index_and_trip_count)
                Examples.the_cfg [10%Z] Examples.the_loop false
                (Examples.state_of Examples.other_iter_blocks)
                (rewritten Examples.other_iter_blocks)
                (matched Examples.other_iter_blocks))
      as (index_var & size_var & array_var & arg0 & _ & Hstore & _ & _
          & _ & Hother).
    + vm_compute. reflexivity.
    + vm_compute. reflexivity.
    + vm_compute. discriminate.
    + vm_compute. discriminate.
    + vm_compute. discriminate.
    + vm_compute. discriminate.
    + intros c t f (blk & Hblk & Hterm). vm_compute in Hblk.
      injection Hblk as <-. vm_compute in Hterm. injection Hterm as _ <- _.
      vm_compute. discriminate.
    + destruct Hother as ((len_func_var & _ & Hsize) & Hinit & _).
      * intros stop Hstop.
        apply find_iter_range_stop in Hstop as (fd & Hstop).
        vm_compute in Hstop. discriminate Hstop.
      * intros start stop Hss.
        apply find_iter_range_start_stop in Hss as (fd & Hss).
        vm_compute in Hss. discriminate Hss.
      * exists index_var, size_var, array_var, arg0, len_func_var.
        split; [exact Hstore |]. split; [exact Hsize | exact Hinit].
Defined.

(** The three kinds of iterator on the example loops: the index of the
    store and the statement that gives the size. *)
Example range_stop_rewritten :
  in_block (blocks (self_func_ir (rewritten Examples.range_stop_blocks))) 12
           (SetItem "$24" "$10.3" (Var "$12.5"))
  /\ in_block (blocks (self_func_ir (rewritten Examples.range_stop_blocks))) 0
              (Assign (atom (Var "$const5")) "$21").
Proof.
  split; eexists; (split; [vm_compute; reflexivity | simpl; tauto]).
Qed.

Example range_start_rewritten :
  in_block (blocks (self_func_ir (rewritten Examples.range_start_blocks))) 12
           (SetItem "$25" "$21" (Var "$12.5"))
  /\ stmt_at (blocks (self_func_ir (rewritten Examples.range_start_blocks)))
             12 0
             (Assign (expr (binop "-" (Var "$10.3") (Var "$const2a"))) "$21")
  /\ in_block (blocks (self_func_ir (rewritten Examples.range_start_blocks))) 0
              (Assign (expr (binop "-" (Var "$const7") (Var "$const2a")))
                      "$22").
Proof.
  repeat split; eexists;
    (split; [vm_compute; reflexivity | simpl; tauto || reflexivity]).
Qed.

(** * Further properties of the pass *)

(** ** A run that finds nothing to do *)

Lemma scan_block_None run_frontend find_topo_order label stmts :
  forall i s s',
    scan_block run_frontend find_topo_order label stmts i s = (Ok None, s') ->
    s' = s.
Proof.
  induction stmts as [|instr stmts IH]; intros i s s' H; simpl in H.
  - now injection H as <-.
  - destruct instr as [[o|[func args kws| | | | | | | | | | |]] lhs| | | | |];
      eauto.
    cbn [bindM gets] in H.
    apply bindM_Ok_inv in H as (func_def & s0 & Hfd & H).
    apply lift_Ok_inv in Hfd as [_ ->].
    destruct func_def as [[o|[]]|]; eauto.
    apply bindM_Ok_inv in H as (new_blocks & s1 & _ & H). discriminate.
Qed.

Lemma inline_all_count run_frontend find_topo_order fuel :
  forall work_list inlined s k s',
    inline_all run_frontend find_topo_order fuel work_list inlined s
    = (Ok k, s') ->
    (inlined <= k)%nat /\ (k = inlined -> s' = s).
Proof.
  induction fuel as [|fuel IH]; intros work_list inlined s k s' H;
    simpl in H.
  - destruct (rev work_list); [| discriminate].
    injection H as <- <-. auto.
  - destruct (rev work_list) as [|label rest_rev].
    + injection H as <- <-. auto.
    + cbn [bindM gets] in H.
      apply bindM_Ok_inv in H as (block & s0 & Hb & H).
      apply lift_Ok_inv in Hb as [_ ->].
      apply bindM_Ok_inv in H as (r & s1 & Hscan & H).
      destruct r as [new_blocks|].
      * apply IH in H as [Hle _]. split; [lia | intros ->; lia].
      * apply scan_block_None in Hscan as ->. now apply IH in H.
Qed.

Lemma inline_arraycalls_none auto_parallel cfg todo :
  forall visited rewritten s rewritten' s',
    inline_arraycalls auto_parallel cfg todo visited rewritten s
    = (Ok rewritten', s') ->
    (List.length rewritten <= List.length rewritten')%nat
    /\ (List.length rewritten' = List.length rewritten -> s' = s).
Proof.
  induction todo as [|[k size] todo IH];
    intros visited rewritten s rewritten' s' H; simpl in H.
  - injection H as <- <-. auto.
  - destruct (dict_get Z.eq_dec (analysis.loops cfg) k) as [loop|];
      [| discriminate].
    apply bindM_Ok_inv in H as (r & s1 & Hguard & H).
    unfold guardM in Hguard.
    destruct (_inline_arraycall cfg (visited ++ [k]) loop auto_parallel s)
      as [[b|e] s1'] eqn:Hcall.
    + injection Hguard as <- <-.
      apply inline_arraycall_true in Hcall as ->.
      apply IH in H as [Hle _]. rewrite length_app in Hle. simpl in Hle.
      split; [lia | intros Heq; lia].
    + destruct e; try discriminate. injection Hguard as <- <-.
      apply inline_arraycall_mismatch in Hcall as [-> _].
      now apply IH in H.
Qed.

Section Untouched.

Variable run_frontend : Code -> FunctionIR * list (nat * list string).
Variable find_topo_order : list (Z * Block) -> list Z.
Variable merge_adjacent_blocks : FunctionIR -> FunctionIR.
Variable compute_cfg_from_blocks : list (Z * Block) -> analysis.CFGraph.
Variable remove_dels : list (Z * Block) -> list (Z * Block).
Variable remove_dead : list (Z * Block) -> bool * list (Z * Block).
Variable rename_labels : list (Z * Block) -> list (Z * Block).
Variable fix_nested : M unit.
Variable auto_parallel : bool.
Variable enable_inline_arraycall : bool.

(** X1: a run of the pass that completes without having inlined a closure
    call or rewritten a loop has changed nothing: the function IR, its
    definitions table, the scopes and the counters of [ir_utils] are as they
    were.  It has called neither the nested-array fixup nor the final
    cleanup: with any other fixup and any other cleanups the run is the
    same.  Every candidate the pass has looked at and skipped has left no
    trace. *)
Theorem X1_run_without_match_changes_nothing :
  forall fuel s r s',
    run run_frontend find_topo_order merge_adjacent_blocks
        compute_cfg_from_blocks remove_dels remove_dead rename_labels
        fix_nested auto_parallel enable_inline_arraycall fuel s
    = (Ok r, s') ->
    inlined_calls r = 0%nat ->
    rewritten_loops r = [] ->
    s' = s
    /\ forall remove_dels' remove_dead' rename_labels' (fix_nested' : M unit),
        run run_frontend find_topo_order merge_adjacent_blocks
            compute_cfg_from_blocks remove_dels' remove_dead' rename_labels'
            fix_nested' auto_parallel enable_inline_arraycall fuel s
        = (Ok r, s).
Proof.
  intros fuel s r s' H Hinl Hrw.
  unfold run in H. cbn [bindM gets] in H.
  apply bindM_Ok_inv in H as (inlined & s2 & Hall & H).
  pose proof (inline_all_count _ _ _ _ _ _ Hall) as [_ Hs2].
  apply bindM_Ok_inv in H as ([modified rewritten] & s3 & Hmid & H).
  apply bindM_Ok_inv in H as ([] & s4 & Hclean & H).
  injection H as <- <-. simpl in Hinl, Hrw. subst inlined rewritten.
  specialize (Hs2 eq_refl). subst s2. simpl in Hmid.
  destruct enable_inline_arraycall.
  - cbn [bindM ret gets] in Hmid.
    apply bindM_Ok_inv in Hmid as (rw & s5 & Hloops & Hmid).
    pose proof (inline_arraycalls_none _ _ _ _ _ _ Hloops) as [_ Hs5].
    destruct rw as [|k rw].
    2:{ simpl in Hmid.
        apply bindM_Ok_inv in Hmid as ([] & s6 & _ & Hmid). discriminate. }
    specialize (Hs5 eq_refl). subst s5. simpl in Hmid.
    cbn [bindM ret] in Hmid. injection Hmid as <- <-.
    injection Hclean as <-. split; [reflexivity |].
    intros remove_dels' remove_dead' rename_labels' fix_nested'.
    unfold run. cbn [bindM gets]. rewrite (bindM_eq _ Hall).
    cbn [negb Nat.eqb].
    match goal with
    | |- bindM ?m _ s = _ => assert (Hmid : m s = (Ok (false, []), s))
    end.
    { unfold bindM at 1. cbn [ret]. cbn [bindM gets].
      now rewrite (bindM_eq _ Hloops). }
    now rewrite (bindM_eq _ Hmid).
  - injection Hmid as <- <-. injection Hclean as <-.
    split; [reflexivity |].
    intros remove_dels' remove_dead' rename_labels' fix_nested'.
    unfold run. cbn [bindM gets]. rewrite (bindM_eq _ Hall). reflexivity.
Qed.

End Untouched.

(** X1 on the loop of [range_stop_blocks] in a control-flow graph whose
    header has a third predecessor: the loop is looked at and skipped. *)
Lemma X1_witness :
  snd (run Examples.frontend Examples.topo_order_as_held (fun f => f)
           (fun _ => Examples.branching_cfg) (fun b => b)
           (fun b => (false, b)) (fun b => b) (ret tt) false true 10
           (Examples.state_of Examples.range_stop_blocks))
  = Examples.state_of Examples.range_stop_blocks.
Proof.
  refine (proj1 (@X1_run_without_match_changes_nothing
            Examples.frontend Examples.topo_order_as_held (fun f => f)
            (fun _ => Examples.branching_cfg) (fun b => b)
            (fun b => (false, b)) (fun b => b) (ret tt) false true 10%nat
            (Examples.state_of Examples.range_stop_blocks)
            (mkReport 0 [])
            (snd (run Examples.frontend Examples.topo_order_as_held
                      (fun f => f) (fun _ => Examples.branching_cfg)
                      (fun b => b) (fun b => (false, b)) (fun b => b)
                      (ret tt) false true 10
                      (Examples.state_of Examples.range_stop_blocks)))
            _ _ _)).
  - vm_compute. reflexivity.
  - reflexivity.
  - reflexivity.
Defined.

(** ** The loops that the rewrite accepts *)

Lemma check_append_labels func_ir list_var_def label (P : Z -> Prop)
      acc stmt acc' :
  Forall (fun ls : Z * Stmt => P (fst ls)) (fst acc) ->
  P label ->
  check_append func_ir list_var_def label acc stmt = Ok acc' ->
  Forall (fun ls : Z * Stmt => P (fst ls)) (fst acc').
Proof.
  intros Hacc Hl H. unfold check_append in H.
  destruct stmt as [[o|[func args kws| | | | | | | | | | |]] lhs| | | | |];
    try (now injection H as <-).
  apply bind_Ok_inv in H as (func_def & _ & H).
  destruct func_def as [o|[]]; try (now injection H as <-).
  destruct (string_dec attr "append"); [| now injection H as <-].
  apply bind_Ok_inv in H as (list_def & _ & H).
  destruct (same_object list_def list_var_def); injection H as <-;
    [| assumption].
  simpl. apply Forall_app. split; [assumption |].
  constructor; [exact Hl | constructor].
Qed.

Lemma check_body_block_labels func_ir cfg visited list_var_def (Q : Z -> Prop)
      acc label acc' :
  let P := fun l =>
             Q l /\ forallb (fun lp => set_mem (analysis.header lp) visited)
                            (analysis.in_loops cfg l) = true in
  Forall (fun ls : Z * Stmt => P (fst ls)) (fst acc) ->
  Q label ->
  check_body_block func_ir cfg visited list_var_def acc label = Ok acc' ->
  Forall (fun ls : Z * Stmt => P (fst ls)) (fst acc').
Proof.
  intros P Hacc Hl H. unfold check_body_block in H.
  destruct (forallb _ _) eqn:Hv; simpl in H; [| now injection H as <-].
  apply bind_Ok_inv in H as (block & _ & H).
  revert H.
  apply foldM_invariant
    with (Q := fun _ : Stmt => True)
         (P := fun a : list (Z * Stmt) * option Object =>
                 Forall (fun ls : Z * Stmt => P (fst ls)) (fst a));
    [| | assumption].
  - intros a x a' Ha _ Hx.
    eapply check_append_labels; [exact Ha | | exact Hx].
    split; assumption.
  - apply Forall_forall. auto.
Qed.

(** ** What the rewrite of a loop leaves in place *)

(** What a computation does not touch: an observation of the state that
    is the same after it, whatever its outcome. *)
Definition preserves {A X} (obs : State -> X) (m : M A) : Prop :=
  forall s r s', m s = (r, s') -> obs s' = obs s.

(** The labels of the blocks with the scope each block points to, and the
    two counters of [ir_utils]. *)
Definition frame (s : State) : list (Z * nat) * Z * nat :=
  (map (fun lb : Z * Block => (fst lb, scope (snd lb)))
       (blocks (self_func_ir s)),
   _max_label s, _unique_var_count s).

Section Preserves.
Context {X : Type} (obs : State -> X).

Lemma pres_ret {A} (a : A) : preserves obs (ret a).
Proof. intros s r s' [= <- <-]. reflexivity. Qed.

Lemma pres_gets {A} (f : State -> A) : preserves obs (gets f).
Proof. intros s r s' [= <- <-]. reflexivity. Qed.

Lemma pres_lift {A} (r : outcome A) : preserves obs (lift r).
Proof. intros s r' s' [= <- <-]. reflexivity. Qed.

Lemma pres_bind {A B} (m : M A) (k : A -> M B) :
  preserves obs m -> (forall a, preserves obs (k a)) ->
  preserves obs (bindM m k).
Proof.
  intros Hm Hk s r s' H.
  apply bindM_inv in H as [(e & H & _) | (a & s1 & H1 & H2)].
  - eapply Hm; eassumption.
  - apply Hm in H1. apply Hk in H2. congruence.
Qed.

Lemma pres_modify (f : State -> State) :
  (forall s, obs (f s) = obs s) -> preserves obs (modify f).
Proof. intros Hf s r s' [= <- <-]. apply Hf. Qed.

Lemma pres_guardM {A} (m : M A) : preserves obs m -> preserves obs (guardM m).
Proof.
  intros Hm s r s' H. unfold guardM in H.
  destruct (m s) as [[a|e] s1] eqn:E.
  - injection H as <- <-. eapply Hm; eassumption.
  - assert (s' = s1) as -> by (destruct e; now injection H).
    eapply Hm; eassumption.
Qed.

End Preserves.

Lemma dict_set_map_same {V Y} (g : Z * V -> Y) (d : list (Z * V)) k v b :
  dict_get Z.eq_dec d k = Some b -> g (k, v) = g (k, b) ->
  map g (dict_set Z.eq_dec d k v) = map g d.
Proof.
  intros Hget Hg. induction d as [|[k' v'] d IH]; simpl in *; [discriminate |].
  destruct (Z.eq_dec k k') as [->|].
  - injection Hget as ->. simpl. now rewrite Hg.
  - simpl. now rewrite IH.
Qed.

Lemma frame_define sc name : preserves frame (define sc name).
Proof.
  intros s r s'. unfold define.
  destruct (mem_string _ _); intros [= <- <-]; reflexivity.
Qed.

Lemma frame_make_temp sc : preserves frame (make_temp sc).
Proof. intros s r s'. unfold make_temp. apply frame_define. Qed.

Lemma frame_set_definitions name defs :
  preserves frame (set_definitions name defs).
Proof. intros s r s' [= <- <-]. reflexivity. Qed.

Lemma frame_set_body label stmts : preserves frame (set_body label stmts).
Proof.
  intros s r s'. unfold set_body. cbn [bindM gets lift].
  destruct (get_block (self_func_ir s) label) as [blk|] eqn:E;
    [| now intros [= <- <-]].
  intros [= <- <-]. unfold frame. simpl.
  apply get_block_dict_get in E.
  erewrite dict_set_map_same; [reflexivity | eassumption | reflexivity].
Qed.

Lemma frame_retarget holder old new s :
  frame (mkState (retarget_object holder old new (self_func_ir s))
                 (localvars s) (_max_label s) (_unique_var_count s))
  = frame s.
Proof. unfold frame. simpl. now rewrite map_map. Qed.

Lemma frame_mark_prange func_var range_func_def stmts :
  preserves frame (mark_prange func_var range_func_def stmts).
Proof.
  intros s r s'. unfold mark_prange. cbn [bindM gets].
  destruct range_func_def as [[]|]; try (now intros [= <- <-]).
  destruct (get_definition_lhs_only _ _) as [[]|];
    try (now intros [= <- <-]).
  intros [= <- <-]. apply frame_retarget.
Qed.

Create HintDb frame.

#[local] Hint Resolve pres_ret pres_gets pres_lift frame_define
  frame_make_temp frame_set_definitions frame_set_body frame_mark_prange
  : frame.

Ltac frame_steps :=
  repeat first
    [ solve [auto with frame]
    | apply pres_bind; [| intros ?]
    | match goal with
      | |- preserves _ (match ?x with _ => _ end) => destruct x
      | |- preserves _ (if ?x then _ else _) => destruct x
      | |- preserves _ (let _ := _ in _) => cbv zeta
      end ].

Lemma frame_new_definition var value :
  preserves frame (_new_definition var value).
Proof. unfold _new_definition. frame_steps. Qed.

#[local] Hint Resolve frame_new_definition : frame.

Lemma frame_rebind_removed removed array_var stmts :
  preserves frame (rebind_removed removed array_var stmts).
Proof.
  revert stmts. induction removed as [|var removed IH]; intros stmts; simpl.
  - apply pres_ret.
  - frame_steps.
Qed.

#[local] Hint Resolve frame_rebind_removed : frame.

Lemma frame_inline_arraycall cfg visited loop enable_prange :
  preserves frame (_inline_arraycall cfg visited loop enable_prange).
Proof.
  unfold _inline_arraycall, _inline_arraycall_rewrite, choose_index_var,
    choose_size, allocate_array, update_index, replace_array_call.
  frame_steps.
Qed.

Lemma gs_inline_arraycall cfg visited loop enable_prange :
  grows_scope (_inline_arraycall cfg visited loop enable_prange).
Proof.
  unfold _inline_arraycall, _inline_arraycall_rewrite, choose_index_var,
    update_index, replace_array_call, set_definitions.
  pose proof gs_choose_size. pose proof gs_allocate_array.
  pose proof gs_rebind_removed.
  gs_steps.
Qed.

Lemma same_frame_get (d d' : list (Z * Block)) label blk :
  map (fun lb : Z * Block => (fst lb, scope (snd lb))) d'
  = map (fun lb : Z * Block => (fst lb, scope (snd lb))) d ->
  dict_get Z.eq_dec d label = Some blk ->
  exists blk',
    dict_get Z.eq_dec d' label = Some blk' /\ scope blk' = scope blk.
Proof.
  revert d. induction d' as [|[l' b'] d' IH]; intros [|[l b] d] Hsk Hblk;
    simpl in *; try discriminate.
  injection Hsk as -> Hsc Hsk.
  destruct (Z.eq_dec label l) as [->|Hne].
  - injection Hblk as <-. eauto.
  - eauto.
Qed.

(** X3: whatever its outcome, [_inline_arraycall] neither adds nor removes
    a block, leaves every block under its label and pointing to its scope,
    does not touch the label counter and the variable counter of
    [ir_utils], and takes no variable out of a scope: it only rewrites
    bodies, adds definitions and adds temporaries. *)
Theorem X3_rewrite_keeps_blocks_in_place :
  forall cfg visited loop enable_prange s r s',
    _inline_arraycall cfg visited loop enable_prange s = (r, s') ->
    dict_keys (blocks (self_func_ir s')) = dict_keys (blocks (self_func_ir s))
    /\ (forall label blk,
           get_block (self_func_ir s) label = Ok blk ->
           exists blk',
             get_block (self_func_ir s') label = Ok blk'
             /\ scope blk' = scope blk)
    /\ _max_label s' = _max_label s
    /\ _unique_var_count s' = _unique_var_count s
    /\ (forall sc x, In x (scope_vars s sc) -> In x (scope_vars s' sc)).
Proof.
  intros cfg visited loop enable_prange s r s' H.
  pose proof (@frame_inline_arraycall _ _ _ _ _ _ _ H) as Hf.
  unfold frame in Hf. injection Hf as Hsk Hml Huv.
  split; [| split; [| split; [| split]]]; try assumption.
  - unfold dict_keys.
    apply (f_equal (map fst)) in Hsk. now rewrite !map_map in Hsk.
  - intros label blk Hblk. apply get_block_dict_get in Hblk.
    destruct (@same_frame_get _ _ _ _ Hsk Hblk) as (blk' & Hget & Hs).
    exists blk'. split; [| assumption]. now apply get_block_dict_get.
  - intros sc x. eapply gs_inline_arraycall; eassumption.
Qed.

(** X3 on the rewrite of the loop of [range_stop_blocks]. *)
Lemma X3_witness :
  dict_keys (blocks (self_func_ir
    (snd (_inline_arraycall Examples.the_cfg [10%Z] Examples.the_loop true
            (Examples.state_of Examples.range_stop_blocks)))))
  = [0%Z; 10%Z; 12%Z; 30%Z].
Proof.
  refine (proj1 (@X3_rewrite_keeps_blocks_in_place
            Examples.the_cfg [10%Z] Examples.the_loop true
            (Examples.state_of Examples.range_stop_blocks)
            (Ok true)
            (snd (_inline_arraycall Examples.the_cfg [10%Z] Examples.the_loop
                    true (Examples.state_of Examples.range_stop_blocks)))
            _)).
  vm_compute. reflexivity.
Defined.

(** ** The scopes of a set of blocks *)

Lemma get_all_scopes_from (blks : list (Z * Block)) :
  forall acc,
    NoDup acc ->
    let r := fold_left (fun all_scopes (lb : Z * Block) =>
                          if in_dec Nat.eq_dec (scope (snd lb)) all_scopes
                          then all_scopes
                          else all_scopes ++ [scope (snd lb)])
                       blks acc in
    NoDup r
    /\ forall sc, In sc r <->
                  In sc acc \/ exists lb, In lb blks /\ scope (snd lb) = sc.
Proof.
  induction blks as [|lb blks IH]; intros acc Hnd; simpl.
  - split; [assumption |]. intros sc. split; [auto |].
    intros [H | (lb & [] & _)]. exact H.
  - destruct (in_dec Nat.eq_dec (scope (snd lb)) acc) as [Hin | Hnin].
    + destruct (IH acc Hnd) as [H1 H2]. split; [exact H1 |].
      intros sc. rewrite H2. split.
      * intros [H | (lb' & Hlb' & Hsc)]; [auto |]. right. eauto.
      * intros [H | (lb' & [<- | Hlb'] & Hsc)]; [auto | | eauto].
        left. congruence.
    + assert (Hnd' : NoDup (acc ++ [scope (snd lb)])).
      { apply NoDup_app; [assumption | repeat constructor; intros [] |].
        intros x Hx [<- | []]. contradiction. }
      destruct (IH _ Hnd') as [H1 H2]. split; [exact H1 |].
      intros sc. rewrite H2, in_app_iff. simpl. split.
      * intros [[H | [<- | []]] | (lb' & Hlb' & Hsc)]; eauto.
      * intros [H | (lb' & [<- | Hlb'] & Hsc)]; eauto.
Qed.

Lemma NoDup_all_equal {A} (l : list A) (a : A) :
  NoDup l -> (forall x, In x l -> x = a) -> l <> [] -> l = [a].
Proof.
  intros Hnd Hall Hne. destruct l as [|x [|y l]]; [congruence | |].
  - now rewrite (Hall x) by (now left).
  - exfalso. inversion Hnd as [|? ? Hx _]; subst. apply Hx. left.
    rewrite (Hall x), (Hall y); simpl; auto.
Qed.

(** X4: [_get_all_scopes] lists every scope some block points to, each of
    them once; so its result is a single scope, as [inline_closure_call]
    asserts of the callee, exactly when there is a block and all blocks
    point to that scope.  Without blocks it is empty. *)
Theorem X4_get_all_scopes :
  forall blks,
    NoDup (_get_all_scopes blks)
    /\ (forall sc, In sc (_get_all_scopes blks) <->
                   exists lb, In lb blks /\ scope (snd lb) = sc)
    /\ (forall sc, _get_all_scopes blks = [sc] <->
                   blks <> []
                   /\ forall lb, In lb blks -> scope (snd lb) = sc)
    /\ (_get_all_scopes blks = [] <-> blks = []).
Proof.
  intros blks. unfold _get_all_scopes.
  destruct (get_all_scopes_from blks (NoDup_nil nat)) as [Hnd Hin].
  cbv zeta in Hnd, Hin.
  set (r := fold_left _ blks []) in *.
  assert (Hin' : forall sc, In sc r <->
                            exists lb, In lb blks /\ scope (snd lb) = sc).
  { intros sc. rewrite Hin. simpl. tauto. }
  split; [exact Hnd |]. split; [exact Hin' |]. split.
  - intros sc. split.
    + intros Hr. split.
      * intros ->. assert (In sc r) as H by (rewrite Hr; now left).
        apply Hin' in H as (lb & [] & _).
      * intros lb Hlb.
        assert (In (scope (snd lb)) r) as H by (apply Hin'; eauto).
        rewrite Hr in H. destruct H as [<- | []]. reflexivity.
    + intros [Hne Hall]. apply NoDup_all_equal; [exact Hnd | |].
      * intros x Hx. apply Hin' in Hx as (lb & Hlb & <-). auto.
      * destruct blks as [|lb blks]; [congruence |].
        intros Hr. assert (In (scope (snd lb)) r) as H.
        { apply Hin'. exists lb. split; [now left | reflexivity]. }
        rewrite Hr in H. destruct H.
  - split.
    + intros Hr. destruct blks as [|lb blks]; [reflexivity |].
      assert (In (scope (snd lb)) r) as H.
      { apply Hin'. exists lb. split; [now left | reflexivity]. }
      rewrite Hr in H. destruct H.
    + intros ->. reflexivity.
Qed.

(** ** The order in which the loops are tried *)








(** ** The definitions table *)

(** [definitions[name]] of a [defaultdict(list)]: a name without entry has
    no definition. *)
Definition definitions_for (f : FunctionIR) (name : string) : list Value :=
  match dict_get string_dec (_definitions f) name with
  | Some l => l
  | None => []
  end.

(** The values that the assignments of a body give to [name], in order. *)
Definition assigned_to (name : string) (stmts : list Stmt) : list Value :=
  flat_map (fun stmt =>
              match stmt with
              | Assign value target =>
                  if string_dec target name then [value] else []
              | _ => []
              end)
           stmts.

Lemma get_definition_single f name d :
  dict_get string_dec (_definitions f) name = Some [d] ->
  (forall name', d <> atom (Var name')) ->
  get_definition f (Var name) = Ok d.
Proof.
  intros Hget Hd. unfold get_definition. simpl. rewrite Hget.
  destruct d as [o|e]; [| reflexivity].
  destruct o; try (now destruct (List.length (_definitions f))).
  now elim (Hd name0).
Qed.

Lemma get_definition_several f name d1 d2 l :
  dict_get string_dec (_definitions f) name = Some (d1 :: d2 :: l) ->
  get_definition f (Var name) = Raise KeyError.
Proof.
  intros Hget. unfold get_definition. simpl. rewrite Hget.
  now destruct d1 as [o|e].
Qed.

(** X6: [_new_definition] always returns the assignment of the value to
    the variable and makes the value the variable's one definition,
    whatever definitions the variable had; no other entry of the table and
    no block changes.  Looking the variable up afterwards gives the value
    back, unless the value is itself a variable, which a lookup follows. *)
Theorem X6_new_definition_is_the_definition :
  forall var value s,
    exists s',
      _new_definition var value s = (Ok (Assign value var), s')
      /\ definitions_for (self_func_ir s') var = [value]
      /\ (forall name, name <> var ->
                       definitions_for (self_func_ir s') name
                       = definitions_for (self_func_ir s) name)
      /\ blocks (self_func_ir s') = blocks (self_func_ir s)
      /\ ((forall name, value <> atom (Var name)) ->
          _get_definition (self_func_ir s') (Var var) = Ok value).
Proof.
  intros var value s. eexists. split; [reflexivity |].
  unfold definitions_for. simpl.
  assert (Hget : dict_get string_dec
                   (dict_set string_dec (_definitions (self_func_ir s)) var
                             [value]) var = Some [value]).
  { rewrite dict_get_set. destruct (string_dec var var); congruence. }
  split; [now rewrite Hget |]. split; [| split; [reflexivity |]].
  - intros name Hne. rewrite dict_get_set.
    destruct (string_dec name var); [contradiction | reflexivity].
  - intros Hv. unfold _get_definition.
    erewrite get_definition_single; [reflexivity | exact Hget | exact Hv].
Qed.

Lemma definitions_append_for defs t v name :
  match dict_get string_dec (definitions_append defs t v) name with
  | Some l => l
  | None => []
  end
  = match dict_get string_dec defs name with
    | Some l => l
    | None => []
    end ++ (if string_dec t name then [v] else []).
Proof.
  unfold definitions_append.
  destruct (dict_get string_dec defs t) as [l|] eqn:E;
    rewrite dict_get_set;
    (destruct (string_dec name t) as [->|Hne];
     [ rewrite E; destruct (string_dec t t); [reflexivity | congruence]
     | destruct (string_dec t name); [congruence | now rewrite app_nil_r] ]).
Qed.

Lemma add_definitions_fold stmts name :
  forall defs,
    match dict_get string_dec
            (fold_left (fun defs stmt =>
                          match stmt with
                          | Assign value target =>
                              definitions_append defs target value
                          | _ => defs
                          end)
                       (filter is_Assign stmts) defs) name with
    | Some l => l
    | None => []
    end
    = match dict_get string_dec defs name with
      | Some l => l
      | None => []
      end ++ assigned_to name stmts.
Proof.
  induction stmts as [|stmt stmts IH]; intros defs; simpl.
  - now rewrite app_nil_r.
  - destruct stmt as [v t| | | | |]; simpl; try apply IH.
    rewrite IH, definitions_append_for, <- app_assoc. reflexivity.
Qed.

(** X7: [_add_definitions] always returns; it appends, for every variable,
    the values that the block assigns to it, in the order of the block, to
    the definitions the variable has, and changes no block.  So a variable
    that had a definition and is assigned in the block has several
    afterwards, and looking it up no longer gives a definition: the plain
    lookup raises [KeyError], the guarded one the guard signal. *)
Theorem X7_add_definitions_appends :
  forall block s,
    exists s',
      _add_definitions block s = (Ok tt, s')
      /\ blocks (self_func_ir s') = blocks (self_func_ir s)
      /\ (forall name,
             definitions_for (self_func_ir s') name
             = definitions_for (self_func_ir s) name
               ++ assigned_to name (ir.body block))
      /\ (forall name,
             definitions_for (self_func_ir s) name <> [] ->
             assigned_to name (ir.body block) <> [] ->
             get_definition (self_func_ir s') (Var name) = Raise KeyError
             /\ _get_definition (self_func_ir s') (Var name)
                = Raise GuardException).
Proof.
  intros block s. eexists. split; [reflexivity |].
  split; [reflexivity |].
  assert (Hfor : forall name,
             definitions_for
               (self_func_ir
                  (mkState
                     (mkFunctionIR (blocks (self_func_ir s))
                        (fold_left
                           (fun defs stmt =>
                              match stmt with
                              | Assign value target =>
                                  definitions_append defs target value
                              | _ => defs
                              end)
                           (find_insts_Assign block)
                           (_definitions (self_func_ir s))))
                     (localvars s) (_max_label s) (_unique_var_count s)))
               name
             = definitions_for (self_func_ir s) name
               ++ assigned_to name (ir.body block)).
  { intros name. unfold definitions_for, find_insts_Assign. simpl.
    apply add_definitions_fold. }
  split; [exact Hfor |].
  intros name Hold Hnew. specialize (Hfor name).
  set (s' := mkState _ _ _ _) in *.
  assert (Hsev : exists d1 d2 l,
             dict_get string_dec (_definitions (self_func_ir s')) name
             = Some (d1 :: d2 :: l)).
  { unfold definitions_for in Hfor at 1.
    destruct (dict_get string_dec (_definitions (self_func_ir s')) name)
      as [l|].
    - destruct (definitions_for (self_func_ir s) name) as [|a l1];
        [congruence |].
      destruct (assigned_to name (ir.body block)) as [|b l2]; [congruence |].
      destruct l1 as [|a' l1]; simpl in Hfor; subst l; eauto.
    - destruct (definitions_for (self_func_ir s) name); [congruence |].
      discriminate. }
  destruct Hsev as (d1 & d2 & l & Hsev).
  unfold _get_definition. rewrite (get_definition_several _ _ Hsev). auto.
Qed.

(** ** The blocks after a closure call was inlined *)

Section Inlined.
Variable run_frontend : Code -> FunctionIR * list (nat * list string).
Variable find_topo_order : list (Z * Block) -> list Z.

(** The steps of [inline_closure_call] when it returns. *)
Lemma inline_closure_call_inv label i code closure defaults s new_blocks s' :
  inline_closure_call run_frontend find_topo_order label i
                      (make_function code closure defaults) s
  = (Ok new_blocks, s') ->
  exists block func call_args kws target max_label min_label mx blk cb3
         topo_order s6,
    get_block (self_func_ir s) label = Ok block
    /\ nth_error (ir.body block) i
       = Some (Assign (expr (call func call_args kws)) target)
    /\ python_max (dict_keys (blocks (self_func_ir s))) = Ok max_label
    /\ python_min (map (fun l => (l + (max_label + 1))%Z)
                       (dict_keys (blocks (fst (run_frontend code)))))
       = Ok min_label
    /\ python_max (map (fun l => (l + (max_label + 1))%Z)
                       (dict_keys (blocks (fst (run_frontend code)))))
       = Ok mx
    /\ dict_keys cb3 = map (fun l => (l + (max_label + 1))%Z)
                           (dict_keys (blocks (fst (run_frontend code))))
    /\ dict_get Z.eq_dec
         (dict_set Z.eq_dec (blocks (self_func_ir s)) (mx + 1)%Z
                   (mkBlock (scope block) (skipn (S i) (ir.body block))))
         label = Some blk
    /\ blocks (self_func_ir s6)
       = dict_set Z.eq_dec
           (dict_set Z.eq_dec (blocks (self_func_ir s)) (mx + 1)%Z
                     (mkBlock (scope block) (skipn (S i) (ir.body block))))
           label
           (mkBlock (scope blk) (firstn i (ir.body block) ++ [Jump min_label]))
    /\ merge_blocks (scope block) cb3 topo_order s6 = (Ok tt, s')
    /\ new_blocks = (mx + 1)%Z :: topo_order.
Proof.
  intros H.
  unfold inline_closure_call, get_ir_of_code in H.
  cbn [bindM gets] in H.
  apply bindM_Ok_inv in H as (block & s0 & Hblock & H).
  apply lift_Ok_inv in Hblock as [Hblock ->].
  destruct (nth_error (ir.body block) i) as [instr|] eqn:Hinstr;
    [| discriminate].
  destruct instr as [[o|[func call_args kws| | | | | | | | | | |]] target
                    | | | | |]; try discriminate.
  apply bindM_Ok_inv in H as (max_label & s0 & Hmax & H).
  apply lift_Ok_inv in Hmax as [Hmax ->].
  set (cb := ir_utils.add_offset_to_labels _ (max_label + 1)) in *.
  apply bindM_Ok_inv in H as (min_label & s0 & Hmin & H).
  apply lift_Ok_inv in Hmin as [Hmin ->].
  apply bindM_Ok_inv in H as (mx & s0 & Hmx & H).
  apply lift_Ok_inv in Hmx as [Hmx ->].
  apply bindM_Ok_inv in H as ([] & s1 & Hs1 & H).
  injection Hs1 as <-.
  destruct (_get_all_scopes cb) as [|callee_scope [|]]; try discriminate.
  apply bindM_Ok_inv in H as (var_dict & s2 & Hvd & H).
  apply make_var_dict_Ok in Hvd as [Hir2 Hml2]. simpl in Hir2, Hml2.
  apply bindM_Ok_inv in H as (args & s0 & Hargs & H).
  apply lift_Ok_inv in Hargs as [Hargs ->].
  apply bindM_Ok_inv in H as (cb1 & s0 & Hcb1 & H).
  apply lift_Ok_inv in Hcb1 as [Hcb1 ->].
  apply bindM_Ok_inv in H as (cb2 & s0 & Hcb2 & H).
  apply lift_Ok_inv in Hcb2 as [Hcb2 ->].
  apply bindM_Ok_inv in H as (new_label & s3 & Hnl & H).
  unfold ir_utils.next_label in Hnl. injection Hnl as <- <-.
  apply bindM_Ok_inv in H as ([] & s4 & Hs4 & H).
  injection Hs4 as <-.
  apply bindM_Ok_inv in H as ([] & s5 & Hs5 & H).
  apply set_body_Ok in Hs5 as (blk & Hblk & ->).
  apply bindM_Ok_inv in H as (cb3 & s0 & Hcb3 & H).
  apply lift_Ok_inv in Hcb3 as [Hcb3 ->].
  cbn [bindM gets] in H.
  apply bindM_Ok_inv in H as ([] & s6 & Hs6 & H).
  apply bindM_Ok_inv in H as ([] & s7 & Hmerge & H).
  injection H as <- <-.
  apply get_block_dict_get in Hblk.
  cbn [self_func_ir blocks _max_label] in Hblk. rewrite Hir2 in Hblk.
  rewrite Hml2 in *.
  unfold cb in Hmin, Hmx. rewrite add_offset_keys in Hmin, Hmx.
  exists block, func, call_args, kws, target, max_label, min_label, mx, blk,
         cb3, (find_topo_order cb2), s6.
  repeat (split; [assumption || reflexivity |]).
  split.
  { apply for_each_block_keys in Hcb3. rewrite Hcb3.
    apply replace_closure_keys in Hcb2. rewrite Hcb2.
    apply for_each_block_keys in Hcb1. rewrite Hcb1.
    rewrite replace_vars_keys. apply add_offset_keys. }
  split; [exact Hblk |].
  split; [| split; [exact Hmerge | reflexivity]].
  rewrite Hir2 in Hs6.
  destruct (dict_mem string_dec _ target); injection Hs6 as <-; reflexivity.
Qed.

Lemma fold_left_min_le (l : list Z) (x : Z) :
  (fold_left Z.min l x <= x)%Z
  /\ (forall y, In y l -> (fold_left Z.min l x <= y)%Z)
  /\ In (fold_left Z.min l x) (x :: l).
Proof.
  revert x. induction l as [|z l IH]; intros x; simpl.
  - split; [lia |]. split; [intros y [] | auto].
  - destruct (IH (Z.min x z)) as (H1 & H2 & H3). split; [lia |]. split.
    + intros y [<- | Hy]; [lia | auto].
    + destruct H3 as [H3 | H3]; [| tauto].
      destruct (Z.min_spec x z) as [[_ E] | [_ E]]; rewrite E in *; tauto.
Qed.

Lemma python_min_spec (l : list Z) (m : Z) :
  python_min l = Ok m -> In m l /\ forall y, In y l -> (m <= y)%Z.
Proof.
  destruct l as [|x l]; simpl; [discriminate |].
  destruct (fold_left_min_le l x) as (H1 & H2 & H3).
  intros [= <-]. split; [destruct H3; auto |].
  intros y [<- | Hy]; auto.
Qed.

(** X8: when [inline_closure_call] returns (callee labels not negative),
    the block that held the call keeps the statements before the call and
    ends in a jump to the callee's first block, the one with the smallest
    label; the statements after the call, unchanged and in order, are the
    body of the successor block, which comes first among the new blocks
    returned; both blocks point to the scope of the caller.  The call
    statement itself is in neither. *)
Theorem X8_call_site_is_split :
  forall label i code closure defaults s new_blocks s',
    inline_closure_call run_frontend find_topo_order label i
                        (make_function code closure defaults) s
    = (Ok new_blocks, s') ->
    (forall l, In l (dict_keys (blocks (fst (run_frontend code)))) ->
               (0 <= l)%Z) ->
    exists block max_label l0 new_label topo_order,
      get_block (self_func_ir s) label = Ok block
      /\ python_max (dict_keys (blocks (self_func_ir s))) = Ok max_label
      /\ In l0 (dict_keys (blocks (fst (run_frontend code))))
      /\ (forall l, In l (dict_keys (blocks (fst (run_frontend code)))) ->
                    (l0 <= l)%Z)
      /\ new_blocks = new_label :: topo_order
      /\ get_block (self_func_ir s') label
         = Ok (mkBlock (scope block)
                       (firstn i (ir.body block)
                          ++ [Jump (l0 + (max_label + 1))]))
      /\ get_block (self_func_ir s') new_label
         = Ok (mkBlock (scope block) (skipn (S i) (ir.body block))).
Proof.
  intros label i code closure defaults s new_blocks s' H Hnonneg.
  apply inline_closure_call_inv in H
    as (block & func & call_args & kws & target & max_label & min_label & mx
        & blk & cb3 & topo_order & s6 & Hblock & Hinstr & Hmax & Hmin & Hmx
        & Hkeys & Hblk & Hb6 & Hmerge & ->).
  apply merge_blocks_spec in Hmerge as (_ & Hget & _ & _ & Htopo).
  apply python_min_spec in Hmin as [Hmin_in Hmin_le].
  apply in_map_iff in Hmin_in as (l0 & <- & Hl0).
  assert (Hcaller : forall l, In l (dict_keys (blocks (self_func_ir s))) ->
                              (l <= max_label)%Z).
  { intros l Hl. eapply python_max_ge; eassumption. }
  assert (Hlabel : (label <= max_label)%Z).
  { apply Hcaller. apply get_block_dict_get in Hblock.
    eapply dict_get_In; eassumption. }
  assert (Hmx_ge : forall l', In l' topo_order -> (max_label < l' <= mx)%Z).
  { intros l' Hl'. apply Htopo in Hl'. rewrite Hkeys in Hl'. split.
    - apply in_map_iff in Hl' as (l & <- & Hl). apply Hnonneg in Hl. lia.
    - eapply python_max_ge; eassumption. }
  assert (Hmx_gt : (max_label < mx)%Z).
  { destruct (python_max_In _ Hmx) as (y & Hy).
    pose proof (python_max_ge _ Hmx y Hy) as Hle.
    apply in_map_iff in Hy as (l & <- & Hl). apply Hnonneg in Hl. lia. }
  assert (Hblk' : blk = block).
  { rewrite dict_get_set in Hblk.
    destruct (Z.eq_dec label (mx + 1)); [lia |].
    apply get_block_dict_get in Hblock. congruence. }
  subst blk.
  exists block, max_label, l0, (mx + 1)%Z, topo_order.
  split; [assumption |]. split; [assumption |]. split; [assumption |].
  split.
  { intros l Hl.
    assert (l0 + (max_label + 1) <= l + (max_label + 1))%Z; [| lia].
    apply Hmin_le. apply in_map_iff. eauto. }
  split; [reflexivity |]. split.
  - apply get_block_dict_get. rewrite Hget, Hb6.
    + rewrite dict_get_set. destruct (Z.eq_dec label label); congruence.
    + intros Hl. apply Hmx_ge in Hl. lia.
  - apply get_block_dict_get. rewrite Hget, Hb6.
    + rewrite !dict_get_set.
      destruct (Z.eq_dec (mx + 1) label); [lia |].
      destruct (Z.eq_dec (mx + 1) (mx + 1)); congruence.
    + intros Hl. apply Hmx_ge in Hl. lia.
Qed.

Lemma merge_blocks_scope sc callee_blocks topo_order :
  forall s s',
    merge_blocks sc callee_blocks topo_order s = (Ok tt, s') ->
    (forall l b, dict_get Z.eq_dec (blocks (self_func_ir s)) l = Some b ->
                 scope b = sc) ->
    forall l b, dict_get Z.eq_dec (blocks (self_func_ir s')) l = Some b ->
                scope b = sc.
Proof.
  induction topo_order as [|label rest IH]; intros s s' H Hall; simpl in H.
  - now injection H as <-.
  - destruct (dict_get Z.eq_dec callee_blocks label) as [block|];
      [| discriminate].
    cbn [bindM _add_definitions set_func_ir modify set_block] in H.
    eapply IH; [exact H |]. simpl. intros l b. rewrite dict_get_set.
    destruct (Z.eq_dec l label); [now intros [= <-] | apply Hall].
Qed.

Lemma get_all_scopes_one (blks : list (Z * Block)) (sc : nat) :
  blks <> [] ->
  (forall lb, In lb blks -> scope (snd lb) = sc) ->
  _get_all_scopes blks = [sc].
Proof.
  intros Hne Hall. unfold _get_all_scopes.
  destruct (get_all_scopes_from blks (NoDup_nil nat)) as [Hnd Hin].
  cbv zeta in Hnd, Hin.
  apply NoDup_all_equal; [exact Hnd | |].
  - intros x Hx. apply Hin in Hx as [[] | (lb & Hlb & <-)]. auto.
  - destruct blks as [|lb blks]; [congruence |].
    intros Hr.
    assert (In (scope (snd lb))
               (fold_left
                  (fun all_scopes (lb0 : Z * Block) =>
                     if in_dec Nat.eq_dec (scope (snd lb0)) all_scopes
                     then all_scopes
                     else all_scopes ++ [scope (snd lb0)])
                  (lb :: blks) [])) as H.
    { apply Hin. right. exists lb. split; [now left | reflexivity]. }
    rewrite Hr in H. destruct H.
Qed.

(** X9: inlining keeps the function in one scope.  When every block of the
    caller points to the scope of the block that holds the call, every
    block of the function after [inline_closure_call] has returned, the
    merged blocks of the callee and the successor block included, points to
    that scope: [_get_all_scopes] gives this one scope. *)
Theorem X9_inlining_keeps_one_scope :
  forall label i code closure defaults s new_blocks s' block,
    inline_closure_call run_frontend find_topo_order label i
                        (make_function code closure defaults) s
    = (Ok new_blocks, s') ->
    get_block (self_func_ir s) label = Ok block ->
    (forall lb, In lb (blocks (self_func_ir s)) ->
                scope (snd lb) = scope block) ->
    NoDup (dict_keys (blocks (self_func_ir s))) ->
    _get_all_scopes (blocks (self_func_ir s')) = [scope block].
Proof.
  intros label i code closure defaults s new_blocks s' block H Hblock Hall
         Hnd.
  apply inline_closure_call_inv in H
    as (block' & func & call_args & kws & target & max_label & min_label & mx
        & blk & cb3 & topo_order & s6 & Hblock' & Hinstr & Hmax & Hmin & Hmx
        & Hkeys & Hblk & Hb6 & Hmerge & ->).
  assert (block' = block) as -> by congruence.
  assert (Hget : forall l b,
             dict_get Z.eq_dec (blocks (self_func_ir s)) l = Some b ->
             scope b = scope block).
  { intros l b Hlb. apply (Hall (l, b)).
    clear - Hlb. induction (blocks (self_func_ir s)) as [|[l' b'] d IH];
      simpl in *; [discriminate |].
    destruct (Z.eq_dec l l') as [->|]; [injection Hlb as ->; now left |].
    right. auto. }
  assert (Hblk_sc : scope blk = scope block).
  { rewrite dict_get_set in Hblk.
    destruct (Z.eq_dec label (mx + 1)); [now injection Hblk as <- |].
    eapply Hget; eassumption. }
  pose proof (merge_blocks_scope _ _ _ Hmerge) as Hsc.
  assert (Hall' : forall l b,
             dict_get Z.eq_dec (blocks (self_func_ir s')) l = Some b ->
             scope b = scope block).
  { apply Hsc. rewrite Hb6. intros l b. rewrite !dict_get_set.
    destruct (Z.eq_dec l label); [now intros [= <-] |].
    destruct (Z.eq_dec l (mx + 1)); [now intros [= <-] | apply Hget]. }
  apply merge_blocks_spec in Hmerge as (Hk & _ & Hnd' & _ & _).
  assert (Hnd6 : NoDup (dict_keys (blocks (self_func_ir s6)))).
  { rewrite Hb6. now do 2 apply dict_keys_set_NoDup. }
  specialize (Hnd' Hnd6).
  apply get_all_scopes_one.
  - intros E. assert (In label (dict_keys (blocks (self_func_ir s')))) as Hl.
    { apply Hk. left. rewrite Hb6. apply dict_keys_set_In. now left. }
    rewrite E in Hl. destruct Hl.
  - intros [l b] Hlb. simpl. apply (Hall' l).
    clear - Hlb Hnd'.
    induction (blocks (self_func_ir s')) as [|[l' b'] d IH]; simpl in *;
      [destruct Hlb |].
    inversion Hnd' as [|? ? Hnot Hd]; subst.
    destruct Hlb as [[= -> ->] | Hlb].
    + destruct (Z.eq_dec l l); congruence.
    + destruct (Z.eq_dec l l') as [->|]; [| auto].
      exfalso. apply Hnot. apply (in_map fst) in Hlb. exact Hlb.
Qed.

End Inlined.

(** X8 on [def f(x): return (lambda y: x + y)(5)]: the block of the call
    ends in a jump to the lambda's block, the cast and the return follow in
    the successor block. *)
Lemma X8_witness :
  get_block (self_func_ir (snd inline_lambda_example)) 0
  = Ok (mkBlock 0
          [ Assign (atom (Arg 0 "x")) "x";
            Assign (expr (build_tuple [Var "x"])) "$0.1";
            Assign (expr (make_function Examples.lambda_code
                                        (Some "$0.1"%string)
                                        (defaults_other PNone))) "$0.2";
            Assign (atom (Const (Scalar (PInt 5)))) "$const5";
            Jump 1 ])
  /\ get_block (self_func_ir (snd inline_lambda_example)) 2
     = Ok (mkBlock 0 [ Assign (expr (cast (Var "$0.4"))) "$0.5";
                       Return "$0.5" ]).
Proof.
  destruct (@X8_call_site_is_split
              Examples.frontend Examples.topo_order_as_held 0%Z 4%nat
              Examples.lambda_code (Some "$0.1"%string) (defaults_other PNone)
              (Examples.state_of Examples.caller_blocks)
              [2%Z; 1%Z] (snd inline_lambda_example))
    as (block & max_label & l0 & new_label & topo_order
        & Hblock & Hmax & Hl0 & _ & Hnew & H1 & H2).
  - vm_compute. reflexivity.
  - intros l H. vm_compute in H. destruct H as [<- | []]. lia.
  - vm_compute in Hblock. injection Hblock as <-.
    vm_compute in Hmax. injection Hmax as <-.
    vm_compute in Hl0. destruct Hl0 as [<- | []].
    injection Hnew as <- _.
    split; [exact H1 | exact H2].
Defined.

(** X9 on the same call. *)
Lemma X9_witness :
  _get_all_scopes (blocks (self_func_ir (snd inline_lambda_example))) = [0%nat].
Proof.
  apply (@X9_inlining_keeps_one_scope
           Examples.frontend Examples.topo_order_as_held 0%Z 4%nat
           Examples.lambda_code (Some "$0.1"%string) (defaults_other PNone)
           (Examples.state_of Examples.caller_blocks)
           [2%Z; 1%Z] (snd inline_lambda_example)
           (mkBlock 0 (ir.body (snd (0%Z, mkBlock 0
              [ Assign (atom (Arg 0 "x")) "x";
                Assign (expr (build_tuple [Var "x"])) "$0.1";
                Assign (expr (make_function Examples.lambda_code
                                            (Some "$0.1"%string)
                                            (defaults_other PNone))) "$0.2";
                Assign (atom (Const (Scalar (PInt 5)))) "$const5";
                Assign (expr (call "$0.2" [Var "$const5"] [])) "$0.4";
                Assign (expr (cast (Var "$0.4"))) "$0.5";
                Return "$0.5" ]))))).
  - vm_compute. reflexivity.
  - reflexivity.
  - intros lb H. vm_compute in H. destruct H as [<- | []]. reflexivity.
  - vm_compute. repeat constructor. intros [].
Defined.

(** ** The arguments of an inlined call *)









Section InlinedArguments.
Variable run_frontend : Code -> FunctionIR * list (nat * list string).
Variable find_topo_order : list (Z * Block) -> list Z.




End InlinedArguments.



(** ** Free variables of the inlined closure *)

Lemma mapM_total {X Y} (f : X -> outcome Y) (l : list X) :
  (forall x, In x l -> exists y, f x = Ok y) ->
  exists l', mapM f l = Ok l'.
Proof.
  induction l as [|x l IH]; intros H; simpl; [eauto |].
  destruct (H x (or_introl eq_refl)) as (y & ->).
  destruct IH as (l' & ->); [intros x' Hx'; apply H; now right |].
  simpl. eauto.
Qed.

Lemma replace_freevar_raises args stmt e :
  replace_freevar args stmt = Raise e -> e = AssertionError.
Proof.
  destruct stmt as [[[]|]| | | | |]; simpl; try discriminate.
  destruct (nth_error args index); [discriminate | now intros [= <-]].
Qed.

(** What [_replace_freevars] makes of a statement. *)
Definition freevar_replaced (items : list Operand) (stmt stmt' : Stmt)
  : Prop :=
  match stmt with
  | Assign (atom (FreeVar idx _)) target =>
      exists a, nth_error items idx = Some a /\ stmt' = Assign (atom a) target
  | _ => stmt' = stmt
  end.

Lemma replace_freevar_Ok items stmt stmt' :
  replace_freevar items stmt = Ok stmt' -> freevar_replaced items stmt stmt'.
Proof.
  destruct stmt as [[[]|]| | | | |]; simpl; try (now intros [= <-]).
  destruct (nth_error items index) as [a|]; [| discriminate].
  intros [= <-]. eauto.
Qed.

(** X10: with a closure that is defined as a tuple of as many items as the
    code has free variables, [inline_closure_call] replaces every
    free-variable placeholder of the callee by the item of the tuple at the
    placeholder's index and leaves every other statement, the labels and
    the scopes as they are, provided every placeholder's index is below the
    number of free variables; one placeholder with an index that is not
    fails the assertion of [_replace_freevars], which no [guard] absorbs. *)
Theorem X10_free_variables_take_closure_items :
  forall func_ir code c items blks,
    get_definition func_ir (Var c) = Ok (expr (build_tuple items)) ->
    List.length (co_freevars code) = List.length items ->
    ((forall l b idx name target,
         In (l, b) blks ->
         In (Assign (atom (FreeVar idx name)) target) (ir.body b) ->
         (idx < List.length (co_freevars code))%nat) ->
     exists blks',
       replace_closure func_ir code (Some c) blks = Ok blks'
       /\ Forall2 (fun lb lb' =>
                     fst lb' = fst lb /\ scope (snd lb') = scope (snd lb)
                     /\ Forall2 (freevar_replaced items)
                                (ir.body (snd lb)) (ir.body (snd lb')))
                  blks blks')
    /\ (forall l b idx name target,
           In (l, b) blks ->
           In (Assign (atom (FreeVar idx name)) target) (ir.body b) ->
           (List.length (co_freevars code) <= idx)%nat ->
           replace_closure func_ir code (Some c) blks = Raise AssertionError).
Proof.
  intros func_ir code c items blks Hdef Hlen.
  assert (Hrc : replace_closure func_ir code (Some c) blks
                = _replace_freevars blks items).
  { unfold replace_closure. rewrite Hdef. simpl.
    apply Nat.eqb_eq in Hlen. now rewrite Hlen. }
  rewrite Hrc. split.
  - intros Hidx.
    assert (Htot : exists blks', _replace_freevars blks items = Ok blks').
    { apply mapM_total. intros [l b] Hlb.
      destruct (@mapM_total _ _ (replace_freevar items) (ir.body b))
        as (stmts & Hs).
      - intros stmt Hstmt.
        destruct (replace_freevar items stmt) as [y|e] eqn:E; [eauto |].
        exfalso.
        destruct stmt as [[[]|]| | | | |]; simpl in E; try discriminate.
        destruct (nth_error items index) eqn:En; [discriminate |].
        apply nth_error_None in En.
        specialize (Hidx _ _ _ _ _ Hlb Hstmt). lia.
      - simpl. rewrite Hs. simpl. eauto. }
    destruct Htot as (blks' & Hok). exists blks'. split; [exact Hok |].
    apply for_each_block_Ok in Hok. clear - Hok.
    induction Hok as [|lb lb' d d' (Hl & Hs & Hb) _ IH]; constructor;
      [| exact IH].
    split; [assumption |]. split; [assumption |].
    apply mapM_Ok_Forall2 in Hb. clear - Hb.
    induction Hb as [|stmt stmt' st st' Hst _ IHb]; constructor;
      [| exact IHb].
    now apply replace_freevar_Ok.
  - intros l b idx name target Hlb Hstmt Hge.
    apply for_each_block_raise.
    + intros stmts e' H. apply mapM_raise_inv in H as (x & _ & H).
      eapply replace_freevar_raises; eassumption.
    + exists (l, b). split; [assumption |]. simpl.
      apply mapM_raise.
      * intros x e'. apply replace_freevar_raises.
      * eexists. split; [eassumption |]. simpl.
        rewrite Hlen in Hge. now apply nth_error_None in Hge as ->.
Qed.

(** X10 on [lambda y: x + y] in [def f(x)]: the placeholder of [x] is
    replaced by the caller's [x]. *)
Lemma X10_witness :
  replace_closure
    (self_func_ir (Examples.state_of Examples.caller_blocks))
    Examples.lambda_code (Some "$0.1"%string) Examples.lambda_blocks
  = Ok [ (0%Z, mkBlock 1
            [ Assign (atom (Arg 0 "y")) "y";
              Assign (atom (Var "x")) "$0.1";
              Assign (expr (binop "+" (Var "$0.1") (Var "y"))) "$0.2";
              Assign (expr (cast (Var "$0.2"))) "$0.3";
              Return "$0.3" ]) ].
Proof.
  destruct (proj1 (@X10_free_variables_take_closure_items
                     (self_func_ir (Examples.state_of Examples.caller_blocks))
                     Examples.lambda_code "$0.1"%string [Var "x"]
                     Examples.lambda_blocks eq_refl eq_refl))
    as (blks' & Hok & _).
  - intros l b idx name target Hlb Hstmt.
    vm_compute in Hlb. destruct Hlb as [[= <- <-] | []].
    simpl in Hstmt.
    destruct Hstmt as [[=] | [[= <- _ _] | [[=] | [[=] | [[=] | []]]]]].
    simpl. lia.
  - rewrite Hok. vm_compute in Hok. now injection Hok as <-.
Defined.

(** ** The iterators that count as a range *)

Lemma _get_definition_raises func_ir value e :
  _get_definition func_ir value = Raise e -> e = GuardException \/ e = Hang.
Proof.
  unfold _get_definition, KeyError_to_GuardException.
  destruct (get_definition func_ir value) as [d|e'] eqn:E; [discriminate |].
  apply get_definition_raises in E as [-> | ->]; intros [= <-]; auto.
Qed.

Lemma _get_definition_lhs_only_raises func_ir value e :
  _get_definition_lhs_only func_ir value = Raise e ->
  e = GuardException \/ e = Hang.
Proof.
  unfold _get_definition_lhs_only, KeyError_to_GuardException,
    get_definition_lhs_only.
  destruct (get_definition_lhs_loop _ _ value) as [d|e'] eqn:E;
    [discriminate |].
  apply get_definition_lhs_loop_raises in E as [-> | ->]; intros [= <-]; auto.
Qed.

Lemma require_raises c e : require c = Raise e -> e = GuardException.
Proof. destruct c; simpl; [discriminate | now intros [= <-]]. Qed.

(** X11: [_find_iter_range] accepts an iterator exactly when it is defined
    as [getiter] of a call, with one or two arguments that resolve to
    definitions, of a variable defined as the global [range].  For
    [range(n)] it returns the start [0] and the argument as written; for
    [range(m, n)] the variables that the two arguments are copies of.  A
    call with no or with more than two arguments, a stepped range among
    them, is turned down by the guard signal, as is every other mismatch:
    the function raises nothing else (a lookup that does not end apart). *)
Theorem X11_find_iter_range :
  (forall func_ir range_iter_var start stop fd,
      _find_iter_range func_ir range_iter_var = Ok (start, stop, fd) <->
      exists range_var func_var args kws name,
        _get_definition func_ir range_iter_var = Ok (expr (getiter range_var))
        /\ _get_definition func_ir range_var
           = Ok (expr (call func_var args kws))
        /\ _get_definition func_ir (Var func_var)
           = Ok (atom (Global name range))
        /\ fd = (func_var, atom (Global name range))
        /\ ((args = [stop] /\ start = literal_0
             /\ exists v, _get_definition_lhs_only func_ir stop = Ok v)
            \/ (exists a0 a1 start_v,
                   args = [a0; a1] /\ start = start_var start_v
                   /\ _get_definition_lhs_only func_ir a0 = Ok start_v
                   /\ _get_definition_lhs_only func_ir a1 = Ok stop))) /\
  (forall func_ir range_iter_var range_var func_var args kws,
      _get_definition func_ir range_iter_var = Ok (expr (getiter range_var)) ->
      _get_definition func_ir range_var = Ok (expr (call func_var args kws)) ->
      List.length args <> 1%nat -> List.length args <> 2%nat ->
      (exists e, _find_iter_range func_ir range_iter_var = Raise e)) /\
  (forall func_ir range_iter_var e,
      _find_iter_range func_ir range_iter_var = Raise e ->
      e = GuardException \/ e = Hang).
Proof.
  split; [| split].
  - intros func_ir range_iter_var start stop fd. split.
    + intros H. unfold _find_iter_range in H.
      apply bind_Ok_inv in H as (rid & Hrid & H).
      destruct rid as [o|[]]; try discriminate.
      apply bind_Ok_inv in H as (rd & Hrd & H).
      destruct rd as [o|[]]; try discriminate.
      apply bind_Ok_inv in H as (fdef & Hfd & H).
      apply bind_Ok_inv in H as ([] & Hreq & H). apply require_Ok in Hreq.
      destruct fdef as [[]|]; try discriminate.
      destruct (pyobj_eq_dec value0 range) as [->|]; [| discriminate].
      exists value, func, args, kws, name.
      repeat (split; [assumption || reflexivity |]).
      destruct args as [|a0 [|a1 [|]]]; try discriminate.
      * apply bind_Ok_inv in H as (stop' & Hs & H). injection H as <- <- <-.
        split; [reflexivity |]. left. eauto.
      * apply bind_Ok_inv in H as (start_v & Hs & H).
        apply bind_Ok_inv in H as (stop' & Hstop & H).
        injection H as <- <- <-.
        split; [reflexivity |]. right. now exists a0, a1, start_v.
    + intros (range_var & func_var & args & kws & name & H1 & H2 & H3 & -> & H).
      unfold _find_iter_range. rewrite H1. simpl. rewrite H2. simpl.
      rewrite H3. simpl.
      destruct (pyobj_eq_dec range range); [| congruence]. simpl.
      destruct H as [(-> & -> & v & Hv) | (a0 & a1 & sv & -> & -> & Ha0 & Ha1)].
      * now rewrite Hv.
      * now rewrite Ha0, Ha1.
  - intros func_ir range_iter_var range_var func_var args kws H1 H2 Hn1 Hn2.
    unfold _find_iter_range. rewrite H1. simpl. rewrite H2. simpl.
    destruct (_get_definition func_ir (Var func_var)) as [fd|e];
      [| simpl; eauto].
    simpl. destruct (require _) as [[]|e]; [| simpl; eauto]. simpl.
    destruct args as [|a0 [|a1 [|]]]; simpl in *; try congruence; eauto.
  - intros func_ir range_iter_var e H. unfold _find_iter_range in H.
    repeat match type of H with
           | bind ?m _ = Raise _ =>
               let E := fresh "E" in
               apply bind_Raise_inv in H as [E | (? & E & H)];
               [first [ apply _get_definition_raises in E
                      | apply _get_definition_lhs_only_raises in E
                      | apply require_raises in E; auto ];
                exact E |]
           | match ?x with _ => _ end = Raise _ => destruct x
           end;
      try discriminate; try (injection H as <-; auto).
Qed.

(** ** The array that the rewrite allocates *)

Lemma new_definition_inv var value s st s' :
  _new_definition var value s = (Ok st, s') ->
  st = Assign value var
  /\ _definitions (self_func_ir s')
     = dict_set string_dec (_definitions (self_func_ir s)) var [value]
  /\ forall sc, scope_vars s' sc = scope_vars s sc.
Proof. intros [= <- <-]. auto. Qed.

Lemma make_temp_inv sc s v s' :
  make_temp sc s = (Ok v, s') ->
  ~ In v (scope_vars s sc)
  /\ In v (scope_vars s' sc)
  /\ (forall x, In x (scope_vars s sc) -> In x (scope_vars s' sc))
  /\ self_func_ir s' = self_func_ir s.
Proof.
  intros H. pose proof (make_temp_fresh _ _ H) as [H1 H2].
  split; [assumption |]. split; [assumption |]. split.
  - intros x. eapply gs_make_temp; eassumption.
  - unfold make_temp, define in H.
    destruct (mem_string _ _); [discriminate | now injection H as _ <-].
Qed.

Lemma definitions_for_set f name defs name' :
  dict_get string_dec (dict_set string_dec (_definitions f) name defs) name'
  = if string_dec name' name then Some defs
    else dict_get string_dec (_definitions f) name'.
Proof. apply dict_get_set. Qed.

(** X12: the array variable that the rewrite allocates is defined as a call
    of a fresh variable on the one-element size tuple; without a [dtype]
    that variable is the global [unsafe_empty_inferred], so that
    [_find_unsafe_empty_inferred], the test of the nested case and of the
    nested-array fixup, recognises the allocation; with a [dtype] it is
    [np.empty], which the test turns down. *)
Theorem X12_allocated_array_is_recognised :
  forall dtype size_var sc stmts s array_var stmts' s',
    allocate_array dtype size_var sc stmts s = (Ok (array_var, stmts'), s') ->
    exists empty_func size_tuple_var array_kws,
      _get_definition (self_func_ir s') (Var array_var)
      = Ok (expr (call empty_func [Var size_tuple_var] array_kws))
      /\ _get_definition (self_func_ir s') (Var size_tuple_var)
         = Ok (expr (build_tuple [Var size_var]))
      /\ _find_unsafe_empty_inferred
           (self_func_ir s')
           (expr (call empty_func [Var size_tuple_var] array_kws))
         = Ok (match dtype with None => true | Some _ => false end)
      /\ (dtype = None -> array_kws = []).
Proof.
  intros dtype size_var sc stmts s array_var stmts' s' H.
  unfold allocate_array in H.
  apply bindM_Ok_inv in H as (stv & s1 & Hstv & H).
  apply make_temp_inv in Hstv as (_ & Hstv_in & _ & Hf1).
  apply bindM_Ok_inv in H as (st_tuple & s2 & Hst & H).
  apply new_definition_inv in Hst as (_ & Hd2 & Hsc2). cbv zeta in H.
  apply bindM_Ok_inv in H as (av0 & s3 & Hav0 & H).
  apply make_temp_inv in Hav0 as (_ & _ & Hgrow3 & Hf3).
  apply bindM_Ok_inv in H as (av & s4 & Hav & H).
  apply make_temp_inv in Hav as (Hav_new & Hav_in & Hgrow4 & Hf4).
  apply bindM_Ok_inv in H as (ef & s5 & Hef & H).
  apply make_temp_inv in Hef as (Hef_new & Hef_in & Hgrow5 & Hf5).
  assert (Hstv4 : In stv (scope_vars s4 sc)).
  { apply Hgrow4, Hgrow3. now rewrite Hsc2. }
  assert (Hne_av : stv <> av) by (intros <-; apply Hav_new, Hgrow3;
                                  now rewrite Hsc2).
  assert (Hne_ef_av : av <> ef) by (intros <-; contradiction).
  assert (Hne_ef : stv <> ef) by (intros <-; contradiction).
  assert (Hd5 : _definitions (self_func_ir s5)
                = dict_set string_dec (_definitions (self_func_ir s)) stv
                           [expr (build_tuple [Var size_var])]).
  { rewrite Hf5, Hf4, Hf3, Hd2, Hf1. reflexivity. }
  apply bindM_Ok_inv in H as ([kws stmts1] & s6 & Hmid & H).
  apply bindM_Ok_inv in H as (st & s7 & Hst' & H).
  injection H as <- <- <-.
  apply new_definition_inv in Hst' as (_ & Hd7 & _).
  assert (Hmid' :
            exists g,
              dict_get string_dec (_definitions (self_func_ir s6)) ef
              = Some [atom (Global (fst g) (snd g))]
              /\ dict_get string_dec (_definitions (self_func_ir s6)) stv
                 = Some [expr (build_tuple [Var size_var])]
              /\ snd g = match dtype with
                         | None => unsafe_empty_inferred
                         | Some _ => np_empty
                         end
              /\ (dtype = None -> kws = [])).
  { destruct dtype as [[attr dtype_mod_def]|].
    - apply bindM_Ok_inv in Hmid as (v1 & s8 & Hv1 & Hmid).
      apply make_temp_inv in Hv1 as (Hv1_new & Hv1_in & Hgrow8 & Hf8).
      apply bindM_Ok_inv in Hmid as (v2 & s9 & Hv2 & Hmid).
      apply make_temp_inv in Hv2 as (Hv2_new & Hv2_in & Hgrow9 & Hf9).
      apply bindM_Ok_inv in Hmid as (st1 & s10 & H1 & Hmid).
      apply new_definition_inv in H1 as (_ & Hd10 & _).
      apply bindM_Ok_inv in Hmid as (st2 & s11 & H2 & Hmid).
      apply new_definition_inv in H2 as (_ & Hd11 & _).
      apply bindM_Ok_inv in Hmid as (st3 & s12 & H3 & Hmid).
      apply new_definition_inv in H3 as (_ & Hd12 & _).
      injection Hmid as <- <- <-.
      assert (stv <> v1) by (intros <-; apply Hv1_new, Hgrow5; assumption).
      assert (stv <> v2)
        by (intros <-; apply Hv2_new, Hgrow8, Hgrow5; assumption).
      exists ("empty"%string, np_empty). simpl.
      rewrite Hd12, Hd11, Hd10, Hf9, Hf8, Hd5, !dict_get_set.
      destruct (string_dec ef ef); [| congruence].
      destruct (string_dec stv ef); [congruence |].
      destruct (string_dec stv v2); [congruence |].
      destruct (string_dec stv v1); [congruence |].
      destruct (string_dec stv stv); [| congruence].
      repeat split; discriminate.
    - apply bindM_Ok_inv in Hmid as (st1 & s8 & H1 & Hmid).
      apply new_definition_inv in H1 as (_ & Hd8 & _).
      injection Hmid as <- <- <-.
      exists ("unsafe_empty_inferred"%string, unsafe_empty_inferred). simpl.
      rewrite Hd8, Hd5, !dict_get_set.
      destruct (string_dec ef ef); [| congruence].
      destruct (string_dec stv ef); [congruence |].
      destruct (string_dec stv stv); [| congruence].
      repeat split; reflexivity. }
  destruct Hmid' as ([gname gval] & Hef6 & Hstv6 & Hg & Hkws).
  simpl in Hef6, Hg.
  exists ef, stv, kws.
  assert (Hget_av : dict_get string_dec (_definitions (self_func_ir s7)) av
                    = Some [expr (call ef [Var stv] kws)]).
  { rewrite Hd7, dict_get_set. destruct (string_dec av av); congruence. }
  assert (Hget_ef : dict_get string_dec (_definitions (self_func_ir s7)) ef
                    = Some [atom (Global gname gval)]).
  { rewrite Hd7, dict_get_set.
    destruct (string_dec ef av); [congruence | assumption]. }
  assert (Hget_stv : dict_get string_dec (_definitions (self_func_ir s7)) stv
                     = Some [expr (build_tuple [Var size_var])]).
  { rewrite Hd7, dict_get_set.
    destruct (string_dec stv av); [congruence | assumption]. }
  unfold _find_unsafe_empty_inferred, _get_definition.
  rewrite (get_definition_single _ _ Hget_av) by discriminate.
  rewrite (get_definition_single _ _ Hget_stv) by discriminate.
  rewrite (get_definition_single _ _ Hget_ef) by discriminate.
  simpl. subst gval.
  split; [reflexivity |]. split; [reflexivity |]. split; [| assumption].
  destruct dtype; reflexivity.
Qed.

(** X12 on the first allocation in an empty scope, without [dtype]. *)
Lemma X12_witness :
  exists empty_func size_tuple_var array_kws,
    _get_definition
      (self_func_ir (snd (allocate_array None "n" 0 []
                            (mkState (mkFunctionIR [] []) [] 0 0))))
      (Var "$2")
    = Ok (expr (call empty_func [Var size_tuple_var] array_kws))
    /\ _get_definition
         (self_func_ir (snd (allocate_array None "n" 0 []
                               (mkState (mkFunctionIR [] []) [] 0 0))))
         (Var size_tuple_var)
       = Ok (expr (build_tuple [Var "n"]))
    /\ _find_unsafe_empty_inferred
         (self_func_ir (snd (allocate_array None "n" 0 []
                               (mkState (mkFunctionIR [] []) [] 0 0))))
         (expr (call empty_func [Var size_tuple_var] array_kws))
       = Ok true
    /\ (@None (string * Value) = None -> array_kws = []).
Proof.
  apply (@X12_allocated_array_is_recognised
           None "n"%string 0%nat [] (mkState (mkFunctionIR [] []) [] 0 0)
           "$2"%string
           [ Assign (expr (build_tuple [Var "n"])) "$0";
             Assign (atom (Global "unsafe_empty_inferred"
                                  unsafe_empty_inferred)) "$3";
             Assign (expr (call "$3" [Var "$0"] [])) "$2" ]).
  vm_compute. reflexivity.
Defined.

(** ** The nested-array fixup *)

(** *** Lookups and the objects they return *)

Lemma get_definition_loop_holder fuel defs :
  forall v e,
    get_definition_loop fuel defs v = Ok (expr e) ->
    exists h,
      get_definition_lhs_loop fuel defs v = Ok (Var h)
      /\ dict_get string_dec defs h = Some [expr e].
Proof.
  induction fuel as [|fuel IH]; intros v e H; destruct v; simpl in H;
    try discriminate.
  simpl.
  destruct (dict_get string_dec defs name) as [[|d [|d' l]]|] eqn:E;
    try discriminate; try (destruct d as [[]|]; discriminate).
  destruct d as [o|e0].
  - destruct o; try (destruct fuel; simpl in H; discriminate).
    apply IH in H as (h & Hh & Hget). eauto.
  - injection H as <-. eauto.
Qed.

Lemma get_definition_loop_lhs_Ok fuel defs :
  forall v d,
    get_definition_loop fuel defs v = Ok d ->
    exists o, get_definition_lhs_loop fuel defs v = Ok o.
Proof.
  induction fuel as [|fuel IH]; intros v d H; destruct v; simpl in *;
    try discriminate; eauto.
  destruct (dict_get string_dec defs name) as [[|d0 [|d' l]]|] eqn:E;
    try discriminate; try (destruct d0 as [[]|]; discriminate).
  destruct d0 as [o|e0]; [| eauto].
  destruct o; eauto.
Qed.

Lemma dict_set_length {K V} (eq_dec : forall a b : K, {a = b} + {a <> b})
      (d : list (K * V)) k v v' :
  dict_get eq_dec d k = Some v ->
  List.length (dict_set eq_dec d k v') = List.length d.
Proof.
  induction d as [|[k0 v0] d IH]; simpl; [discriminate |].
  destruct (eq_dec k k0); simpl; [reflexivity |]. intros H. now rewrite IH.
Qed.

(** An expression that takes the place of an expression leaves every chain
    of copies as it is. *)
Lemma get_definition_lhs_loop_set fuel defs h e e' :
  dict_get string_dec defs h = Some [expr e] ->
  forall v,
    get_definition_lhs_loop fuel (dict_set string_dec defs h [expr e']) v
    = get_definition_lhs_loop fuel defs v.
Proof.
  intros Hh. induction fuel as [|fuel IH]; intros v; destruct v; simpl;
    try reflexivity.
  rewrite dict_get_set. destruct (string_dec name h) as [->|].
  - now rewrite Hh.
  - destruct (dict_get string_dec defs name) as [[|d [|d' l]]|];
      try reflexivity; destruct d as [[]|]; try reflexivity.
    apply IH.
Qed.

Lemma get_definition_lhs_only_retarget f h e e' v :
  dict_get string_dec (_definitions f) h = Some [expr e] ->
  get_definition_lhs_only (retarget_object h (expr e) (expr e') f) v
  = get_definition_lhs_only f v.
Proof.
  intros Hh. unfold get_definition_lhs_only.
  cbn [retarget_object _definitions].
  erewrite dict_set_length by eassumption.
  eapply get_definition_lhs_loop_set; eassumption.
Qed.

Lemma _get_definition_Ok f v d :
  _get_definition f v = Ok d -> get_definition f v = Ok d.
Proof.
  unfold _get_definition, KeyError_to_GuardException.
  destruct (get_definition f v) as [d'|[]]; congruence.
Qed.

Lemma _get_definition_holder f v e :
  _get_definition f v = Ok (expr e) ->
  exists h,
    get_definition_lhs_only f v = Ok (Var h)
    /\ dict_get string_dec (_definitions f) h = Some [expr e].
Proof.
  intros H. apply _get_definition_Ok in H.
  now apply get_definition_loop_holder in H.
Qed.

(** ** The append that the rewrite has matched *)

Lemma holder_of_Some f v h :
  holder_of f v = Some h -> get_definition_lhs_only f v = Ok (Var h).
Proof.
  unfold holder_of.
  destruct (get_definition_lhs_only f v) as [[]|]; congruence.
Qed.

Lemma same_object_holder a b :
  same_object a b = true ->
  exists h, obj_holder a = Some h /\ obj_holder b = Some h.
Proof.
  unfold same_object.
  destruct (obj_holder a) as [h|], (obj_holder b) as [h'|]; try discriminate.
  destruct (string_dec h h') as [->|]; [eauto | discriminate].
Qed.

(** An object whose value is an expression was found in the table: its
    holder is the variable at which the lookup has ended. *)
Lemma get_definition_object_expr f v o e :
  _get_definition_object f v = Ok o ->
  obj_value o = expr e ->
  exists h,
    obj_holder o = Some h
    /\ _get_definition f v = Ok (expr e)
    /\ get_definition_lhs_only f v = Ok (Var h)
    /\ dict_get string_dec (_definitions f) h = Some [expr e].
Proof.
  unfold _get_definition_object. intros H Hv.
  apply bind_Ok_inv in H as (d & Hd & H). injection H as <-.
  simpl in Hv. subst d.
  destruct (_get_definition_holder _ _ Hd) as (h & Hh & Hget).
  exists h. unfold holder_of. simpl. rewrite Hh. auto.
Qed.

(** An assignment that calls the [append] of the object [o]. *)
Definition appends_to (f : FunctionIR) (o : Object) (stmt : Stmt) : Prop :=
  exists func args kws lhs value list_def,
    stmt = Assign (expr (call func args kws)) lhs
    /\ _get_definition f (Var func) = Ok (expr (getattr value "append"))
    /\ _get_definition_object f value = Ok list_def
    /\ same_object list_def o = true.

Lemma check_append_appends func_ir list_var_def label acc stmt acc' :
  Forall (fun ls : Z * Stmt => appends_to func_ir list_var_def (snd ls))
         (fst acc) ->
  check_append func_ir list_var_def label acc stmt = Ok acc' ->
  Forall (fun ls : Z * Stmt => appends_to func_ir list_var_def (snd ls))
         (fst acc').
Proof.
  intros Hacc H. unfold check_append in H.
  destruct stmt as [[o|[func args kws| | | | | | | | | | |]] lhs| | | | |];
    try (now injection H as <-).
  apply bind_Ok_inv in H as (func_def & Hfd & H).
  destruct func_def as [o|[]]; try (now injection H as <-).
  destruct (string_dec attr "append") as [->|]; [| now injection H as <-].
  apply bind_Ok_inv in H as (list_def & Hld & H).
  destruct (same_object list_def list_var_def) eqn:Hsame; injection H as <-;
    [| assumption].
  simpl. apply Forall_app. split; [assumption |].
  constructor; [| constructor]. simpl.
  now exists func, args, kws, lhs, value, list_def.
Qed.

Lemma check_body_block_appends func_ir cfg visited list_var_def acc label
      acc' :
  Forall (fun ls : Z * Stmt => appends_to func_ir list_var_def (snd ls))
         (fst acc) ->
  check_body_block func_ir cfg visited list_var_def acc label = Ok acc' ->
  Forall (fun ls : Z * Stmt => appends_to func_ir list_var_def (snd ls))
         (fst acc').
Proof.
  intros Hacc H. unfold check_body_block in H.
  destruct (negb _); [now injection H as <- |].
  apply bind_Ok_inv in H as (block & _ & H).
  revert H.
  apply foldM_invariant
    with (Q := fun _ : Stmt => True)
         (P := fun a : list (Z * Stmt) * option Object =>
                 Forall (fun ls : Z * Stmt =>
                           appends_to func_ir list_var_def (snd ls))
                        (fst a));
    [| | assumption].
  - intros a x a' Ha _ Hx. eapply check_append_appends; eassumption.
  - apply Forall_forall. auto.
Qed.

(** The variable [h] holds the list that the variable [list_var] names:
    [list_var] is a copy of [h], or of a cast of a copy of [h]. *)
Definition names_list (f : FunctionIR) (list_var h : string) : Prop :=
  get_definition_lhs_only f (Var list_var) = Ok (Var h)
  \/ exists hc v,
      get_definition_lhs_only f (Var list_var) = Ok (Var hc)
      /\ dict_get string_dec (_definitions f) hc = Some [expr (cast v)]
      /\ get_definition_lhs_only f v = Ok (Var h).

(** X2: [_inline_arraycall] never returns [False]; and when it returns, the
    loop it was given has exactly one exit and exactly one entry; the list
    of the array call in the exit block is built by a list display
    [build_list], held by a variable [h]; a block of the loop body, a block
    that lies in no loop besides those already visited, holds a call of the
    [append] of that very list, the receiver of the call being a copy of
    [h]; and the predecessors of the loop header are the loop entry and
    that block, no others. *)
Theorem X2_rewrite_requires_simple_loop :
  forall cfg visited loop enable_prange s b s',
    _inline_arraycall cfg visited loop enable_prange s = (Ok b, s') ->
    b = true
    /\ set_len (analysis.exits loop) = 1%nat
    /\ set_len (analysis.entries loop) = 1%nat
    /\ exists m,
        _inline_arraycall_match (self_func_ir s) cfg visited loop = Ok m
        /\ In (m_append_block_label m) (analysis.body loop)
        /\ forallb (fun lp => set_mem (analysis.header lp) visited)
                   (analysis.in_loops cfg (m_append_block_label m)) = true
        /\ set_eqb (analysis.predecessors cfg (analysis.header loop))
                   (analysis.entries loop ++ [m_append_block_label m])
           = true
        /\ exists exit_blk list_var kws h items,
            get_block (self_func_ir s) (m_exit_block m) = Ok exit_blk
            /\ _find_arraycall (self_func_ir s) exit_blk
               = Ok (list_var, m_array_call_index m, kws)
            /\ names_list (self_func_ir s) list_var h
            /\ dict_get string_dec (_definitions (self_func_ir s)) h
               = Some [expr (build_list items)]
            /\ exists func args kws' lhs value,
                m_append_stmt m = Assign (expr (call func args kws')) lhs
                /\ in_block (blocks (self_func_ir s))
                            (m_append_block_label m) (m_append_stmt m)
                /\ _get_definition (self_func_ir s) (Var func)
                   = Ok (expr (getattr value "append"))
                /\ get_definition_lhs_only (self_func_ir s) value
                   = Ok (Var h).
Proof.
  intros cfg visited loop enable_prange s b s' H.
  split; [eapply inline_arraycall_true; eassumption |].
  unfold _inline_arraycall in H. cbn [bindM gets] in H.
  apply bindM_Ok_inv in H as (m & s0 & Hm & _).
  apply lift_Ok_inv in Hm as [Hm _].
  destruct (match_append_stmt _ _ _ _ Hm) as [_ Hin_block].
  pose proof Hm as H. unfold _inline_arraycall_match in H.
  apply bind_Ok_inv in H as ([] & Hexits & H). apply require_Ok in Hexits.
  apply bind_Ok_inv in H as (exit_blk & Hexit & H).
  apply bind_Ok_inv in H as ([[list_var idx] kws] & Hfind & H).
  apply bind_Ok_inv in H as (dtype & _ & H).
  apply bind_Ok_inv in H as (lvd & Hlvd & H).
  apply bind_Ok_inv in H as (lvd' & Hlvd' & H).
  apply bind_Ok_inv in H as ([] & Hlist & H). apply require_Ok in Hlist.
  apply bind_Ok_inv in H as ([stmts list_def] & Hfold & H).
  assert (Hall : Forall
                   (fun ls : Z * Stmt =>
                      In (fst ls) (analysis.body loop)
                      /\ forallb (fun lp => set_mem (analysis.header lp) visited)
                                 (analysis.in_loops cfg (fst ls)) = true)
                   stmts).
  { change stmts with (fst (stmts, list_def)).
    revert Hfold.
    apply foldM_invariant
      with (Q := fun l : Z => In l (analysis.body loop))
           (P := fun a : list (Z * Stmt) * option Object =>
                   Forall (fun ls : Z * Stmt =>
                             In (fst ls) (analysis.body loop)
                             /\ forallb (fun lp => set_mem (analysis.header lp)
                                                           visited)
                                        (analysis.in_loops cfg (fst ls)) = true)
                          (fst a)).
    - intros a x a' Ha Hx Hstep.
      exact (@check_body_block_labels _ _ _ _
               (fun l => In l (analysis.body loop)) _ _ _ Ha Hx Hstep).
    - apply Forall_forall. intros l Hl. unfold set_elems in Hl.
      now apply nodup_In in Hl.
    - constructor. }
  assert (Happ : Forall (fun ls : Z * Stmt =>
                           appends_to (self_func_ir s) lvd' (snd ls))
                        stmts).
  { change stmts with (fst (stmts, list_def)).
    revert Hfold.
    apply foldM_invariant
      with (Q := fun _ : Z => True)
           (P := fun a : list (Z * Stmt) * option Object =>
                   Forall (fun ls : Z * Stmt =>
                             appends_to (self_func_ir s) lvd' (snd ls))
                          (fst a)).
    - intros a x a' Ha _ Hstep. eapply check_body_block_appends; eassumption.
    - now apply Forall_forall.
    - constructor. }
  destruct stmts as [|[l st] [|]]; try discriminate.
  apply bind_Ok_inv in H as ([] & Hpreds & H). apply require_Ok in Hpreds.
  apply bind_Ok_inv in H as (hb & _ & H).
  apply bind_Ok_inv in H as ([iter_vars iter_first_vars] & _ & H).
  destruct iter_vars as [|iv [|]]; try discriminate.
  destruct iter_first_vars as [|ifv [|]]; try discriminate.
  apply bind_Ok_inv in H as ([] & Hentries & H). apply require_Ok in Hentries.
  apply bind_Ok_inv in H as (eb & _ & H).
  apply bind_Ok_inv in H as (term & _ & H).
  apply bind_Ok_inv in H as ([st' rm] & _ & H).
  injection H as <-.
  apply Nat.eqb_eq in Hexits, Hentries.
  split; [assumption |]. split; [assumption |].
  eexists. split; [exact Hm |]. simpl in Hin_block |- *.
  inversion Hall as [|? ? [Hin Hvis] _]; subst. simpl in Hin, Hvis.
  split; [assumption |]. split; [assumption |]. split; [assumption |].
  (* the list of the array call *)
  destruct (obj_value lvd') as [o|[ | | |items| | | | | | | |]] eqn:Hv;
    try discriminate.
  assert (Hlist' : exists h,
             obj_holder lvd' = Some h
             /\ names_list (self_func_ir s) list_var h
             /\ dict_get string_dec (_definitions (self_func_ir s)) h
                = Some [expr (build_list items)]).
  { destruct (obj_value lvd) as [o|e] eqn:Hv0.
    - injection Hlvd' as <-. congruence.
    - destruct (get_definition_object_expr _ _ Hlvd Hv0)
        as (hc & Hhc & _ & Hlhs_c & Hget_c).
      destruct e;
        try (injection Hlvd' as <-; rewrite Hv0 in Hv;
             first [ discriminate
                   | injection Hv as <-; exists hc;
                     split; [assumption |];
                     split; [now left | assumption] ]).
      destruct (get_definition_object_expr _ _ Hlvd' Hv)
        as (h & Hh & _ & Hlhs & Hget).
      exists h. split; [assumption |].
      split; [right; exists hc, value; auto | assumption]. }
  destruct Hlist' as (h & Hholder & Hnames & Hget).
  exists exit_blk, list_var, kws, h, items.
  repeat (split; [assumption |]).
  (* the append *)
  inversion Happ as [|? ? Hst _]; subst. simpl in Hst.
  destruct Hst as (func & args & kws' & lhs & value & ld & -> & Hfd & Hld
                   & Hsame).
  exists func, args, kws', lhs, value.
  repeat (split; [assumption || reflexivity |]).
  apply same_object_holder in Hsame as (h' & Hh1 & Hh2).
  assert (h' = h) as -> by congruence.
  apply holder_of_Some.
  unfold _get_definition_object in Hld.
  apply bind_Ok_inv in Hld as (d & _ & Hld). injection Hld as <-.
  exact Hh1.
Qed.

(** X2 on the loop of [range_stop_blocks]: the list [r] of the array call
    is held by [$0.1], and block 12 calls the [append] of [r]. *)
Lemma X2_witness :
  set_len (analysis.exits Examples.the_loop) = 1%nat
  /\ set_len (analysis.entries Examples.the_loop) = 1%nat
  /\ exists m h value,
      _inline_arraycall_match
        (self_func_ir (Examples.state_of Examples.range_stop_blocks))
        Examples.the_cfg [10%Z] Examples.the_loop = Ok m
      /\ names_list
           (self_func_ir (Examples.state_of Examples.range_stop_blocks))
           "r" h
      /\ (exists func args kws lhs,
             m_append_stmt m = Assign (expr (call func args kws)) lhs
             /\ _get_definition
                  (self_func_ir
                     (Examples.state_of Examples.range_stop_blocks))
                  (Var func)
                = Ok (expr (getattr value "append")))
      /\ get_definition_lhs_only
           (self_func_ir (Examples.state_of Examples.range_stop_blocks))
           value = Ok (Var h).
Proof.
  destruct (@X2_rewrite_requires_simple_loop
              Examples.the_cfg [10%Z] Examples.the_loop false
              (Examples.state_of Examples.range_stop_blocks) true
              (snd (_inline_arraycall Examples.the_cfg [10%Z]
                      Examples.the_loop false
                      (Examples.state_of Examples.range_stop_blocks))))
    as (_ & H1 & H2 & m & Hm & _ & _ & _ & exit_blk & list_var & kws & h
        & items & Hexit & Hfind & Hnames & _ & func & args & kws' & lhs
        & value & Hstmt & _ & Hfd & Hlhs).
  - vm_compute. reflexivity.
  - split; [exact H1 |]. split; [exact H2 |].
    exists m, h, value. split; [exact Hm |].
    assert (list_var = "r"%string) as <-.
    { vm_compute in Hm. injection Hm as <-. vm_compute in Hexit.
      injection Hexit as <-. vm_compute in Hfind. now injection Hfind. }
    split; [exact Hnames |]. split; [| exact Hlhs].
    exists func, args, kws', lhs. split; [exact Hstmt | exact Hfd].
Defined.

(** Identity, not structure, decides which appends count.  With two lists
    built by equal expressions, an append to the other list [s] is no
    append to the list [r] of the array call: the loop is turned down.
    When both are appended to, in this order, the one append to [r] is
    matched; the local [list_def] of the source then holds the object of
    [s], and it is [s] that line 539 takes out of the loop entry. *)
Example appends_to_another_list :
  fst (_inline_arraycall Examples.the_cfg [10%Z] Examples.the_loop false
         (Examples.state_of
            (Examples.two_lists_blocks Examples.append_to_s)))
  = Raise GuardException
  /\ match _inline_arraycall_match
             (self_func_ir
                (Examples.state_of
                   (Examples.two_lists_blocks Examples.append_to_r_and_s)))
             Examples.the_cfg [10%Z] Examples.the_loop with
     | Ok m =>
         m_append_stmt m
         = Assign (expr (call "$12.2" [Var "i"] [])) "$12.3"
         /\ m_removed m = ["$0.3"%string; "s"%string]
     | Raise _ => False
     end.
Proof. split; vm_compute; [reflexivity | split; reflexivity]. Qed.

(** [update_object] on an object that a lookup has returned. *)
Lemma update_object_expr name e e' s :
  _get_definition (self_func_ir s) name = Ok (expr e) ->
  exists h,
    get_definition_lhs_only (self_func_ir s) name = Ok (Var h)
    /\ dict_get string_dec (_definitions (self_func_ir s)) h = Some [expr e]
    /\ update_object name (expr e) (expr e') s
       = (Ok tt,
          mkState (retarget_object h (expr e) (expr e') (self_func_ir s))
                  (localvars s) (_max_label s) (_unique_var_count s)).
Proof.
  intros H. apply _get_definition_holder in H as (h & Hh & Hget).
  exists h. split; [assumption |]. split; [assumption |].
  unfold update_object. cbn [bindM gets]. now rewrite Hh.
Qed.

Lemma find_array_def_Ok fuel f arr d :
  find_array_def fuel f arr = Ok d ->
  (exists d0, get_definition f arr = Ok d0)
  /\ exists func args kws,
      d = expr (call func args kws)
      /\ _find_unsafe_empty_inferred f d = Ok true.
Proof.
  revert arr. induction fuel as [|fuel IH]; intros arr H; simpl in H;
    [discriminate |].
  apply bind_Ok_inv in H as (arr_def & Hdef & H).
  split; [eauto |].
  destruct arr_def as [o|e]; [discriminate |].
  apply bind_Ok_inv in H as (inferred & Hinf & H).
  destruct inferred as [[|]|].
  - injection H as <-. apply guard_Some_inv in Hinf.
    pose proof Hinf as Hcall. unfold _find_unsafe_empty_inferred in Hcall.
    destruct e; try discriminate. eauto.
  - destruct e; discriminate.
  - destruct e; try discriminate. apply IH in H. tauto.
Qed.

(** *** One indexed store *)

(** What [fix_array_assign] has found when it returns: the local variables
    of lines 715-735 with the variables that hold the two objects it
    updates. *)
Record nested_store : Type := mkNested {
  n_lhs : string;
  n_index : string;
  n_value : string;
  n_lhs_def : Value;
  n_rhs_def : Value;
  n_dims : list Operand;
  n_extra_dims : list Operand;
  n_items : list Operand;
  n_size_holder : string;
  n_rhs_holder : string;
  n_lhs_var : Operand
}.

(** The function IR after the two updates of lines 736-744. *)
Definition nested_fixed (n : nested_store) (f : FunctionIR) : FunctionIR :=
  retarget_object (n_rhs_holder n) (n_rhs_def n)
                  (expr (getitem (n_lhs_var n) (Var (n_index n))))
    (retarget_object (n_size_holder n) (expr (build_tuple (n_items n)))
                     (expr (build_tuple (n_items n ++ n_extra_dims n)))
                     f).

Definition nested_found (fuel : nat) (f : FunctionIR) (n : nested_store)
  : Prop :=
  find_array_def fuel f (Var (n_lhs n)) = Ok (n_lhs_def n)
  /\ (exists func args kws, n_rhs_def n = expr (call func args kws))
  /\ _find_unsafe_empty_inferred f (n_rhs_def n) = Ok true
  /\ (_get_definition f (Var (n_value n)) = Ok (n_rhs_def n)
      \/ exists v, _get_definition f (Var (n_value n)) = Ok (expr (cast v))
                   /\ _get_definition f v = Ok (n_rhs_def n))
  /\ dict_get string_dec (_definitions f) (n_rhs_holder n)
     = Some [n_rhs_def n]
  /\ (exists rhs_arg, first_arg (n_rhs_def n) = Ok rhs_arg
                      /\ _get_definition f rhs_arg
                         = Ok (expr (build_tuple (n_dims n))))
  /\ mapM (_get_definition_lhs_only f) (n_dims n) = Ok (n_extra_dims n)
  /\ (exists lhs_arg, first_arg (n_lhs_def n) = Ok lhs_arg
                      /\ _get_definition f lhs_arg
                         = Ok (expr (build_tuple (n_items n)))
                      /\ get_definition_lhs_only f lhs_arg
                         = Ok (Var (n_size_holder n)))
  /\ dict_get string_dec (_definitions f) (n_size_holder n)
     = Some [expr (build_tuple (n_items n))]
  /\ _get_definition_lhs_only f (Var (n_lhs n)) = Ok (n_lhs_var n).

Lemma _get_definition_lhs_only_Ok_of f v d :
  get_definition f v = Ok d ->
  exists o, _get_definition_lhs_only f v = Ok o
            /\ get_definition_lhs_only f v = Ok o.
Proof.
  intros H. apply get_definition_loop_lhs_Ok in H as (o & Ho).
  exists o. unfold _get_definition_lhs_only, get_definition_lhs_only.
  now rewrite Ho.
Qed.

Ltac raises_here :=
  left; eexists; cbn [bindM gets lift require negb]; reflexivity.

Lemma fix_array_assign_cases fuel stmt s :
  (exists e, fix_array_assign fuel stmt s = (Raise e, s))
  \/ exists n,
      stmt = SetItem (n_lhs n) (n_index n) (Var (n_value n))
      /\ nested_found fuel (self_func_ir s) n
      /\ fix_array_assign fuel stmt s
         = (Ok true,
            mkState (nested_fixed n (self_func_ir s))
                    (localvars s) (_max_label s) (_unique_var_count s)).
Proof.
  unfold fix_array_assign.
  destruct stmt as [| | | | |lhs index value]; try raises_here.
  destruct value as [value| | | |]; try raises_here.
  cbn [bindM gets lift].
  destruct (find_array_def fuel (self_func_ir s) (Var lhs))
    as [lhs_def|e] eqn:Hlhs; [| raises_here].
  destruct (_get_definition (self_func_ir s) (Var value))
    as [rhs_def0|e] eqn:Hrhs0; [| raises_here].
  destruct (require (is_Expr rhs_def0)) as [[]|e] eqn:Hreq0;
    [| raises_here].
  set (step4 := match rhs_def0 with
                | expr (cast v) => _
                | _ => _
                end).
  assert (H4 : (exists e, step4 = Raise e)
               \/ exists rhs_name rhs_def,
                   step4 = Ok (rhs_name, rhs_def)
                   /\ _get_definition (self_func_ir s) rhs_name = Ok rhs_def
                   /\ (_get_definition (self_func_ir s) (Var value)
                       = Ok rhs_def
                       \/ exists v,
                           _get_definition (self_func_ir s) (Var value)
                           = Ok (expr (cast v))
                           /\ _get_definition (self_func_ir s) v
                              = Ok rhs_def)).
  { subst step4. destruct rhs_def0 as [o|e0]; [discriminate Hreq0 |].
    destruct e0;
      try (right; eexists _, _; split; [reflexivity |];
           split; [exact Hrhs0 | left; exact Hrhs0]).
    destruct (_get_definition (self_func_ir s) value0) as [d|e] eqn:Hd;
      [| left; simpl; eauto].
    simpl. destruct (require (is_Expr d)) as [[]|e]; [| left; simpl; eauto].
    right. simpl. eexists _, _. split; [reflexivity |]. split; eauto. }
  destruct H4 as [(e & ->) | (rhs_name & rhs_def & -> & Hrhs & Hvalue)];
    [raises_here |].
  cbn [bindM gets lift].
  destruct (_find_unsafe_empty_inferred (self_func_ir s) rhs_def)
    as [inferred|e] eqn:Hinf; [| raises_here].
  cbn [bindM gets lift].
  destruct inferred; [| raises_here].
  assert (Hcall : exists func args kws, rhs_def = expr (call func args kws)).
  { unfold _find_unsafe_empty_inferred in Hinf.
    destruct rhs_def as [o|[]]; try discriminate. eauto. }
  cbn [require negb bindM gets lift].
  destruct (first_arg rhs_def) as [rhs_arg|e] eqn:Hrarg;
    [| raises_here].
  cbn [bindM gets lift].
  destruct (_get_definition (self_func_ir s) rhs_arg) as [dim_def|e] eqn:Hdim;
    [| raises_here].
  cbn [bindM gets lift].
  destruct dim_def as [o|[]]; try raises_here.
  cbn [bindM lift].
  destruct (mapM (_get_definition_lhs_only (self_func_ir s)) items)
    as [extra_dims|e] eqn:Hextra; [| raises_here].
  cbn [bindM gets lift].
  destruct (first_arg lhs_def) as [lhs_arg|e] eqn:Hlarg;
    [| raises_here].
  cbn [bindM gets lift].
  destruct (_get_definition (self_func_ir s) lhs_arg) as [std|e] eqn:Hstd;
    [| raises_here].
  cbn [bindM gets lift].
  destruct std as [o|[]]; try raises_here.
  right.
  destruct (update_object_expr lhs_arg (build_tuple (items0 ++ extra_dims))
                               s Hstd) as (sh & Hsh & Hshd & Hupd).
  destruct Hcall as (func & args & kws & ->).
  destruct (@_get_definition_holder _ _ _ Hrhs) as (rh & Hrh & Hrhd).
  destruct (find_array_def_Ok _ _ _ Hlhs) as [(d0 & Hd0) _].
  destruct (_get_definition_lhs_only_Ok_of _ _ Hd0) as (lhs_var & Hlv & Hlv').
  exists (mkNested lhs index value lhs_def (expr (call func args kws)) items
                   extra_dims items0 sh rh lhs_var).
  split; [reflexivity |]. split.
  { unfold nested_found. simpl.
    repeat (split; [eassumption || eauto 6 |]). assumption. }
  unfold bindM at 1. rewrite Hupd. cbn [bindM gets lift self_func_ir].
  unfold _get_definition_lhs_only.
  rewrite (@get_definition_lhs_only_retarget _ _ _ _ _ Hshd), Hlv'.
  cbn [KeyError_to_GuardException bindM].
  unfold update_object. cbv beta iota delta [bindM gets]. cbn [self_func_ir].
  rewrite (@get_definition_lhs_only_retarget _ _ _ _ _ Hshd), Hrh.
  reflexivity.
Qed.

(** X13: [fix_array_assign] is all or nothing.  Every exception it raises,
    the guard signal of a store that does not fit included, leaves the
    function IR, the definitions table and the rest of the state exactly as
    they were: all lookups and all [require] stand before the first update
    of line 736, and the one lookup after it cannot fail.  When it returns,
    it returns [True].  A statement that is no indexed store of a variable
    is turned down at once. *)
Theorem X13_fix_array_assign_all_or_nothing :
  (forall fuel stmt s e s',
      fix_array_assign fuel stmt s = (Raise e, s') -> s' = s) /\
  (forall fuel stmt s s',
      guardM (fix_array_assign fuel stmt) s = (Ok None, s') -> s' = s) /\
  (forall fuel stmt s b s',
      fix_array_assign fuel stmt s = (Ok b, s') -> b = true) /\
  (forall fuel stmt s,
      (forall lhs index value, stmt <> SetItem lhs index (Var value)) ->
      fix_array_assign fuel stmt s = (Raise GuardException, s)).
Proof.
  split; [| split; [| split]].
  - intros fuel stmt s e s' H.
    destruct (fix_array_assign_cases fuel stmt s)
      as [(e' & H') | (n & _ & _ & H')]; congruence.
  - intros fuel stmt s s' H. unfold guardM in H.
    destruct (fix_array_assign_cases fuel stmt s)
      as [(e' & H') | (n & _ & _ & H')]; rewrite H' in H.
    + destruct e'; congruence.
    + discriminate.
  - intros fuel stmt s b s' H.
    destruct (fix_array_assign_cases fuel stmt s)
      as [(e' & H') | (n & _ & _ & H')]; congruence.
  - intros fuel stmt s Hstmt.
    destruct stmt as [| | | | |lhs index value]; try reflexivity.
    destruct value; try reflexivity. now elim (Hstmt lhs index name).
Qed.

Lemma retarget_object_get holder old new f label :
  get_block (retarget_object holder old new f) label
  = match get_block f label with
    | Ok blk => Ok (mkBlock (scope blk)
                            (map (retarget_stmt holder old new) (ir.body blk)))
    | Raise e => Raise e
    end.
Proof.
  unfold get_block, retarget_object. cbn [blocks].
  rewrite (dict_get_map_blocks
             (fun b => mkBlock (scope b)
                         (map (retarget_stmt holder old new) (ir.body b)))).
  now destruct (dict_get Z.eq_dec (blocks f) label).
Qed.

Lemma retarget_object_definitions holder old new f :
  _definitions (retarget_object holder old new f)
  = dict_set string_dec (_definitions f) holder [new].
Proof. reflexivity. Qed.

(** X14: when [fix_array_assign] returns on [lhs[index] = value], the
    array [lhs] comes, through any number of [b[...]], from an allocation by
    [unsafe_empty_inferred], and so does [value], directly or through a
    cast; afterwards the size tuple of the allocation of [lhs] holds, after
    its own items, the dimensions of [value], each as the variable it is a
    copy of, and the allocation of [value] has become the view
    [lhs[index]], both in the definitions table and in the assignments that
    hold these two objects.  No other definition and no other statement
    changes, nor do the scopes and the counters. *)
Theorem X14_nested_store_becomes_view :
  forall fuel stmt s b s',
    fix_array_assign fuel stmt s = (Ok b, s') ->
    exists n,
      stmt = SetItem (n_lhs n) (n_index n) (Var (n_value n))
      /\ nested_found fuel (self_func_ir s) n
      /\ s' = mkState (nested_fixed n (self_func_ir s))
                      (localvars s) (_max_label s) (_unique_var_count s)
      /\ definitions_for (self_func_ir s') (n_size_holder n)
         = [expr (build_tuple (n_items n ++ n_extra_dims n))]
      /\ definitions_for (self_func_ir s') (n_rhs_holder n)
         = [expr (getitem (n_lhs_var n) (Var (n_index n)))]
      /\ (forall name,
             name <> n_size_holder n -> name <> n_rhs_holder n ->
             definitions_for (self_func_ir s') name
             = definitions_for (self_func_ir s) name)
      /\ (forall label blk,
             get_block (self_func_ir s) label = Ok blk ->
             get_block (self_func_ir s') label
             = Ok (mkBlock
                     (scope blk)
                     (map (fun st =>
                             retarget_stmt
                               (n_rhs_holder n) (n_rhs_def n)
                               (expr (getitem (n_lhs_var n)
                                              (Var (n_index n))))
                               (retarget_stmt
                                  (n_size_holder n)
                                  (expr (build_tuple (n_items n)))
                                  (expr (build_tuple
                                           (n_items n ++ n_extra_dims n)))
                                  st))
                          (ir.body blk)))).
Proof.
  intros fuel stmt s b s' H.
  destruct (fix_array_assign_cases fuel stmt s)
    as [(e' & H') | (n & Hstmt & Hfound & H')]; [congruence |].
  rewrite H' in H. injection H as _ <-.
  exists n. split; [assumption |]. split; [assumption |].
  split; [reflexivity |].
  pose proof Hfound as
      (_ & (func & args & kws & Hcall) & _ & _ & Hrh & _ & _ & _ & Hsh & _).
  assert (Hne : n_size_holder n <> n_rhs_holder n).
  { intros E. rewrite E in Hsh. rewrite Hrh in Hsh. rewrite Hcall in Hsh.
    discriminate. }
  unfold definitions_for, nested_fixed. cbn [self_func_ir].
  rewrite !retarget_object_definitions.
  split; [| split; [| split]].
  - rewrite !dict_get_set.
    destruct (string_dec (n_size_holder n) (n_rhs_holder n)); [contradiction |].
    destruct (string_dec (n_size_holder n) (n_size_holder n)); congruence.
  - rewrite !dict_get_set.
    destruct (string_dec (n_rhs_holder n) (n_rhs_holder n)); congruence.
  - intros name H1 H2. rewrite !dict_get_set.
    destruct (string_dec name (n_rhs_holder n)); [contradiction |].
    destruct (string_dec name (n_size_holder n)); [contradiction |].
    reflexivity.
  - intros label blk Hblk. rewrite !retarget_object_get, Hblk.
    cbn [scope ir.body]. now rewrite map_map.
Qed.

(** The nested example after the loop was rewritten: the exit block still
    holds the store [outer[j] = r]. *)
Definition nested_rewritten : State :=
  snd (_inline_arraycall Examples.the_cfg [10%Z] Examples.the_loop false
         (Examples.state_of Examples.nested_blocks)).

(** X14 on the store [outer[j] = r] of the nested example. *)
Lemma X14_witness :
  exists n,
    SetItem "outer" "j" (Var "r")
    = SetItem (n_lhs n) (n_index n) (Var (n_value n))
    /\ nested_found 5 (self_func_ir nested_rewritten) n
    /\ snd (fix_array_assign 5 (SetItem "outer" "j" (Var "r"))
                             nested_rewritten)
       = mkState (nested_fixed n (self_func_ir nested_rewritten))
                 (localvars nested_rewritten) (_max_label nested_rewritten)
                 (_unique_var_count nested_rewritten)
    /\ definitions_for
         (self_func_ir (snd (fix_array_assign 5 (SetItem "outer" "j" (Var "r"))
                                              nested_rewritten)))
         (n_size_holder n)
       = [expr (build_tuple (n_items n ++ n_extra_dims n))]
    /\ definitions_for
         (self_func_ir (snd (fix_array_assign 5 (SetItem "outer" "j" (Var "r"))
                                              nested_rewritten)))
         (n_rhs_holder n)
       = [expr (getitem (n_lhs_var n) (Var (n_index n)))]
    /\ (forall name,
           name <> n_size_holder n -> name <> n_rhs_holder n ->
           definitions_for
             (self_func_ir (snd (fix_array_assign
                                   5 (SetItem "outer" "j" (Var "r"))
                                   nested_rewritten)))
             name
           = definitions_for (self_func_ir nested_rewritten) name)
    /\ (forall label blk,
           get_block (self_func_ir nested_rewritten) label = Ok blk ->
           get_block
             (self_func_ir (snd (fix_array_assign
                                   5 (SetItem "outer" "j" (Var "r"))
                                   nested_rewritten)))
             label
           = Ok (mkBlock
                   (scope blk)
                   (map (fun st =>
                           retarget_stmt
                             (n_rhs_holder n) (n_rhs_def n)
                             (expr (getitem (n_lhs_var n) (Var (n_index n))))
                             (retarget_stmt
                                (n_size_holder n)
                                (expr (build_tuple (n_items n)))
                                (expr (build_tuple
                                         (n_items n ++ n_extra_dims n)))
                                st))
                        (ir.body blk)))).
Proof.
  apply (@X14_nested_store_becomes_view
           5%nat (SetItem "outer" "j" (Var "r")) nested_rewritten true).
  vm_compute. reflexivity.
Defined.

(** *** The loop over the blocks *)

(** A statement that the fixup looks at: an indexed store of a variable. *)
Definition is_nested_store (stmt : Stmt) : bool :=
  match stmt with
  | SetItem _ _ (Var _) => true
  | _ => false
  end.

Lemma fix_array_assign_skips fuel stmt s :
  is_nested_store stmt = false ->
  guardM (fix_array_assign fuel stmt) s = (Ok None, s).
Proof.
  intros H. unfold guardM.
  destruct stmt as [| | | | |lhs index value]; try reflexivity.
  destruct value; try reflexivity. discriminate.
Qed.

(** The iterator passes the statements that are no stores of a variable
    without a change of the state. *)
Lemma fix_block_from_skips fuel label blk s :
  get_block (self_func_ir s) label = Ok blk ->
  forall k n i,
    (i + k <= List.length (ir.body blk))%nat ->
    (forall j stmt, (i <= j < i + k)%nat ->
                    nth_error (ir.body blk) j = Some stmt ->
                    is_nested_store stmt = false) ->
    fix_block_from fuel (k + n) label i s
    = fix_block_from fuel n label (i + k) s.
Proof.
  intros Hblk. induction k as [|k IH]; intros n i Hlen Hskip.
  - now rewrite Nat.add_0_r.
  - cbn [Nat.add fix_block_from bindM gets lift]. rewrite Hblk.
    cbn [bindM lift].
    destruct (nth_error (ir.body blk) i) as [stmt|] eqn:Hnth.
    + unfold bindM at 1.
      rewrite fix_array_assign_skips by (eapply Hskip; [| eassumption]; lia).
      cbn [bindM ret].
      rewrite IH; [f_equal; lia | lia |].
      intros j st Hj. apply Hskip. lia.
    + apply nth_error_None in Hnth. lia.
Qed.

Lemma fix_block_from_end fuel label blk s n :
  get_block (self_func_ir s) label = Ok blk ->
  fix_block_from fuel (S n) label (List.length (ir.body blk)) s = (Ok tt, s).
Proof.
  intros Hblk. cbn [fix_block_from bindM gets lift]. rewrite Hblk.
  cbn [bindM lift].
  now rewrite (proj2 (nth_error_None _ _) (Nat.le_refl _)).
Qed.

Lemma fix_blocks_untouched fuel labels s :
  (forall label, In label labels ->
                 exists blk,
                   get_block (self_func_ir s) label = Ok blk
                   /\ Forall (fun stmt => is_nested_store stmt = false)
                             (ir.body blk)) ->
  fix_blocks fuel labels s = (Ok tt, s).
Proof.
  induction labels as [|label rest IH]; intros H; [reflexivity |].
  destruct (H label (or_introl eq_refl)) as (blk & Hblk & Hall).
  cbn [fix_blocks bindM gets lift]. rewrite Hblk. cbn [bindM lift].
  unfold bindM at 1.
  replace (S (List.length (ir.body blk)))
    with (List.length (ir.body blk) + 1)%nat by lia.
  rewrite (@fix_block_from_skips fuel _ _ _ Hblk) with (i := 0%nat);
    [| lia |].
  - simpl Nat.add. rewrite (@fix_block_from_end fuel _ _ _ _ Hblk).
    apply IH. intros l Hl. apply H. now right.
  - intros j stmt _ Hnth. rewrite Forall_forall in Hall.
    apply Hall. eapply nth_error_In; eassumption.
Qed.

(** X15: the array that an indexed store [lhs[index] = value] writes to is
    looked up with the plain [func_ir.get_definition], not with the guarded
    [_get_definition]: when [lhs] has no definition or several, the
    [KeyError] goes through the [guard] around [fix_array_assign] and ends
    [_fix_nested_array] as soon as the statements before the store, none of
    them a store of a variable, are passed; the state is as it was.  The
    stored [value], in contrast, is looked up guarded: without a single
    definition the store is just skipped. *)
Theorem X15_unresolved_target_is_fatal :
  forall fuel lhs index value s,
    get_definition (self_func_ir s) (Var lhs) = Raise KeyError ->
    guardM (fix_array_assign (S fuel) (SetItem lhs index (Var value))) s
    = (Raise KeyError, s)
    /\ (forall find_topo_order label rest blk pre post,
           find_topo_order (blocks (self_func_ir s)) = label :: rest ->
           get_block (self_func_ir s) label = Ok blk ->
           ir.body blk = pre ++ SetItem lhs index (Var value) :: post ->
           Forall (fun stmt => is_nested_store stmt = false) pre ->
           _fix_nested_array find_topo_order (S fuel) s
           = (Raise KeyError, s))
    /\ (forall lhs' lhs_def,
           find_array_def (S fuel) (self_func_ir s) (Var lhs') = Ok lhs_def ->
           guardM (fix_array_assign (S fuel) (SetItem lhs' index (Var lhs))) s
           = (Ok None, s)).
Proof.
  intros fuel lhs index value s Hdef.
  assert (Hskip : forall lhs' lhs_def,
             find_array_def (S fuel) (self_func_ir s) (Var lhs') = Ok lhs_def ->
             guardM (fix_array_assign (S fuel)
                                      (SetItem lhs' index (Var lhs))) s
             = (Ok None, s)).
  { intros lhs' lhs_def Hlhs. unfold guardM, fix_array_assign.
    cbn [bindM gets lift]. rewrite Hlhs. cbn [bindM lift].
    unfold _get_definition. rewrite Hdef. reflexivity. }
  cut (guardM (fix_array_assign (S fuel) (SetItem lhs index (Var value))) s
       = (Raise KeyError, s)
       /\ (forall find_topo_order label rest blk pre post,
              find_topo_order (blocks (self_func_ir s)) = label :: rest ->
              get_block (self_func_ir s) label = Ok blk ->
              ir.body blk = pre ++ SetItem lhs index (Var value) :: post ->
              Forall (fun stmt => is_nested_store stmt = false) pre ->
              _fix_nested_array find_topo_order (S fuel) s
              = (Raise KeyError, s)));
    [intros [H1 H2]; auto |].
  assert (Hg : guardM (fix_array_assign (S fuel)
                                        (SetItem lhs index (Var value))) s
               = (Raise KeyError, s)).
  { unfold guardM, fix_array_assign. cbn [bindM gets lift find_array_def].
    rewrite Hdef. reflexivity. }
  split; [exact Hg |].
  intros find_topo_order label rest blk pre post Htopo Hblk Hbody Hpre.
  unfold _fix_nested_array. cbn [bindM gets]. rewrite Htopo.
  cbn [fix_blocks bindM gets lift]. rewrite Hblk. cbn [bindM lift].
  unfold bindM at 1.
  replace (S (List.length (ir.body blk)))
    with (List.length pre + S (S (List.length post)))%nat
    by (rewrite Hbody, length_app; simpl; lia).
  rewrite (@fix_block_from_skips (S fuel) _ _ _ Hblk) with (i := 0%nat).
  - simpl Nat.add. cbn [fix_block_from bindM gets lift]. rewrite Hblk.
    cbn [bindM lift].
    rewrite Hbody, nth_error_app2, Nat.sub_diag by lia. cbn [nth_error].
    unfold bindM at 1. unfold bindM at 1. rewrite Hg. reflexivity.
  - rewrite Hbody, length_app. simpl. lia.
  - intros j stmt Hj Hnth. rewrite Hbody in Hnth.
    rewrite nth_error_app1 in Hnth by lia.
    rewrite Forall_forall in Hpre. apply Hpre.
    eapply nth_error_In; eassumption.
Qed.

(** X15 on [a[i] = b] in a function that assigns [a] twice. *)
Lemma X15_witness :
  guardM (fix_array_assign 1 (SetItem "a" "i" (Var "b")))
         (mkState (mkFunctionIR
                     [(0%Z, mkBlock 0 [SetItem "a" "i" (Var "b")])]
                     [("a"%string,
                       [expr (call "$zeros" [Var "n"] []);
                        expr (call "$ones" [Var "n"] [])])])
                  [] 0 0)
  = (Raise KeyError,
     mkState (mkFunctionIR
                [(0%Z, mkBlock 0 [SetItem "a" "i" (Var "b")])]
                [("a"%string,
                  [expr (call "$zeros" [Var "n"] []);
                   expr (call "$ones" [Var "n"] [])])])
             [] 0 0).
Proof.
  apply (proj1 (@X15_unresolved_target_is_fatal
                  0%nat "a"%string "i"%string "b"%string
                  (mkState (mkFunctionIR
                              [(0%Z, mkBlock 0 [SetItem "a" "i" (Var "b")])]
                              [("a"%string,
                                [expr (call "$zeros" [Var "n"] []);
                                 expr (call "$ones" [Var "n"] [])])])
                           [] 0 0)
                  eq_refl)).
Defined.

(** X16: on a function in which no block to visit holds an indexed store
    of a variable, [_fix_nested_array] returns and leaves the state as it
    was. *)
Theorem X16_fixup_without_stores_changes_nothing :
  forall find_topo_order fuel s,
    (forall label,
        In label (find_topo_order (blocks (self_func_ir s))) ->
        exists blk,
          get_block (self_func_ir s) label = Ok blk
          /\ Forall (fun stmt => is_nested_store stmt = false)
                    (ir.body blk)) ->
    _fix_nested_array find_topo_order fuel s = (Ok tt, s).
Proof.
  intros find_topo_order fuel s H. unfold _fix_nested_array.
  cbn [bindM gets]. now apply fix_blocks_untouched.
Qed.

(** X16 on the loop over [range(5)], which stores nothing. *)
Lemma X16_witness :
  _fix_nested_array Examples.topo_order_as_held 3
                    (Examples.state_of Examples.range_stop_blocks)
  = (Ok tt, Examples.state_of Examples.range_stop_blocks).
Proof.
  apply X16_fixup_without_stores_changes_nothing.
  intros label H. vm_compute in H.
  destruct H as [<- | [<- | [<- | [<- | []]]]];
    (eexists; split; [reflexivity |]); repeat constructor.
Defined.

(** *** What the fixup leaves in place *)

Lemma frame_update_object name old new :
  preserves frame (update_object name old new).
Proof.
  intros s r s'. unfold update_object. cbn [bindM gets].
  destruct (get_definition_lhs_only _ _) as [[]|];
    try (now intros [= <- <-]).
  intros [= <- <-]. apply frame_retarget.
Qed.

#[local] Hint Resolve frame_update_object : frame.

Lemma frame_fix_array_assign fuel stmt :
  preserves frame (fix_array_assign fuel stmt).
Proof. unfold fix_array_assign. frame_steps. Qed.

Lemma localvars_set_func_ir f : preserves localvars (set_func_ir f).
Proof. intros s r s' [= <- <-]. reflexivity. Qed.

Lemma localvars_update_object name old new :
  preserves localvars (update_object name old new).
Proof.
  unfold update_object. apply pres_bind; [apply pres_gets | intros f].
  destruct (get_definition_lhs_only _ _) as [[]|];
    auto using pres_ret, localvars_set_func_ir.
Qed.

Lemma localvars_set_body label stmts :
  preserves localvars (set_body label stmts).
Proof.
  unfold set_body, set_block.
  repeat (apply pres_bind; [auto using pres_gets, pres_lift | intros ?]).
  apply localvars_set_func_ir.
Qed.

Lemma localvars_fix_array_assign fuel stmt :
  preserves localvars (fix_array_assign fuel stmt).
Proof.
  unfold fix_array_assign.
  repeat first
    [ solve [auto using pres_ret, pres_gets, pres_lift,
               localvars_update_object]
    | apply pres_bind; [| intros ?]
    | match goal with
      | |- preserves _ (match ?x with _ => _ end) => destruct x
      end ].
Qed.

Section FixupFrame.
Context {X : Type} (obs : State -> X).
Hypothesis obs_fix_array_assign :
  forall fuel stmt, preserves obs (fix_array_assign fuel stmt).
Hypothesis obs_set_body :
  forall label stmts, preserves obs (set_body label stmts).

Lemma pres_fix_block_from fuel n :
  forall label i, preserves obs (fix_block_from fuel n label i).
Proof.
  induction n as [|n IH]; intros label i; cbn [fix_block_from].
  - apply pres_lift.
  - apply pres_bind; [apply pres_gets | intros f].
    apply pres_bind; [apply pres_lift | intros block].
    destruct (nth_error (ir.body block) i) as [stmt|]; [| apply pres_ret].
    apply pres_bind; [now apply pres_guardM | intros r].
    apply pres_bind; [| intros _; apply IH].
    destruct r as [[|]|]; try apply pres_ret.
    apply pres_bind; [apply pres_gets | intros f'].
    apply pres_bind; [apply pres_lift | intros block'].
    apply pres_bind; [apply pres_lift | intros stmts].
    apply obs_set_body.
Qed.

Lemma pres_fix_blocks fuel labels : preserves obs (fix_blocks fuel labels).
Proof.
  induction labels as [|label rest IH]; cbn [fix_blocks];
    [apply pres_ret |].
  apply pres_bind; [apply pres_gets | intros f].
  apply pres_bind; [apply pres_lift | intros block].
  apply pres_bind; [apply pres_fix_block_from | intros _; apply IH].
Qed.

Lemma pres_fix_nested_array find_topo_order fuel :
  preserves obs (_fix_nested_array find_topo_order fuel).
Proof.
  unfold _fix_nested_array.
  apply pres_bind; [apply pres_gets | intros f]. apply pres_fix_blocks.
Qed.

End FixupFrame.

(** X17: whatever its outcome, [_fix_nested_array] neither adds nor
    removes a block, leaves every block under its label and pointing to its
    scope, defines no variable in any scope, and does not touch the counters
    of [ir_utils]: it rewrites the two updated objects and takes stores out
    of bodies, nothing else. *)
Theorem X17_fixup_keeps_blocks_in_place :
  forall find_topo_order fuel s r s',
    _fix_nested_array find_topo_order fuel s = (r, s') ->
    dict_keys (blocks (self_func_ir s')) = dict_keys (blocks (self_func_ir s))
    /\ (forall label blk,
           get_block (self_func_ir s) label = Ok blk ->
           exists blk',
             get_block (self_func_ir s') label = Ok blk'
             /\ scope blk' = scope blk)
    /\ localvars s' = localvars s
    /\ _max_label s' = _max_label s
    /\ _unique_var_count s' = _unique_var_count s.
Proof.
  intros find_topo_order fuel s r s' H.
  pose proof (@pres_fix_nested_array _ frame frame_fix_array_assign
                frame_set_body find_topo_order fuel _ _ _ H) as Hf.
  pose proof (@pres_fix_nested_array _ localvars localvars_fix_array_assign
                localvars_set_body find_topo_order fuel _ _ _ H) as Hl.
  unfold frame in Hf. injection Hf as Hsk Hml Huv.
  split; [| split; [| split; [| split]]]; try assumption.
  - unfold dict_keys.
    apply (f_equal (map fst)) in Hsk. now rewrite !map_map in Hsk.
  - intros label blk Hblk. apply get_block_dict_get in Hblk.
    destruct (@same_frame_get _ _ _ _ Hsk Hblk) as (blk' & Hget & Hs).
    exists blk'. split; [| assumption]. now apply get_block_dict_get.
Qed.

(** X17 on the nested example: the store leaves the exit block, the blocks
    stay. *)
Lemma X17_witness :
  dict_keys (blocks (self_func_ir
    (snd (_fix_nested_array Examples.topo_order_as_held 5 nested_rewritten))))
  = [0%Z; 10%Z; 12%Z; 30%Z].
Proof.
  refine (proj1 (@X17_fixup_keeps_blocks_in_place
            Examples.topo_order_as_held 5%nat nested_rewritten (Ok tt)
            (snd (_fix_nested_array Examples.topo_order_as_held 5
                                    nested_rewritten))
            _)).
  vm_compute. reflexivity.
Defined.

(** *** The bound on the steps of the iterator is enough *)

(** The labels of the blocks with the length of each body. *)
Definition lengths (s : State) : list (Z * nat) :=
  map (fun lb : Z * Block => (fst lb, List.length (ir.body (snd lb))))
      (blocks (self_func_ir s)).

Lemma lengths_update_object name old new :
  preserves lengths (update_object name old new).
Proof.
  intros s r s'. unfold update_object. cbn [bindM gets].
  destruct (get_definition_lhs_only _ _) as [[]|];
    try (now intros [= <- <-]).
  intros [= <- <-]. unfold lengths. simpl. rewrite map_map. simpl.
  apply map_ext. intros lb. now rewrite length_map.
Qed.

Lemma lengths_fix_array_assign fuel stmt :
  preserves lengths (fix_array_assign fuel stmt).
Proof.
  unfold fix_array_assign.
  repeat first
    [ solve [auto using pres_ret, pres_gets, pres_lift,
               lengths_update_object]
    | apply pres_bind; [| intros ?]
    | match goal with
      | |- preserves _ (match ?x with _ => _ end) => destruct x
      end ].
Qed.

Lemma same_lengths_get (d d' : list (Z * Block)) label blk :
  map (fun lb : Z * Block => (fst lb, List.length (ir.body (snd lb)))) d'
  = map (fun lb : Z * Block => (fst lb, List.length (ir.body (snd lb)))) d ->
  dict_get Z.eq_dec d label = Some blk ->
  exists blk',
    dict_get Z.eq_dec d' label = Some blk'
    /\ List.length (ir.body blk') = List.length (ir.body blk).
Proof.
  revert d. induction d' as [|[l' b'] d' IH]; intros [|[l b] d] Hsk Hblk;
    simpl in *; try discriminate.
  injection Hsk as -> Hsc Hsk.
  destruct (Z.eq_dec label l) as [->|Hne].
  - injection Hblk as <-. eauto.
  - eauto.
Qed.

Lemma list_remove_length x l l' :
  list_remove x l = Ok l' -> S (List.length l') = List.length l.
Proof.
  revert l'. induction l as [|y l IH]; intros l' H; simpl in H;
    [discriminate |].
  destruct (Stmt_eqb y x); [now injection H as <- |].
  apply bind_Ok_inv in H as (r & Hr & H). injection H as <-.
  simpl. f_equal. auto.
Qed.

Lemma bindM_cong {A B} (m : M A) (k k' : A -> M B) s :
  (forall a s1, m s = (Ok a, s1) -> k a s1 = k' a s1) ->
  bindM m k s = bindM m k' s.
Proof.
  intros H. unfold bindM. destruct (m s) as [[a|e] s1]; [auto | reflexivity].
Qed.

Lemma fix_block_from_S fuel n label i s :
  fix_block_from fuel (S n) label i s
  = (f <- gets self_func_ir ;;
     block <- lift (get_block f label) ;;
     match nth_error (ir.body block) i with
     | None => ret tt
     | Some stmt =>
         r <- guardM (fix_array_assign fuel stmt) ;;
         (match r with
          | Some true =>
              f <- gets self_func_ir ;;
              block <- lift (get_block f label) ;;
              stmts <- lift (list_remove stmt (ir.body block)) ;;
              set_body label stmts
          | _ => ret tt
          end) ;;;
         fix_block_from fuel n label (S i)
     end)%M s.
Proof. reflexivity. Qed.

(** More steps than the length of the body plus one change nothing: the
    iterator has come to the end of the list before. *)
Lemma fix_block_from_bound fuel label :
  forall n m i s blk,
    get_block (self_func_ir s) label = Ok blk ->
    (List.length (ir.body blk) < i + S n)%nat ->
    (n <= m)%nat ->
    fix_block_from fuel (S m) label i s = fix_block_from fuel (S n) label i s.
Proof.
  induction n as [|n IH]; intros m i s blk Hblk Hlen Hm.
  - rewrite !fix_block_from_S. cbn [bindM gets lift]. rewrite Hblk.
    cbn [bindM lift].
    rewrite (proj2 (nth_error_None _ _)) by lia. reflexivity.
  - destruct m as [|m]; [lia |].
    rewrite (fix_block_from_S fuel (S m)), (fix_block_from_S fuel (S n)).
    cbn [bindM gets lift]. rewrite Hblk. cbn [bindM lift].
    destruct (nth_error (ir.body blk) i) as [stmt|] eqn:Hnth;
      [| reflexivity].
    assert (Hi : (i < List.length (ir.body blk))%nat)
      by (apply nth_error_Some; congruence).
    apply bindM_cong. intros r s1 Hg.
    pose proof (@pres_guardM _ lengths _ _
                  (@lengths_fix_array_assign fuel stmt) _ _ _ Hg) as Hl1.
    apply get_block_dict_get in Hblk.
    destruct (@same_lengths_get _ _ _ _ Hl1 Hblk) as (blk1 & Hblk1 & Hlen1).
    apply get_block_dict_get in Hblk1.
    apply bindM_cong. intros [] s2 Hstep.
    destruct r as [[|]|].
    + cbn [bindM gets] in Hstep.
      apply bindM_Ok_inv in Hstep as (blk1' & s0 & Hb & Hstep).
      apply lift_Ok_inv in Hb as [Hb ->].
      assert (blk1' = blk1) as -> by congruence.
      apply bindM_Ok_inv in Hstep as (stmts & s0 & Hrm & Hstep).
      apply lift_Ok_inv in Hrm as [Hrm ->].
      apply set_body_Ok in Hstep as (blk2 & _ & ->).
      apply list_remove_length in Hrm.
      eapply IH; [| | lia].
      * cbn [self_func_ir]. unfold get_block. cbn [blocks].
        rewrite dict_get_set.
        destruct (Z.eq_dec label label); [reflexivity | congruence].
      * cbn [ir.body]. lia.
    + injection Hstep as <-. eapply IH; [exact Hblk1 | lia | lia].
    + injection Hstep as <-. eapply IH; [exact Hblk1 | lia | lia].
Qed.

(** ** The scan for closure calls *)

(** A statement that the scan of [run] passes: no assignment of a call, or
    a call of a variable whose guarded lookup gives no [make_function]. *)
Definition passed_by_scan (f : FunctionIR) (stmt : Stmt) : Prop :=
  match stmt with
  | Assign (expr (call func _ _)) _ =>
      exists r,
        guard (_get_definition f) (Var func) = Ok r
        /\ forall code closure defaults,
            r <> Some (expr (make_function code closure defaults))
  | _ => True
  end.

Section Scan.
Variable run_frontend : Code -> FunctionIR * list (nat * list string).
Variable find_topo_order : list (Z * Block) -> list Z.

Lemma scan_block_passes label pre :
  forall rest i s,
    Forall (passed_by_scan (self_func_ir s)) pre ->
    scan_block run_frontend find_topo_order label (pre ++ rest) i s
    = scan_block run_frontend find_topo_order label rest
                 (i + List.length pre) s.
Proof.
  induction pre as [|stmt pre IH]; intros rest i s Hpre.
  - simpl. now rewrite Nat.add_0_r.
  - inversion Hpre as [|? ? Hstmt Hpre']; subst.
    replace (i + List.length (stmt :: pre))%nat
      with (S i + List.length pre)%nat by (simpl; lia).
    rewrite <- IH by assumption. simpl.
    destruct stmt as [[o|[func args kws| | | | | | | | | | |]] lhs| | | | |];
      try reflexivity.
    destruct Hstmt as (r & Hr & Hnot).
    cbn [bindM gets lift]. rewrite Hr. cbn [bindM lift].
    destruct r as [[o|[]]|]; try reflexivity.
    now elim (Hnot code closure defaults).
Qed.

(** X18: in one visit of a block [run] inlines at most one call: the first
    assignment of a call whose callee has a single definition that is a
    [make_function], at the index it has in the block.  The statements
    before it are passed without any change; those after it are not looked
    at in this visit (they are in the successor block, which goes on the
    work list).  A block without such a call is left as it is. *)
Theorem X18_first_closure_call_is_inlined :
  forall label pre func args kws lhs post s code closure defaults,
    Forall (passed_by_scan (self_func_ir s)) pre ->
    _get_definition (self_func_ir s) (Var func)
    = Ok (expr (make_function code closure defaults)) ->
    scan_block run_frontend find_topo_order label
               (pre ++ Assign (expr (call func args kws)) lhs :: post) 0 s
    = (new_blocks <- inline_closure_call run_frontend find_topo_order label
                                         (List.length pre)
                                         (make_function code closure defaults) ;;
       ret (Some new_blocks))%M s
    /\ scan_block run_frontend find_topo_order label pre 0 s = (Ok None, s).
Proof.
  intros label pre func args kws lhs post s code closure defaults Hpre Hdef.
  split.
  - rewrite scan_block_passes by assumption. simpl.
    cbn [bindM gets lift]. unfold guard. rewrite Hdef. reflexivity.
  - rewrite <- (app_nil_r pre). now rewrite scan_block_passes.
Qed.

End Scan.

(** X18 on [def f(x): return (lambda y: x + y)(5)]: the call is the fifth
    statement of the block. *)
Lemma X18_witness :
  scan_block Examples.frontend Examples.topo_order_as_held 0
             ([ Assign (atom (Arg 0 "x")) "x";
                Assign (expr (build_tuple [Var "x"])) "$0.1";
                Assign (expr (make_function Examples.lambda_code
                                            (Some "$0.1"%string)
                                            (defaults_other PNone))) "$0.2";
                Assign (atom (Const (Scalar (PInt 5)))) "$const5" ]
                ++ Assign (expr (call "$0.2" [Var "$const5"] [])) "$0.4"
                   :: [ Assign (expr (cast (Var "$0.4"))) "$0.5";
                        Return "$0.5" ])
             0 (Examples.state_of Examples.caller_blocks)
  = (Ok (Some [2%Z; 1%Z]), snd inline_lambda_example).
Proof.
  rewrite (proj1 (@X18_first_closure_call_is_inlined
                    Examples.frontend Examples.topo_order_as_held 0%Z
                    [ Assign (atom (Arg 0 "x")) "x";
                      Assign (expr (build_tuple [Var "x"])) "$0.1";
                      Assign (expr (make_function Examples.lambda_code
                                                  (Some "$0.1"%string)
                                                  (defaults_other PNone)))
                             "$0.2";
                      Assign (atom (Const (Scalar (PInt 5)))) "$const5" ]
                    "$0.2"%string [Var "$const5"] [] "$0.4"%string
                    [ Assign (expr (cast (Var "$0.4"))) "$0.5";
                      Return "$0.5" ]
                    (Examples.state_of Examples.caller_blocks)
                    Examples.lambda_code (Some "$0.1"%string)
                    (defaults_other PNone)
                    ltac:(repeat constructor) eq_refl)).
  vm_compute. reflexivity.
Defined.

(** ** The range that becomes a parallel range *)

Definition not_a_copy (d : Value) : Prop := forall n, d <> atom (Var n).

Lemma get_definition_lhs_loop_update fuel defs h d0 d1 :
  dict_get string_dec defs h = Some [d0] ->
  not_a_copy d0 -> not_a_copy d1 ->
  forall v,
    get_definition_lhs_loop fuel (dict_set string_dec defs h [d1]) v
    = get_definition_lhs_loop fuel defs v.
Proof.
  intros Hh H0 H1. induction fuel as [|fuel IH]; intros v; destruct v; simpl;
    try reflexivity.
  rewrite dict_get_set. destruct (string_dec name h) as [->|].
  - rewrite Hh.
    destruct d0 as [[n0| | | |]|]; try (now elim (H0 n0));
      destruct d1 as [[n1| | | |]|]; try (now elim (H1 n1)); reflexivity.
  - destruct (dict_get string_dec defs name) as [[|d [|d' l]]|];
      try reflexivity; destruct d as [[]|]; try reflexivity.
    apply IH.
Qed.

Lemma get_definition_loop_ends fuel defs :
  forall x d,
    get_definition_loop fuel defs (Var x) = Ok d ->
    exists h,
      get_definition_lhs_loop fuel defs (Var x) = Ok (Var h)
      /\ dict_get string_dec defs h = Some [d]
      /\ not_a_copy d.
Proof.
  induction fuel as [|fuel IH]; intros x d H; simpl in H; [discriminate |].
  simpl.
  destruct (dict_get string_dec defs x) as [[|d0 [|d' l]]|] eqn:E;
    try discriminate; try (destruct d0 as [[]|]; discriminate).
  destruct d0 as [o|e0].
  - destruct o;
      try (destruct fuel; simpl in H; injection H as <-; exists x;
           (split; [reflexivity |
                    split; [assumption | intros n; discriminate]])).
    apply IH in H as (h & Hh & Hget & Hd). eauto.
  - injection H as <-. exists x. split; [reflexivity |].
    split; [assumption | intros n; discriminate].
Qed.

Lemma get_definition_loop_from_holder fuel defs :
  forall v h d,
    get_definition_lhs_loop fuel defs v = Ok (Var h) ->
    dict_get string_dec defs h = Some [d] ->
    not_a_copy d ->
    get_definition_loop fuel defs v = Ok d.
Proof.
  induction fuel as [|fuel IH]; intros v h d H Hh Hd; destruct v;
    simpl in H; try discriminate.
  simpl.
  destruct (dict_get string_dec defs name) as [[|d0 [|d' l]]|] eqn:E;
    try discriminate; try (destruct d0 as [[]|]; discriminate).
  destruct d0 as [o|e0].
  - destruct o; try (injection H as <-; rewrite E in Hh; injection Hh as <-;
                     now destruct fuel).
    eapply IH; eassumption.
  - injection H as <-. rewrite E in Hh. now injection Hh as <-.
Qed.

(** A lookup that ends at another variable than the one updated gives
    what it gave. *)
Lemma get_definition_after_update f h d0 d1 x d :
  dict_get string_dec (_definitions f) h = Some [d0] ->
  not_a_copy d0 -> not_a_copy d1 ->
  get_definition f (Var x) = Ok d ->
  get_definition
    (mkFunctionIR (blocks f) (dict_set string_dec (_definitions f) h [d1]))
    (Var x)
  = Ok (if Value_eq_dec d d0 then
          match get_definition_lhs_only f (Var x) with
          | Ok (Var h') => if string_dec h' h then d1 else d
          | _ => d
          end
        else d).
Proof.
  intros Hh H0 H1 H. unfold get_definition, get_definition_lhs_only in *.
  cbn [_definitions]. erewrite dict_set_length by eassumption.
  apply get_definition_loop_ends in H as (h' & Hh' & Hget & Hd).
  rewrite Hh'.
  apply get_definition_loop_from_holder with (h := h').
  - erewrite get_definition_lhs_loop_update; eassumption.
  - rewrite dict_get_set. destruct (string_dec h' h) as [->|Hne].
    + rewrite Hh in Hget. injection Hget as <-.
      destruct (Value_eq_dec d0 d0); [reflexivity | congruence].
    + rewrite Hget. now destruct (Value_eq_dec d d0).
  - destruct (Value_eq_dec d d0); [| assumption].
    destruct (string_dec h' h); assumption.
Qed.

Lemma _get_definition_of f v d :
  get_definition f v = Ok d -> _get_definition f v = Ok d.
Proof. unfold _get_definition. now intros ->. Qed.

(** X19: for an iterator that [_find_iter_range] accepts, the update of
    lines 568-570 (made when [enable_prange] is set) turns the global
    [range] that the call names into [prange], in the definitions table and
    in the statement that holds it, and changes no other definition.  The
    loop is then no range loop any more: [_find_iter_range] on the same
    iterator raises the guard signal. *)
Theorem X19_range_becomes_prange :
  forall s iter start stop func_var func_def stmts,
    _find_iter_range (self_func_ir s) iter
    = Ok (start, stop, (func_var, func_def)) ->
    exists holder name s',
      func_def = atom (Global name range)
      /\ mark_prange func_var func_def stmts s
         = (Ok (map (retarget_stmt holder func_def
                                   (atom (Global "prange" prange))) stmts),
            s')
      /\ s' = mkState (retarget_object holder func_def
                                       (atom (Global "prange" prange))
                                       (self_func_ir s))
                      (localvars s) (_max_label s) (_unique_var_count s)
      /\ definitions_for (self_func_ir s) holder = [func_def]
      /\ definitions_for (self_func_ir s') holder
         = [atom (Global "prange" prange)]
      /\ (forall n, n <> holder ->
                    definitions_for (self_func_ir s') n
                    = definitions_for (self_func_ir s) n)
      /\ _get_definition (self_func_ir s') (Var func_var)
         = Ok (atom (Global "prange" prange))
      /\ _find_iter_range (self_func_ir s') iter = Raise GuardException.
Proof.
  intros s iter start stop func_var func_def stmts H.
  apply find_iter_range_spec in H
    as (range_var & fv & args & kws & name & Hiter & Hrange & Hfunc & Hfd & _).
  injection Hfd as -> ->.
  pose proof (_get_definition_Ok _ _ Hfunc) as Hfunc'.
  pose proof Hfunc' as Hends. unfold get_definition in Hends.
  apply get_definition_loop_ends in Hends as (holder & Hlhs & Hget & _).
  exists holder, name. eexists. split; [reflexivity |].
  assert (Hmark : mark_prange fv (atom (Global name range)) stmts s
                  = (Ok (map (retarget_stmt holder (atom (Global name range))
                                            (atom (Global "prange" prange)))
                             stmts),
                     mkState (retarget_object holder (atom (Global name range))
                                              (atom (Global "prange" prange))
                                              (self_func_ir s))
                             (localvars s) (_max_label s)
                             (_unique_var_count s))).
  { unfold mark_prange. cbn [bindM gets].
    unfold get_definition_lhs_only. rewrite Hlhs. reflexivity. }
  split; [exact Hmark |]. split; [reflexivity |].
  unfold definitions_for. cbn [self_func_ir].
  rewrite retarget_object_definitions.
  split; [now rewrite Hget |]. split.
  { rewrite dict_get_set. destruct (string_dec holder holder); congruence. }
  split.
  { intros n Hn. rewrite dict_get_set.
    destruct (string_dec n holder); [contradiction | reflexivity]. }
  assert (Hafter : forall x d,
             get_definition (self_func_ir s) (Var x) = Ok d ->
             get_definition
               (retarget_object holder (atom (Global name range))
                                (atom (Global "prange" prange))
                                (self_func_ir s))
               (Var x)
             = Ok (if Value_eq_dec d (atom (Global name range)) then
                     match get_definition_lhs_only (self_func_ir s) (Var x)
                     with
                     | Ok (Var h') =>
                         if string_dec h' holder
                         then atom (Global "prange" prange) else d
                     | _ => d
                     end
                   else d)).
  { intros x d Hd.
    exact (@get_definition_after_update
             (self_func_ir s) holder (atom (Global name range))
             (atom (Global "prange" prange)) x d Hget
             ltac:(discriminate) ltac:(discriminate) Hd). }
  assert (Hfunc_after :
            _get_definition
              (retarget_object holder (atom (Global name range))
                               (atom (Global "prange" prange))
                               (self_func_ir s))
              (Var fv)
            = Ok (atom (Global "prange" prange))).
  { apply _get_definition_of. rewrite (Hafter _ _ Hfunc').
    destruct (Value_eq_dec _ _); [| congruence].
    unfold get_definition_lhs_only. rewrite Hlhs.
    destruct (string_dec holder holder); congruence. }
  split; [exact Hfunc_after |].
  assert (Hexpr : forall v e,
             _get_definition (self_func_ir s) v = Ok (expr e) ->
             _get_definition
               (retarget_object holder (atom (Global name range))
                                (atom (Global "prange" prange))
                                (self_func_ir s))
               v
             = Ok (expr e)).
  { intros v e Hv. apply _get_definition_Ok in Hv.
    destruct v as [x| | | |];
      try (unfold get_definition in Hv;
           destruct (List.length _) in Hv; discriminate).
    apply _get_definition_of. rewrite (Hafter _ _ Hv).
    destruct (Value_eq_dec _ _); [discriminate | reflexivity]. }
  unfold _find_iter_range.
  rewrite (Hexpr _ _ Hiter). cbn [bind]. rewrite (Hexpr _ _ Hrange).
  cbn [bind]. rewrite Hfunc_after. reflexivity.
Qed.


(** X19 on the loop over [range(5)]: after the update the iterator [$phi]
    is no range iterator. *)
Lemma X19_witness :
  _find_iter_range
    (self_func_ir
       (snd (mark_prange "$0.2" (atom (Global "range" range)) []
                         (Examples.state_of Examples.range_stop_blocks))))
    (Var "$phi")
  = Raise GuardException.
Proof.
  destruct (@X19_range_becomes_prange
              (Examples.state_of Examples.range_stop_blocks) (Var "$phi")
              literal_0 (Var "$const5") "$0.2"%string
              (atom (Global "range" range)) [])
    as (holder & name & s' & _ & Hmark & _ & _ & _ & _ & _ & Hfail).
  - vm_compute. reflexivity.
  - rewrite Hmark. exact Hfail.
Defined.

(** ** The guard signal stays inside the pass *)

Lemma python_max_not_guard l : python_max l <> Raise GuardException.
Proof. now destruct l. Qed.

Lemma python_min_not_guard l : python_min l <> Raise GuardException.
Proof. now destruct l. Qed.

Lemma replace_args_with_not_guard blks args :
  _replace_args_with blks args <> Raise GuardException.
Proof.
  intros H. apply for_each_block_raise_inv in H as (lb & _ & H).
  apply replace_args_body_raises in H. discriminate.
Qed.

Lemma replace_freevars_not_guard blks args :
  _replace_freevars blks args <> Raise GuardException.
Proof.
  intros H. apply for_each_block_raise_inv in H as (lb & _ & H).
  apply mapM_raise_inv in H as (x & _ & H).
  apply replace_freevar_raises in H. discriminate.
Qed.

Lemma replace_closure_not_guard func_ir code closure blks :
  replace_closure func_ir code closure blks <> Raise GuardException.
Proof.
  unfold replace_closure. intros H. destruct closure as [c|]; [| discriminate].
  apply bind_Raise_inv in H as [H | (d & _ & H)].
  - apply get_definition_raises in H as [H | H]; discriminate.
  - repeat break_match_in H; try discriminate.
    now apply replace_freevars_not_guard in H.
Qed.

Lemma replace_returns_in_not_guard target return_label rest :
  forall seen,
    replace_returns_in target return_label seen rest <> Raise GuardException.
Proof.
  induction rest as [|stmt rest IH]; intros seen; simpl; [discriminate |].
  destruct stmt; try apply IH. destruct rest; discriminate.
Qed.

Lemma replace_returns_not_guard blks target return_label :
  _replace_returns blks target return_label <> Raise GuardException.
Proof.
  intros H. apply for_each_block_raise_inv in H as (lb & _ & H).
  now apply replace_returns_in_not_guard in H.
Qed.

Lemma list_remove_not_guard x l : list_remove x l <> Raise GuardException.
Proof.
  induction l as [|y l IH]; simpl; [discriminate |].
  destruct (Stmt_eqb y x); [discriminate |].
  destruct (list_remove x l) as [r|e]; simpl; congruence.
Qed.

#[local] Hint Resolve python_max_not_guard python_min_not_guard
  callee_args_not_guard replace_args_with_not_guard
  replace_closure_not_guard replace_returns_not_guard
  list_remove_not_guard nm_set_body : nm.

Lemma nm_guardM {A} (m : M A) : never_mismatch (guardM m).
Proof. intros s. unfold guardM. now destruct (m s) as [[a|[]] s1]. Qed.

Lemma nm_make_var_dict sc fv names :
  forall var_dict, never_mismatch (make_var_dict sc fv names var_dict).
Proof.
  induction names as [|name names IH]; intros var_dict; simpl.
  - apply nm_ret.
  - destruct (mem_string name fv); [apply IH |].
    apply nm_bind; [intros s; discriminate | intros unique].
    apply nm_bind; [apply nm_define | intros v; apply IH].
Qed.

Lemma nm_merge_blocks sc callee_blocks topo_order :
  never_mismatch (merge_blocks sc callee_blocks topo_order).
Proof.
  induction topo_order as [|label rest IH]; simpl; [apply nm_ret |].
  destruct (dict_get Z.eq_dec callee_blocks label);
    [| apply nm_lift; discriminate].
  apply nm_bind; [apply nm_set_func_ir | intros _].
  apply nm_bind; [apply nm_set_block | intros _; apply IH].
Qed.

#[local] Hint Resolve nm_guardM nm_make_var_dict nm_merge_blocks : nm.

Section NoGuardSignal.
Variable run_frontend : Code -> FunctionIR * list (nat * list string).
Variable find_topo_order : list (Z * Block) -> list Z.
Variable merge_adjacent_blocks : FunctionIR -> FunctionIR.
Variable compute_cfg_from_blocks : list (Z * Block) -> analysis.CFGraph.
Variable remove_dels : list (Z * Block) -> list (Z * Block).
Variable remove_dead : list (Z * Block) -> bool * list (Z * Block).
Variable rename_labels : list (Z * Block) -> list (Z * Block).
Variable auto_parallel : bool.
Variable enable_inline_arraycall : bool.

Lemma nm_inline_closure_call label i callee :
  never_mismatch
    (inline_closure_call run_frontend find_topo_order label i callee).
Proof.
  unfold inline_closure_call, ir_utils.set_max_label.
  assert (Hnext : never_mismatch ir_utils.next_label)
    by (intros s; discriminate).
  nm_steps.
Qed.

Lemma nm_scan_block label stmts :
  forall i,
    never_mismatch (scan_block run_frontend find_topo_order label stmts i).
Proof.
  induction stmts as [|instr stmts IH]; intros i; simpl; [apply nm_ret |].
  pose proof nm_inline_closure_call.
  destruct instr as [[o|[]] lhs| | | | |]; try apply IH.
  nm_steps; apply IH.
Qed.

Lemma nm_inline_all fuel :
  forall work_list inlined,
    never_mismatch
      (inline_all run_frontend find_topo_order fuel work_list inlined).
Proof.
  induction fuel as [|fuel IH]; intros work_list inlined; simpl.
  - destruct (rev work_list); [apply nm_ret | apply nm_lift; discriminate].
  - destruct (rev work_list); [apply nm_ret |].
    pose proof nm_scan_block. nm_steps; apply IH.
Qed.

Lemma nm_inline_arraycalls cfg todo :
  forall visited rewritten,
    never_mismatch (inline_arraycalls auto_parallel cfg todo visited rewritten).
Proof.
  induction todo as [|[k size] todo IH]; intros visited rewritten; simpl.
  - apply nm_ret.
  - destruct (dict_get Z.eq_dec (analysis.loops cfg) k);
      [| apply nm_lift; discriminate].
    apply nm_bind; [apply nm_guardM | intros r].
    destruct r as [[|]|]; apply IH.
Qed.

Lemma nm_remove_dead_loop fuel :
  never_mismatch (remove_dead_loop remove_dead fuel).
Proof.
  induction fuel as [|fuel IH]; simpl; [apply nm_lift; discriminate |].
  nm_steps.
Qed.

Lemma nm_fix_block_from fuel n :
  forall label i, never_mismatch (fix_block_from fuel n label i).
Proof.
  induction n as [|n IH]; intros label i; cbn [fix_block_from].
  - apply nm_lift. discriminate.
  - nm_steps; apply IH.
Qed.

Lemma nm_fix_blocks fuel labels : never_mismatch (fix_blocks fuel labels).
Proof.
  induction labels as [|label rest IH]; cbn [fix_blocks]; [apply nm_ret |].
  pose proof nm_fix_block_from. nm_steps.
Qed.

Lemma nm_fix_nested_array fuel :
  never_mismatch (_fix_nested_array find_topo_order fuel).
Proof. unfold _fix_nested_array. pose proof nm_fix_blocks. nm_steps. Qed.

(** X20: the guard signal never leaves the pass.  Whatever the function,
    [inline_closure_call] and [_fix_nested_array] raise no
    [GuardException], and neither does [run]: a mismatch ends in a skipped
    candidate, every exception that comes out of the pass is a fatal one. *)
Theorem X20_no_guard_signal_escapes :
  (forall label i callee s,
      fst (inline_closure_call run_frontend find_topo_order label i callee s)
      <> Raise GuardException) /\
  (forall fuel s,
      fst (_fix_nested_array find_topo_order fuel s) <> Raise GuardException) /\
  (forall fuel fuel' s,
      fst (run run_frontend find_topo_order merge_adjacent_blocks
               compute_cfg_from_blocks remove_dels remove_dead rename_labels
               (_fix_nested_array find_topo_order fuel') auto_parallel
               enable_inline_arraycall fuel s)
      <> Raise GuardException).
Proof.
  split; [| split].
  - intros label i callee. apply nm_inline_closure_call.
  - intros fuel. apply nm_fix_nested_array.
  - intros fuel fuel'.
    change (never_mismatch
              (run run_frontend find_topo_order merge_adjacent_blocks
                   compute_cfg_from_blocks remove_dels remove_dead
                   rename_labels (_fix_nested_array find_topo_order fuel')
                   auto_parallel enable_inline_arraycall fuel)).
    unfold run.
    pose proof nm_inline_all. pose proof nm_inline_arraycalls.
    pose proof nm_remove_dead_loop. pose proof nm_fix_nested_array.
    nm_steps.
Qed.

End NoGuardSignal.

(** ** An array call without positional argument *)

(** A statement that the scan of [_find_arraycall] passes while it has
    found nothing: a deletion, or an assignment that is no call of
    [numpy.array]. *)
Definition passed_by_arraycall_scan (f : FunctionIR) (stmt : Stmt) : Prop :=
  match stmt with
  | Del _ => True
  | Assign e _ =>
      exists r, guard (_find_numpy_call f) e = Ok r
                /\ r <> Some "array"%string
  | _ => False
  end.

Lemma find_arraycall_scan_passes f pre :
  forall rest i,
    Forall (passed_by_arraycall_scan f) pre ->
    _find_arraycall_scan f (pre ++ rest) i None
    = _find_arraycall_scan f rest (i + List.length pre) None.
Proof.
  induction pre as [|stmt pre IH]; intros rest i Hpre.
  - simpl. now rewrite Nat.add_0_r.
  - inversion Hpre as [|? ? Hstmt Hpre']; subst.
    replace (i + List.length (stmt :: pre))%nat
      with (S i + List.length pre)%nat by (simpl; lia).
    rewrite <- IH by assumption. simpl.
    destruct stmt as [e lhs| | | |v|]; try (now destruct Hstmt).
    destruct Hstmt as (r & Hr & Hnot). rewrite Hr. cbn [bind].
    destruct r as [attr|]; [| reflexivity].
    destruct e as [o|[]]; try reflexivity.
    destruct (string_dec attr "array") as [->|]; [congruence | reflexivity].
Qed.

(** X21: a call of [numpy.array] without positional argument (the list
    given by keyword, say) in the exit block of a loop, before anything the
    scan stops at, makes [_find_arraycall] raise [IndexError] on
    [expr.args[0]].  This is no guard signal: the [guard] around
    [_inline_arraycall] lets it through, with the state as it was. *)
Theorem X21_array_call_without_argument_is_fatal :
  forall cfg visited loop enable_prange s block pre func kws lhs rest,
    set_len (analysis.exits loop) = 1%nat ->
    get_block (self_func_ir s) (hd 0%Z (set_elems (analysis.exits loop)))
    = Ok block ->
    ir.body block = pre ++ Assign (expr (call func [] kws)) lhs :: rest ->
    Forall (passed_by_arraycall_scan (self_func_ir s)) pre ->
    _find_numpy_call (self_func_ir s) (expr (call func [] kws))
    = Ok "array"%string ->
    _find_arraycall (self_func_ir s) block = Raise IndexError
    /\ guardM (_inline_arraycall cfg visited loop enable_prange) s
       = (Raise IndexError, s).
Proof.
  intros cfg visited loop enable_prange s block pre func kws lhs rest
         Hexits Hblock Hbody Hpre Hcall.
  assert (Hfind : _find_arraycall (self_func_ir s) block = Raise IndexError).
  { unfold _find_arraycall. rewrite Hbody.
    rewrite find_arraycall_scan_passes by assumption.
    cbn [_find_arraycall_scan]. unfold guard at 1. rewrite Hcall.
    cbn [bind]. reflexivity. }
  split; [exact Hfind |].
  unfold guardM, _inline_arraycall, _inline_arraycall_match.
  cbn [bindM gets lift]. rewrite Hexits. cbn [Nat.eqb require negb bind].
  rewrite Hblock. cbn [bind]. rewrite Hfind. reflexivity.
Qed.

(** X21 on an exit block that begins with [a = np.array(object=r)]. *)
Lemma X21_witness :
  guardM (_inline_arraycall Examples.the_cfg [10%Z] Examples.the_loop false)
         (mkState
            (mkFunctionIR
               [(30%Z, mkBlock 0
                         [ Assign (expr (call "$30.2" []
                                              [("object"%string, Var "r")]))
                                  "a";
                           Del "r" ])]
               [ ("$30.1"%string, [atom (Global "np" np)]);
                 ("$30.2"%string, [expr (getattr (Var "$30.1") "array")]) ])
            [] 30 0)
  = (Raise IndexError,
     mkState
       (mkFunctionIR
          [(30%Z, mkBlock 0
                    [ Assign (expr (call "$30.2" []
                                         [("object"%string, Var "r")]))
                             "a";
                      Del "r" ])]
          [ ("$30.1"%string, [atom (Global "np" np)]);
            ("$30.2"%string, [expr (getattr (Var "$30.1") "array")]) ])
       [] 30 0).
Proof.
  apply (proj2 (@X21_array_call_without_argument_is_fatal
                  Examples.the_cfg [10%Z] Examples.the_loop false
                  (mkState
                     (mkFunctionIR
                        [(30%Z, mkBlock 0
                                  [ Assign (expr (call "$30.2" []
                                              [("object"%string, Var "r")]))
                                           "a";
                                    Del "r" ])]
                        [ ("$30.1"%string, [atom (Global "np" np)]);
                          ("$30.2"%string,
                           [expr (getattr (Var "$30.1") "array")]) ])
                     [] 30 0)
                  (mkBlock 0
                     [ Assign (expr (call "$30.2" []
                                          [("object"%string, Var "r")])) "a";
                       Del "r" ])
                  [] "$30.2"%string [("object"%string, Var "r")] "a"%string
                  [Del "r"]
                  eq_refl eq_refl eq_refl (Forall_nil _) eq_refl)).
Defined.

(** ** Returns of the inlined closure, block by block *)

Lemma collapse_cast_no_return value stmt :
  is_Return stmt = false -> is_Return (collapse_cast value stmt) = false.
Proof.
  destruct stmt as [[o|[]] t| | | | |]; simpl; auto.
  now destruct (string_dec t value).
Qed.

Lemma replace_returns_in_cases target return_label rest :
  forall seen,
    Forall (fun stmt => is_Return stmt = false) seen ->
    (exists stmts,
        replace_returns_in target return_label seen rest = Ok stmts
        /\ Forall (fun stmt => is_Return stmt = false) stmts
        /\ forall pre value x post, rest <> pre ++ Return value :: x :: post)
    \/ (replace_returns_in target return_label seen rest
        = Raise AssertionError
        /\ exists pre value x post, rest = pre ++ Return value :: x :: post).
Proof.
  induction rest as [|stmt rest IH]; intros seen Hseen.
  - left. exists (rev seen). split; [reflexivity |]. split.
    + now apply Forall_rev.
    + intros [|? ?] value x post; discriminate.
  - assert (Hstep : is_Return stmt = false ->
              replace_returns_in target return_label seen (stmt :: rest)
              = replace_returns_in target return_label (stmt :: seen) rest).
    { now destruct stmt. }
    destruct (is_Return stmt) eqn:Hret.
    + destruct stmt as [| | |value| |]; try discriminate.
      destruct rest as [|x post].
      * left. eexists. split; [reflexivity |]. split.
        -- apply Forall_app. split.
           ++ apply Forall_forall. intros st Hst.
              apply in_map_iff in Hst as (st0 & <- & Hst0).
              apply collapse_cast_no_return.
              apply in_rev in Hst0. rewrite Forall_forall in Hseen. auto.
           ++ repeat constructor.
        -- intros [|? [|? ?]] v x post; discriminate.
      * right. split; [reflexivity |]. now exists [], value, x, post.
    + rewrite (Hstep eq_refl).
      destruct (IH (stmt :: seen)) as [(stmts & Hok & Hall & Hno) | (Hf & Hex)];
        [now constructor | |].
      * left. exists stmts. split; [assumption |]. split; [assumption |].
        intros [|st pre] value x post E.
        -- injection E as -> _. discriminate.
        -- injection E as _ E. now apply Hno in E.
      * right. split; [assumption |].
        destruct Hex as (pre & value & x & post & ->).
        now exists (stmt :: pre), value, x, post.
Qed.

(** X22: [_replace_returns] fails, with a failed assertion, exactly when
    some block holds a return that is not its last statement; when it
    returns, no block holds a return any more, and the labels and scopes of
    the blocks are as they were. *)
Theorem X22_no_return_is_left :
  forall blks target return_label,
    (forall blks',
        _replace_returns blks target return_label = Ok blks' ->
        dict_keys blks' = dict_keys blks
        /\ forall lb', In lb' blks' ->
                       Forall (fun stmt => is_Return stmt = false)
                              (ir.body (snd lb'))) /\
    ((exists e, _replace_returns blks target return_label = Raise e) <->
     exists lb pre value x post,
       In lb blks /\ ir.body (snd lb) = pre ++ Return value :: x :: post) /\
    (forall e, _replace_returns blks target return_label = Raise e ->
               e = AssertionError).
Proof.
  intros blks target return_label.
  assert (Hone : forall stmts e,
             replace_returns_in target return_label [] stmts = Raise e ->
             e = AssertionError
             /\ exists pre value x post,
                 stmts = pre ++ Return value :: x :: post).
  { intros stmts e H.
    destruct (replace_returns_in_cases target return_label stmts
                                       (Forall_nil _))
      as [(r & Hok & _) | (Hf & Hex)]; [congruence |].
    split; [congruence | assumption]. }
  split; [| split].
  - intros blks' H. split; [now apply for_each_block_keys in H |].
    apply for_each_block_Ok in H. intros lb' Hlb'.
    apply (Forall2_flip) in H.
    apply In_nth_error in Hlb' as (n & Hn).
    clear - H Hn. revert n Hn.
    induction H as [|x y l l' (_ & _ & Hb) _ IH]; intros [|n] Hn;
      simpl in Hn; try discriminate.
    + injection Hn as <-.
      destruct (replace_returns_in_cases target return_label
                                         (ir.body (snd y)) (Forall_nil _))
        as [(r & Hok & Hall & _) | (Hf & _)]; congruence.
    + eauto.
  - split.
    + intros (e & H). apply for_each_block_raise_inv in H as (lb & Hin & H).
      apply Hone in H as (_ & pre & value & x & post & E).
      now exists lb, pre, value, x, post.
    + intros (lb & pre & value & x & post & Hin & E).
      exists AssertionError. apply for_each_block_raise.
      * intros stmts e' H. now apply Hone in H.
      * exists lb. split; [assumption |].
        destruct (replace_returns_in_cases target return_label
                                           (ir.body (snd lb)) (Forall_nil _))
          as [(r & _ & _ & Hno) | (Hf & _)]; [| assumption].
        now apply Hno in E.
  - intros e H. apply for_each_block_raise_inv in H as (lb & _ & H).
    now apply Hone in H.
Qed.
